(** * Download orchestration of cc-download (src/electron/main.ts)

    A shallow embedding of the main-process download logic: filename
    sanitisation and collision-free path resolution, the line parser for the
    download engine's output, the process-exit handler with the
    finalisation of the produced file, the concurrency clamp of the settings
    and the pending-queue drain loop.

    A JavaScript string is a sequence of UTF-16 code units. The model
    keeps it as the bytes of its UTF-8 encoding (a [string] of 8-bit
    characters, [Unicode.encode]; an unpaired surrogate takes the three
    bytes WTF-8 gives it): this is the form in which paths reach the file
    system and in which the download engine's output arrives. Where the
    program treats user text by code units, [trim] and [sanitizeFilename],
    the model decodes the bytes, works on the code units and encodes the
    result. *)

From Stdlib Require Import Ascii String ZArith Lia.
From Stdlib Require Import Sorting.Sorted.
From stdpp Require Import base list gmap strings pretty.

Open Scope string_scope.

(* ------------------------------------------------------------------ *)
(** ** UTF-16 code units and their UTF-8 bytes                          *)
(* ------------------------------------------------------------------ *)

Module Unicode.
Local Open Scope Z_scope.

(** The white space of JavaScript, as matched by [\s] and stripped by
    [String.prototype.trim]: the WhiteSpace and LineTerminator code points
    of ECMAScript (tab, LF, VT, FF, CR, space, no-break space, U+1680,
    U+2000 to U+200A, U+2028, U+2029, U+202F, U+205F, U+3000 and the
    byte-order mark U+FEFF). *)
Definition is_space (c : Z) : bool :=
  (Z.eqb c 9 || Z.eqb c 10 || Z.eqb c 11 || Z.eqb c 12 || Z.eqb c 13
   || Z.eqb c 32 || Z.eqb c 160 || Z.eqb c 5760
   || (Z.leb 8192 c && Z.leb c 8202)
   || Z.eqb c 8232 || Z.eqb c 8233 || Z.eqb c 8239 || Z.eqb c 8287
   || Z.eqb c 12288 || Z.eqb c 65279)%bool.

Fixpoint bytes_of_string (s : string) : list Z :=
  match s with
  | EmptyString => []
  | String a s' => Z.of_nat (nat_of_ascii a) :: bytes_of_string s'
  end.

Fixpoint string_of_bytes (l : list Z) : string :=
  match l with
  | [] => EmptyString
  | b :: l' => String (ascii_of_nat (Z.to_nat b)) (string_of_bytes l')
  end.

Definition is_cont (b : Z) : bool := (Z.leb 128 b && Z.ltb b 192)%bool.

(** UTF-8 bytes to UTF-16 code units; a code point above U+FFFF becomes a
    surrogate pair. A byte that does not start a well-formed sequence gives
    U+FFFD; byte strings that encode a JavaScript string never contain one
    ([decode_encode]). *)
Fixpoint utf8_decode (l : list Z) : list Z :=
  match l with
  | [] => []
  | b1 :: l1 =>
    if Z.ltb b1 128 then b1 :: utf8_decode l1
    else if (Z.leb 192 b1 && Z.ltb b1 224)%bool then
      match l1 with
      | b2 :: l2 =>
          if is_cont b2 then ((b1 - 192) * 64 + (b2 - 128)) :: utf8_decode l2
          else 65533 :: utf8_decode l1
      | [] => [65533]
      end
    else if (Z.leb 224 b1 && Z.ltb b1 240)%bool then
      match l1 with
      | b2 :: b3 :: l3 =>
          if (is_cont b2 && is_cont b3)%bool
          then ((b1 - 224) * 4096 + (b2 - 128) * 64 + (b3 - 128)) :: utf8_decode l3
          else 65533 :: utf8_decode l1
      | _ => 65533 :: utf8_decode l1
      end
    else if (Z.leb 240 b1 && Z.ltb b1 248)%bool then
      match l1 with
      | b2 :: b3 :: b4 :: l4 =>
          let cp := (b1 - 240) * 262144 + (b2 - 128) * 4096 + (b3 - 128) * 64 + (b4 - 128) in
          if (is_cont b2 && is_cont b3 && is_cont b4 && Z.leb 65536 cp && Z.leb cp 1114111)%bool
          then (55296 + (cp - 65536) / 1024) :: (56320 + (cp - 65536) mod 1024) :: utf8_decode l4
          else 65533 :: utf8_decode l1
      | _ => 65533 :: utf8_decode l1
      end
    else 65533 :: utf8_decode l1
  end.

Definition is_high (c : Z) : bool := (Z.leb 55296 c && Z.ltb c 56320)%bool.
Definition is_low (c : Z) : bool := (Z.leb 56320 c && Z.ltb c 57344)%bool.

Definition enc3 (c : Z) : list Z :=
  [224 + c / 4096; 128 + (c / 64) mod 64; 128 + c mod 64].

Definition enc4 (cp : Z) : list Z :=
  [240 + cp / 262144; 128 + (cp / 4096) mod 64; 128 + (cp / 64) mod 64; 128 + cp mod 64].

(** UTF-16 code units to UTF-8 bytes: a surrogate pair becomes the four
    bytes of its code point, an unpaired surrogate three bytes. *)
Fixpoint utf8_encode (u : list Z) : list Z :=
  match u with
  | [] => []
  | c :: u1 =>
    if Z.ltb c 128 then c :: utf8_encode u1
    else if Z.ltb c 2048 then (192 + c / 64) :: (128 + c mod 64) :: utf8_encode u1
    else if is_high c then
      match u1 with
      | d :: u2 =>
          if is_low d then enc4 (65536 + (c - 55296) * 1024 + (d - 56320)) ++ utf8_encode u2
          else enc3 c ++ utf8_encode u1
      | [] => enc3 c
      end
    else enc3 c ++ utf8_encode u1
  end.

Definition decode (s : string) : list Z := utf8_decode (bytes_of_string s).
Definition encode (u : list Z) : string := string_of_bytes (utf8_encode u).

Fixpoint drop_while (f : Z -> bool) (u : list Z) : list Z :=
  match u with
  | [] => []
  | c :: u' => if f c then drop_while f u' else u
  end.

(** [String.prototype.trim] on code units. *)
Definition trim (u : list Z) : list Z :=
  List.rev (drop_while is_space (List.rev (drop_while is_space u))).

Definition unit_range (c : Z) : Prop := 0 <= c < 65536.

End Unicode.

(* ------------------------------------------------------------------ *)
(** ** Characters and string helpers (JavaScript string built-ins)      *)
(* ------------------------------------------------------------------ *)

Module JS.

(** JavaScript [\s] on one byte: tab, LF, VT, FF, CR and space. A byte
    below 128 is a whole character of the UTF-8 text, and these are the
    members of [\s] below 128; the other members are multi-byte sequences,
    handled by [Unicode.is_space]. The regular expressions of the progress
    parser use this test on the separators of the download engine's
    progress lines. *)
Definition is_space (c : ascii) : bool :=
  let n := nat_of_ascii c in
  (Nat.eqb n 32 || Nat.eqb n 9 || Nat.eqb n 10 || Nat.eqb n 11
   || Nat.eqb n 12 || Nat.eqb n 13)%bool.

Definition is_digit (c : ascii) : bool :=
  let n := nat_of_ascii c in (Nat.leb 48 n && Nat.leb n 57)%bool.

(** ASCII lower-casing, used by the [/i] flag of the regular expressions. *)
Definition to_lower (c : ascii) : ascii :=
  let n := nat_of_ascii c in
  if (Nat.leb 65 n && Nat.leb n 90)%bool then ascii_of_nat (n + 32) else c.

Definition ascii_eqb (a b : ascii) : bool :=
  if ascii_dec a b then true else false.

(** [s.startsWith(p)] *)
Fixpoint starts_with (p s : string) : bool :=
  match p, s with
  | EmptyString, _ => true
  | String a p', String b s' => (ascii_eqb a b && starts_with p' s')%bool
  | String _ _, EmptyString => false
  end.

(** Case-insensitive prefix test ([/i] flag). *)
Fixpoint starts_with_ci (p s : string) : bool :=
  match p, s with
  | EmptyString, _ => true
  | String a p', String b s' =>
      (ascii_eqb (to_lower a) (to_lower b) && starts_with_ci p' s')%bool
  | String _ _, EmptyString => false
  end.

(** [s.endsWith(p)] *)
Definition ends_with (p s : string) : bool :=
  starts_with (String.rev p) (String.rev s).

(** Longest prefix whose characters satisfy [f], and the rest. *)
Fixpoint span (f : ascii -> bool) (s : string) : string * string :=
  match s with
  | EmptyString => (EmptyString, EmptyString)
  | String c s' =>
      if f c then let '(a, b) := span f s' in (String c a, b)
      else (EmptyString, s)
  end.

(** [s.trim()]: on the code units of [s], with all of JavaScript's white
    space. *)
Definition trim (s : string) : string :=
  Unicode.encode (Unicode.trim (Unicode.decode s)).

(** Index of the last occurrence of [c] in [s]. *)
Fixpoint last_index_of_go (c : ascii) (s : string) (i : nat) (acc : option nat)
  : option nat :=
  match s with
  | EmptyString => acc
  | String d s' =>
      last_index_of_go c s' (S i) (if ascii_eqb c d then Some i else acc)
  end.

Definition last_index_of (c : ascii) (s : string) : option nat :=
  last_index_of_go c s 0 None.

End JS.

(* ------------------------------------------------------------------ *)
(** ** [node:path] on POSIX paths                                       *)
(* ------------------------------------------------------------------ *)

Module NodePath.

(** [path.join(directory, name)] for a normalised directory without a
    trailing separator and a file name without separators: the
    normalisation of [path.join] leaves such a pair unchanged. *)
Definition join (directory name : string) : string :=
  directory +:+ String "/" name.

(** The last path segment (paths here never end in a separator). *)
Definition base_part (p : string) : string :=
  match JS.last_index_of "/" p with
  | Some i => substring (S i) (String.length p) p
  | None => p
  end.

(** [path.extname(p)]: from the last dot of the last segment; empty when the
    segment has no dot, when its only leading dot is its first character,
    or when it is [".."]. *)
Definition extname (p : string) : string :=
  let b := base_part p in
  match JS.last_index_of "." b with
  | None => ""
  | Some 0 => ""
  | Some i => if String.eqb b ".." then "" else substring i (String.length b) b
  end.

(** [path.basename(p, ext)]: the last segment with the suffix [ext] removed
    when it ends with it and is not equal to it. *)
Definition basename (p ext : string) : string :=
  let b := base_part p in
  if (negb (String.eqb ext "") && JS.ends_with ext b && negb (String.eqb ext b))%bool
  then substring 0 (String.length b - String.length ext) b
  else b.

(** [path.parse(p).name] *)
Definition parse_name (p : string) : string := basename p (extname p).

(** The backward scan of [path.dirname]: [i] runs from [path.length - 1]
    down to 1, [n] steps being left; the index of the first separator met
    after a non-separator character, if any. *)
Fixpoint dirname_scan (p : string) (n i : nat) (matchedSlash : bool) : option nat :=
  match n with
  | O => None
  | S n' =>
      match String.get i p with
      | Some c =>
          if JS.ascii_eqb c "/" then
            if matchedSlash then dirname_scan p n' (i - 1) matchedSlash else Some i
          else dirname_scan p n' (i - 1) false
      | None => None
      end
  end.

(** [path.dirname(p)] *)
Definition dirname (p : string) : string :=
  match p with
  | EmptyString => "."
  | String c _ =>
      let hasRoot := JS.ascii_eqb c "/" in
      let last := String.length p - 1 in
      match dirname_scan p last last true with
      | None => if hasRoot then "/" else "."
      | Some e => if (hasRoot && Nat.eqb e 1)%bool then "//" else substring 0 e p
      end
  end.

End NodePath.

(* ------------------------------------------------------------------ *)
(** ** [sanitizeFilename]                                               *)
(* ------------------------------------------------------------------ *)

(** [sanitizeFilename] works on the title's UTF-16 code units: every
    step below is the JavaScript one on code units. *)

(** The code units of the regular-expression class of [sanitizeFilename]:
    backslash, slash, colon, star, question mark, double quote,
    less-than, greater-than and bar. *)
Definition is_illegal (c : Z) : bool :=
  existsb (Z.eqb c) [92; 47; 58; 42; 63; 34; 60; 62; 124]%Z.

Definition is_illegal_char (c : ascii) : bool := is_illegal (Z.of_nat (nat_of_ascii c)).

(** First [.replace] of [sanitizeFilename]: each illegal code unit becomes
    an underscore. *)
Definition replace_illegal (u : list Z) : list Z :=
  map (fun c => if is_illegal c then 95%Z else c) u.

(** [.replace(/\s+/g, ' ')]: every maximal run of white space becomes one
    space; [in_run] tells whether the previous code unit was white space. *)
Fixpoint collapse_go (in_run : bool) (u : list Z) : list Z :=
  match u with
  | [] => []
  | c :: u' =>
      if Unicode.is_space c
      then (if in_run then collapse_go true u' else 32%Z :: collapse_go true u')
      else c :: collapse_go false u'
  end.

Definition collapse_spaces (u : list Z) : list Z := collapse_go false u.

(** The code units of ['video']. *)
Definition video : list Z := [118; 105; 100; 101; 111]%Z.

(** [.trim().slice(0, 120) || 'video'] after the two replacements. *)
Definition sanitize_units (t : list Z) : list Z :=
  match take 120 (Unicode.trim (collapse_spaces (replace_illegal t))) with
  | [] => video
  | r => r
  end.

Definition sanitizeFilename (input : string) : string :=
  Unicode.encode (sanitize_units (Unicode.decode input)).


(* ------------------------------------------------------------------ *)
(** ** JavaScript numbers                                               *)
(* ------------------------------------------------------------------ *)

(** A decimal [mant / 10 ^ scale]. *)
Record dec := Dec { mant : Z; scale : nat }.

(** A JavaScript number; [Fin d] stands for the double nearest to [d] (the
    rounding of finite values is not modelled, overflow is). *)
Inductive JSNum :=
  | NaN
  | PosInf
  | NegInf
  | Fin (d : dec).

Definition Number_isFinite (n : JSNum) : bool :=
  match n with Fin _ => true | _ => false end.

(** Decimals at or above [2^1024 - 2^970] round to [Infinity]. *)
Definition overflow_threshold : Z := (2 ^ 1024 - 2 ^ 970)%Z.

Definition dec_to_number (d : dec) : JSNum :=
  if Z.leb (overflow_threshold * 10 ^ Z.of_nat (scale d)) (mant d)
  then PosInf else Fin d.

Fixpoint digits_value (s : string) (acc : Z) : Z :=
  match s with
  | EmptyString => acc
  | String c s' => digits_value s' (acc * 10 + Z.of_nat (nat_of_ascii c - 48))
  end.

(** [Number.parseFloat] on the strings it receives in this program: the
    capture of the class [[\d.]+], made of digits and dots only.  It reads the
    longest prefix of the form [digits [. digits]] or [. digits]; a string with
    no digit before its second dot or its end gives [NaN]. *)
Definition parseFloat (s : string) : JSNum :=
  let '(ip, r) := JS.span JS.is_digit s in
  match r with
  | String "." r' =>
      let '(fp, _) := JS.span JS.is_digit r' in
      if (String.eqb ip "" && String.eqb fp "")%bool then NaN
      else dec_to_number (Dec (digits_value (ip +:+ fp) 0) (String.length fp))
  | _ =>
      if String.eqb ip "" then NaN
      else dec_to_number (Dec (digits_value ip 0) 0)
  end.

(** [Math.round] of a finite number: the nearest integer, halves upwards. *)
Definition Math_round (d : dec) : Z :=
  Z.div (2 * mant d + 10 ^ Z.of_nat (scale d)) (2 * 10 ^ Z.of_nat (scale d)).

(** JavaScript values as they can reach [clampConcurrentDownloads] (from the
    renderer or from the JSON settings file).  An object is represented by
    its primitive string value, which [Number] converts. *)
Inductive JSVal :=
  | JUndefined
  | JNull
  | JBool (b : bool)
  | JNumber (n : JSNum)
  | JString (s : string)
  | JObject (prim : string).

(** ECMAScript's StringToNumber, left abstract. *)
Class StringToNumber := string_to_number : string -> JSNum.

Section Numbers.
Context `{StringToNumber}.

(** [Number(input)] *)
Definition Number (v : JSVal) : JSNum :=
  match v with
  | JUndefined => NaN
  | JNull => Fin (Dec 0 0)
  | JBool b => Fin (Dec (if b then 1 else 0) 0)
  | JNumber n => n
  | JString s => string_to_number s
  | JObject p => string_to_number p
  end.

(** [DEFAULT_SETTINGS.maxConcurrentDownloads] *)
Definition default_maxConcurrentDownloads : Z := 3.

Definition clampConcurrentDownloads (input : JSVal) : Z :=
  match Number input with
  | Fin d => Z.min (Z.max (Math_round d) 1) 10
  | _ => default_maxConcurrentDownloads
  end.

End Numbers.

(** The settings record ([AppSettings]); the limit as the cache holds it. *)
Record AppSettings := {
  downloadDir : option string;
  maxConcurrentDownloads : JSVal
}.

Section Settings.
Context `{StringToNumber}.

(** [getMaxConcurrentDownloads], used by the drain loop. *)
Definition getMaxConcurrentDownloads (settings : AppSettings) : Z :=
  clampConcurrentDownloads (maxConcurrentDownloads settings).

(** The [settings:get-max-concurrent-downloads] handler. *)
Definition settings_get_max_concurrent_downloads (settings : AppSettings) : Z :=
  clampConcurrentDownloads (maxConcurrentDownloads settings).

(** [updateSettings({ maxConcurrentDownloads: count })]. *)
Definition update_max_concurrent (current : AppSettings) (count : JSVal)
  : AppSettings :=
  {| downloadDir := downloadDir current;
     maxConcurrentDownloads :=
       match count with
       | JUndefined => maxConcurrentDownloads current
       | _ => JNumber (Fin (Dec (clampConcurrentDownloads count) 0))
       end |}.

End Settings.

(* ------------------------------------------------------------------ *)
(** ** File system interface and the I/O monad                          *)
(* ------------------------------------------------------------------ *)

Inductive fs_error :=
  | ENOENT
  | OtherErrno (code : string).

(** The part of [fs.Stats] the program reads. *)
Record Stats := { st_size : Z; st_mtime : Z }.

(** [node:fs/promises] operations and [path.resolve], over a file-system
    state [FS].  Every operation may fail. *)
Class FileSystem (FS : Type) := {
  fs_stat : FS -> string -> Stats + fs_error;
  fs_readdir : FS -> string -> list string + fs_error;
  fs_rename : FS -> string -> string -> FS + fs_error;
  path_resolve : string -> string
}.

(** The operations performed, in order. *)
Inductive fs_op :=
  | OpStat (p : string)
  | OpReaddir (d : string)
  | OpRename (src dst : string).

(** An exception is a rejected file-system promise; [Diverged] marks a run
    out of fuel for the unbounded probing loops. *)
Inductive exn :=
  | FsError (e : fs_error)
  | Diverged.

Inductive outcome (A : Type) :=
  | Ret (a : A)
  | Throw (e : exn).
Arguments Ret {A} a.
Arguments Throw {A} e.

Section IO.
Context {FS : Type} `{FileSystem FS}.

Definition IO (A : Type) : Type := FS * list fs_op -> (FS * list fs_op) * outcome A.

Definition io_ret {A} (a : A) : IO A := fun s => (s, Ret a).

Definition io_bind {A B} (m : IO A) (k : A -> IO B) : IO B :=
  fun s => match m s with
           | (s', Ret a) => k a s'
           | (s', Throw e) => (s', Throw e)
           end.

Definition io_throw {A} (e : fs_error) : IO A := fun s => (s, Throw (FsError e)).

Definition io_diverge {A} : IO A := fun s => (s, Throw Diverged).

(** [try { await m } catch (error) { ... }]: the file-system error becomes a
    value; running out of fuel is not an exception of the program. *)
Definition io_try {A} (m : IO A) : IO (A + fs_error) :=
  fun s => match m s with
           | (s', Ret a) => (s', Ret (inl a))
           | (s', Throw (FsError e)) => (s', Ret (inr e))
           | (s', Throw Diverged) => (s', Throw Diverged)
           end.

Definition io_stat (p : string) : IO Stats :=
  fun '(fs, log) =>
    let log' := app log [OpStat p] in
    match fs_stat fs p with
    | inl st => ((fs, log'), Ret st)
    | inr e => ((fs, log'), Throw (FsError e))
    end.

Definition io_readdir (d : string) : IO (list string) :=
  fun '(fs, log) =>
    let log' := app log [OpReaddir d] in
    match fs_readdir fs d with
    | inl l => ((fs, log'), Ret l)
    | inr e => ((fs, log'), Throw (FsError e))
    end.

Definition io_rename (src dst : string) : IO unit :=
  fun '(fs, log) =>
    let log' := app log [OpRename src dst] in
    match fs_rename fs src dst with
    | inl fs' => ((fs', log'), Ret tt)
    | inr e => ((fs, log'), Throw (FsError e))
    end.

End IO.

Notation "'let!' x ':=' m 'in' k" := (io_bind m (fun x => k))
  (at level 200, x name, m at level 100, k at level 200).

(* ------------------------------------------------------------------ *)
(** ** [ensureUniqueOutputPath] and [ensureFinalFilePath]               *)
(* ------------------------------------------------------------------ *)

(** [`${baseName}(${attempt})`] *)
Definition suffixed (baseName : string) (attempt : nat) : string :=
  baseName +:+ "(" +:+ pretty attempt +:+ ")".

Section Resolvers.
Context {FS : Type} `{FileSystem FS}.

(** The [while (true)] loop of [ensureUniqueOutputPath], with fuel. *)
Fixpoint unique_loop (fuel : nat) (directory baseName ext : string)
    (attempt : nat) (candidateBase : string) : IO (string * string) :=
  match fuel with
  | O => io_diverge
  | S fuel' =>
      let template := NodePath.join directory (candidateBase +:+ ".%(ext)s") in
      let absolutePath := NodePath.join directory (candidateBase +:+ ext) in
      let! r := io_try (io_stat absolutePath) in
      match r with
      | inl _ =>
          let attempt' := S attempt in
          unique_loop fuel' directory baseName ext attempt'
            (suffixed baseName attempt')
      | inr ENOENT => io_ret (template, absolutePath)
      | inr e => io_throw e
      end
  end.

(** [ensureUniqueOutputPath(directory, rawTitle, overwrite, ext)]; [now] is
    [Date.now()]. *)
Definition ensureUniqueOutputPath (fuel : nat) (now : Z) (directory : string)
    (rawTitle : option string) (overwrite : bool) (ext : string)
  : IO (string * string) :=
  let baseName := sanitizeFilename
    (match rawTitle with Some t => t | None => "video-" +:+ pretty now end) in
  if overwrite then
    io_ret (NodePath.join directory (baseName +:+ ".%(ext)s"),
            NodePath.join directory (baseName +:+ ext))
  else unique_loop fuel directory baseName ext 0 baseName.

(** The [while (true)] loop of [ensureFinalFilePath], with fuel. *)
Fixpoint final_loop (fuel : nat) (directory sanitized safeExt : string)
    (currentPath : option string) (attempt : nat) : IO string :=
  match fuel with
  | O => io_diverge
  | S fuel' =>
      let candidateName :=
        match attempt with O => sanitized | _ => suffixed sanitized attempt end in
      let candidatePath := NodePath.join directory (candidateName +:+ safeExt) in
      match currentPath with
      | Some cur =>
          if (negb (String.eqb cur "") &&
              String.eqb (path_resolve candidatePath) (path_resolve cur))%bool
          then io_ret candidatePath
          else
            let! r := io_try (io_stat candidatePath) in
            match r with
            | inl _ => final_loop fuel' directory sanitized safeExt currentPath (S attempt)
            | inr ENOENT => io_ret candidatePath
            | inr e => io_throw e
            end
      | None =>
          let! r := io_try (io_stat candidatePath) in
          match r with
          | inl _ => final_loop fuel' directory sanitized safeExt currentPath (S attempt)
          | inr ENOENT => io_ret candidatePath
          | inr e => io_throw e
          end
      end
  end.

Definition ensureFinalFilePath (fuel : nat) (directory rawTitle ext : string)
    (currentPath : option string) : IO string :=
  let sanitized := sanitizeFilename rawTitle in
  let safeExt := if JS.starts_with "." ext then ext else "." +:+ ext in
  final_loop fuel directory sanitized safeExt currentPath 0.

End Resolvers.

(** An in-memory file system: the files with their stats, in directory
    listing order.  [path_resolve] is the identity on the absolute,
    normalised paths used with it. *)
Module MemFS.

Definition t := list (string * Stats).

Fixpoint lookup (fs : t) (p : string) : option Stats :=
  match fs with
  | [] => None
  | (q, st) :: fs' => if String.eqb q p then Some st else lookup fs' p
  end.

Definition stat (fs : t) (p : string) : Stats + fs_error :=
  match lookup fs p with Some st => inl st | None => inr ENOENT end.

(** The names of the files directly inside [d]. *)
Definition readdir (fs : t) (d : string) : list string + fs_error :=
  inl (omap (fun '(q, _) =>
         let prefix := d +:+ "/" in
         if JS.starts_with prefix q then
           let n := substring (String.length prefix) (String.length q) q in
           if existsb (JS.ascii_eqb "/") (list_ascii_of_string n) then None
           else Some n
         else None) fs).

(** [rename] replaces the destination when it exists. *)
Definition rename (fs : t) (src dst : string) : t + fs_error :=
  match lookup fs src with
  | None => inr ENOENT
  | Some st =>
      inl ((dst, st) :: filter (fun '(q, _) =>
             negb (String.eqb q src || String.eqb q dst)%bool) fs)
  end.

#[global] Instance fs : FileSystem t := {|
  fs_stat := stat;
  fs_readdir := readdir;
  fs_rename := rename;
  path_resolve := fun p => p
|}.

Definition file (p : string) (mtime : Z) : string * Stats :=
  (p, {| st_size := 1000; st_mtime := mtime |}).

End MemFS.

(* ------------------------------------------------------------------ *)
(** ** Tasks and download events                                        *)
(* ------------------------------------------------------------------ *)

Inductive DownloadStatus :=
  | Queued | Downloading | Processing | Completed | Failed | Canceled.

Definition status_eqb (a b : DownloadStatus) : bool :=
  match a, b with
  | Queued, Queued | Downloading, Downloading | Processing, Processing
  | Completed, Completed | Failed, Failed | Canceled, Canceled => true
  | _, _ => false
  end.

Inductive DownloadType := Video | Audio.

(** [DownloadTask] without the process handle and the display-only fields
    (thumbnail, duration, durationText, source), which the listeners copy
    into the events unchanged. *)
Record DownloadTask := {
  dt_id : string;
  dt_url : string;
  dt_status : DownloadStatus;
  dt_outputFile : option string;
  dt_title : option string;
  dt_directory : option string;
  dt_downloadType : option DownloadType
}.

Definition set_status (s : DownloadStatus) (t : DownloadTask) : DownloadTask :=
  {| dt_id := dt_id t; dt_url := dt_url t; dt_status := s;
     dt_outputFile := dt_outputFile t; dt_title := dt_title t;
     dt_directory := dt_directory t; dt_downloadType := dt_downloadType t |}.

Definition set_outputFile (o : option string) (t : DownloadTask) : DownloadTask :=
  {| dt_id := dt_id t; dt_url := dt_url t; dt_status := dt_status t;
     dt_outputFile := o; dt_title := dt_title t;
     dt_directory := dt_directory t; dt_downloadType := dt_downloadType t |}.

Definition set_title (o : option string) (t : DownloadTask) : DownloadTask :=
  {| dt_id := dt_id t; dt_url := dt_url t; dt_status := dt_status t;
     dt_outputFile := dt_outputFile t; dt_title := o;
     dt_directory := dt_directory t; dt_downloadType := dt_downloadType t |}.

(** [DownloadProgress]: an absent field is [None] ([undefined]). *)
Record DownloadProgress := {
  percent : option JSNum;
  speed : option string;
  eta : option string
}.

Record ProgressPayload := {
  pp_id : string;
  pp_status : option DownloadStatus;
  pp_title : option string;
  pp_progress : DownloadProgress;
  pp_directory : option string;
  pp_filePath : option string
}.

Record CompletedPayload := {
  cp_id : string;
  cp_filePath : option string;
  cp_title : option string;
  cp_directory : option string;
  cp_fileSize : option Z
}.

(** The events of [broadcastDownloadEvent] that the listeners emit. *)
Inductive DownloadEvent :=
  | EvProgress (p : ProgressPayload)
  | EvFailed (id error : string)
  | EvCompleted (p : CompletedPayload).

Definition handleFailure (t : DownloadTask) (message : string)
  : DownloadTask * list DownloadEvent :=
  (set_status Failed t, [EvFailed (dt_id t) message]).

(* ------------------------------------------------------------------ *)
(** ** The regular expressions of [handleLine]                          *)
(* ------------------------------------------------------------------ *)

Module Regex.

Definition drop (n : nat) (s : string) : string :=
  substring n (String.length s) s.

Definition not_space (c : ascii) : bool := negb (JS.is_space c).

Definition is_digit_or_dot (c : ascii) : bool :=
  (JS.is_digit c || JS.ascii_eqb c ".")%bool.

(** [String.prototype.match] without the [g] flag: the leftmost start
    position where the pattern matches. *)
Fixpoint search (at_start : string -> option string) (s : string) : option string :=
  match at_start s with
  | Some m => Some m
  | None =>
      match s with
      | EmptyString => None
      | String _ s' => search at_start s'
      end
  end.

(** [/\[download\]\s+([\d.]+)%/i] anchored at the start of [s], giving the
    group.  [\s+] and [[\d.]+] are followed by characters they do not
    match, so the greedy runs are the only candidates. *)
Definition progress_at (s : string) : option string :=
  if JS.starts_with_ci "[download]" s then
    let '(ws, r) := JS.span JS.is_space (drop 10 s) in
    if String.eqb ws "" then None else
    let '(num, r') := JS.span is_digit_or_dot r in
    if String.eqb num "" then None
    else if JS.starts_with "%" r' then Some num else None
  else None.

(** The longest prefix of [r] that ends in [/s] (the [s] in either case). *)
Fixpoint slash_s_prefix (r : string) : option string :=
  match r with
  | EmptyString => None
  | String c r' =>
      match slash_s_prefix r' with
      | Some q => Some (String c q)
      | None =>
          if (JS.ascii_eqb c "/" && JS.starts_with_ci "s" r')%bool
          then Some (String c (substring 0 1 r'))
          else None
      end
  end.

(** [/at\s+([^\s]+\/s)/i] anchored at the start of [s]: after the spaces the
    greedy [[^\s]+] backtracks to the last [/s] of the run of non-space
    characters, leaving at least one character before it. *)
Definition speed_at (s : string) : option string :=
  if JS.starts_with_ci "at" s then
    let '(ws, r) := JS.span JS.is_space (drop 2 s) in
    if String.eqb ws "" then None else
    let '(run, _) := JS.span not_space r in
    match run with
    | EmptyString => None
    | String c rest => option_map (String c) (slash_s_prefix rest)
    end
  else None.

(** [/ETA\s+([^\s]+)/i] anchored at the start of [s]. *)
Definition eta_at (s : string) : option string :=
  if JS.starts_with_ci "ETA" s then
    let '(ws, r) := JS.span JS.is_space (drop 3 s) in
    if String.eqb ws "" then None else
    let '(run, _) := JS.span not_space r in
    if String.eqb run "" then None else Some run
  else None.

Definition progressMatch (line : string) : option string := search progress_at line.
Definition speedMatch (line : string) : option string := search speed_at line.
Definition etaMatch (line : string) : option string := search eta_at line.

End Regex.

(* ------------------------------------------------------------------ *)
(** ** [handleLine]                                                     *)
(* ------------------------------------------------------------------ *)

Definition destination_marker : string := "[download] Destination:".

(** [!x] for an optional string. *)
Definition falsy (o : option string) : bool :=
  match o with None => true | Some s => String.eqb s "" end.

(** The line handler installed by [setupProcessListeners] on stdout and
    stderr. *)
Definition handleLine (task : DownloadTask) (raw : string)
  : DownloadTask * list DownloadEvent :=
  let line := JS.trim raw in
  let id := dt_id task in
  if String.eqb line "" then (task, []) else
  if JS.starts_with destination_marker line then
    (* [line.replace(marker, '')] removes the leading marker *)
    let destination :=
      JS.trim (Regex.drop (String.length destination_marker) line) in
    let task1 := set_outputFile (Some destination) task in
    let task2 :=
      if falsy (dt_title task1)
      then set_title (Some (NodePath.parse_name destination)) task1
      else task1 in
    (task2,
     [EvProgress {| pp_id := id; pp_status := None; pp_title := dt_title task2;
                    pp_progress := {| percent := Some (Fin (Dec
                                        (if status_eqb (dt_status task2) Completed
                                         then 100 else 0) 0));
                                      speed := None; eta := None |};
                    pp_directory := dt_directory task2;
                    pp_filePath := Some destination |}])
  else
  match Regex.progressMatch line with
  | Some digits =>
      let pct := parseFloat digits in
      let speedM := Regex.speedMatch line in
      let etaM := Regex.etaMatch line in
      let task1 := set_status Downloading task in
      (task1,
       [EvProgress {| pp_id := id; pp_status := Some Downloading;
                      pp_title := dt_title task1;
                      pp_progress := {| percent := Some (if Number_isFinite pct
                                                         then pct else Fin (Dec 0 0));
                                        speed := speedM; eta := etaM |};
                      pp_directory := dt_directory task1;
                      pp_filePath := dt_outputFile task1 |}])
  | None =>
      if (JS.starts_with "[Merger]" line || JS.starts_with "[ffmpeg]" line)%bool then
        let task1 := set_status Processing task in
        (task1,
         [EvProgress {| pp_id := id; pp_status := Some Processing;
                        pp_title := dt_title task1;
                        pp_progress := {| percent := Some (Fin (Dec 100 0));
                                          speed := None; eta := None |};
                        pp_directory := dt_directory task1;
                        pp_filePath := dt_outputFile task1 |}])
      else if JS.starts_with "ERROR" line then handleFailure task line
      else (task, [])
  end.

(** Lines of one stream handled in order, the events concatenated. *)
Fixpoint handleLines (task : DownloadTask) (lines : list string)
  : DownloadTask * list DownloadEvent :=
  match lines with
  | [] => (task, [])
  | l :: ls =>
      let '(t1, ev1) := handleLine task l in
      let '(t2, ev2) := handleLines t1 ls in
      (t2, app ev1 ev2)
  end.


(* ------------------------------------------------------------------ *)
(** ** [finalizeDownload] and the [close] listener                      *)
(* ------------------------------------------------------------------ *)

(** The extension [finalizeDownload] expects for a task. *)
Definition finalize_expected_ext (t : DownloadTask) : string :=
  match dt_downloadType t with Some Audio => ".mp3" | _ => ".mp4" end.

(** The [expectedExt] of the [download:start] handler, from the requested
    media kind and [payload.audioFormat]. *)
Definition download_start_expected_ext (downloadType : DownloadType)
    (audioFormat : option string) : string :=
  let expectedExt := match downloadType with Audio => ".mp3" | Video => ".mp4" end in
  match downloadType, audioFormat with
  | Audio, Some f => if String.eqb f "m4a" then ".m4a" else expectedExt
  | _, _ => expectedExt
  end.

(** [fileStats.sort((a, b) => b.mtime - a.mtime)]: a stable sort by
    decreasing modification time (insertion after the equal ones). *)
Fixpoint insert_by_mtime (x : string * Z) (l : list (string * Z)) : list (string * Z) :=
  match l with
  | [] => [x]
  | y :: l' => if Z.ltb (snd y) (snd x) then x :: l else y :: insert_by_mtime x l'
  end.

Definition sort_by_mtime_desc (l : list (string * Z)) : list (string * Z) :=
  fold_left (fun acc x => insert_by_mtime x acc) l [].

Section Finalize.
Context {FS : Type} `{FileSystem FS}.

(** [new URL(...)]-based [deriveTitleFromUrl], left abstract: it only runs
    for a task without a title. *)
Variable deriveTitleFromUrl : string -> string.

(** [Promise.all(matchedFiles.map(... stat ...))]; a rejection rejects the
    whole. *)
Fixpoint stat_all (directory : string) (files : list string) : IO (list (string * Z)) :=
  match files with
  | [] => io_ret []
  | f :: fs' =>
      let fullPath := NodePath.join directory f in
      let! st := io_stat fullPath in
      let! rest := stat_all directory fs' in
      io_ret ((fullPath, st_mtime st) :: rest)
  end.

(** Method 3: the most recently modified file of the directory with the
    expected extension; every error is caught. *)
Definition find_latest (directory expectedExt : string) : IO (option string) :=
  let! r := io_try (
    let! files := io_readdir directory in
    let matchedFiles := filter (fun f => JS.ends_with expectedExt f = true) files in
    match matchedFiles with
    | [] => io_ret None
    | _ =>
        let! fileStats := stat_all directory matchedFiles in
        match sort_by_mtime_desc fileStats with
        | (f, _) :: _ => io_ret (Some f)
        | [] => io_ret None
        end
    end) in
  match r with inl a => io_ret a | inr _ => io_ret None end.

(** [finalizeDownload(task)]: the returned path and the task as mutated. *)
Definition finalizeDownload (fuel : nat) (task : DownloadTask)
  : IO (option string * DownloadTask) :=
  match dt_outputFile task, dt_directory task with
  | Some out, Some directory =>
    if (String.eqb out "" || String.eqb directory "")%bool then io_ret (None, task) else
    let desiredTitle :=
      match dt_title task with Some x => x | None => deriveTitleFromUrl (dt_url task) end in
    (* method 1: the recorded output path *)
    let! r1 := io_try (io_stat out) in
    (* method 2: the same base name with the expected extension *)
    let! found2 :=
      match r1 with
      | inl _ => io_ret (Some out)
      | inr _ =>
          let baseName := NodePath.basename out (NodePath.extname out) in
          let expectedFile :=
            NodePath.join directory (baseName +:+ finalize_expected_ext task) in
          let! r2 := io_try (io_stat expectedFile) in
          match r2 with inl _ => io_ret (Some expectedFile) | inr _ => io_ret None end
      end in
    (* method 3: the newest file with the expected extension *)
    let! actual :=
      match found2 with
      | Some a => io_ret (Some a)
      | None => find_latest directory (finalize_expected_ext task)
      end in
    match actual with
    | None => io_ret (Some out, task)
    | Some actualFile =>
        let task1 := set_outputFile (Some actualFile) task in
        let ext :=
          let e := NodePath.extname actualFile in
          if String.eqb e "" then finalize_expected_ext task else e in
        let! r := io_try (
          let! targetPath :=
            ensureFinalFilePath fuel directory desiredTitle ext (Some actualFile) in
          if negb (String.eqb (path_resolve targetPath) (path_resolve actualFile))
          then
            let! _ := io_rename actualFile targetPath in
            io_ret (Some targetPath, set_outputFile (Some targetPath) task1)
          else io_ret (Some actualFile, task1)) in
        match r with
        | inl x => io_ret x
        | inr _ => io_ret (dt_outputFile task1, task1)
        end
    end
  | _, _ => io_ret (None, task)
  end.

(** The [close] listener of [setupProcessListeners] for the task (the
    registry deletion and the queue re-drain are in [Queue]). *)
Definition onClose (fuel : nat) (task : DownloadTask) (code : option Z)
  : IO (DownloadTask * list DownloadEvent) :=
  match code with
  | Some 0%Z =>
      let task1 := set_status Completed task in
      let! res := finalizeDownload fuel task1 in
      let '(finalPath, task2) := res in
      let pathToCheck :=
        match finalPath with Some p => Some p | None => dt_outputFile task2 end in
      let task3 :=
        match pathToCheck with
        | Some p =>
            if String.eqb p "" then task2 else
            let finalFileName := NodePath.basename p (NodePath.extname p) in
            if decide (Some finalFileName = dt_title task2) then task2
            else set_title (Some finalFileName) task2
        | None => task2
        end in
      let! fileSize :=
        match pathToCheck with
        | Some p =>
            if String.eqb p "" then io_ret None else
            let! r := io_try (io_stat p) in
            match r with inl st => io_ret (Some (st_size st)) | inr _ => io_ret None end
        | None => io_ret None
        end in
      io_ret (task3,
        [EvCompleted {| cp_id := dt_id task3;
                        cp_filePath :=
                          match finalPath with Some p => Some p | None => dt_outputFile task3 end;
                        cp_title := dt_title task3;
                        cp_directory := dt_directory task3;
                        cp_fileSize := fileSize |}])
  | _ =>
      if status_eqb (dt_status task) Failed then io_ret (task, [])
      else
        let msg := "下载进程退出，退出码 " +:+
                   match code with Some c => pretty c | None => "未知" end in
        io_ret (handleFailure task msg)
  end.

End Finalize.

(* ------------------------------------------------------------------ *)
(** ** The pending queue and its drain loop ([processQueue])            *)
(* ------------------------------------------------------------------ *)

Module Queue.

(** [PendingTask], reduced to what the queue reads. *)
Record PendingTask := { pt_id : string; pt_url : string }.

(** Where [processQueue] stands: not running ([isProcessingQueue] false),
    suspended on [await getMaxConcurrentDownloads()], about to compare the
    limit it read with [activeDownloads.size], or suspended on
    [await startPendingTask(next)]. *)
Inductive drain_pc :=
  | Idle
  | AwaitCap
  | Check (maxConcurrent : Z)
  | Spawning (next : PendingTask).

Record state := {
  activeDownloads : gmap string PendingTask;
  pendingQueue : list PendingTask;
  settings : AppSettings;
  drain : drain_pc
}.

(** The events of the single-threaded event loop that touch the queue,
    while the app runs. The quit path is not among them: once the user
    confirms quitting, [forceQuit] is set and [cleanupPendingTasks] below
    empties the queue, after which [app.quit()] ends the process. *)
Inductive event :=
  | Start (p : PendingTask)   (** [download:start] ends in [enqueuePendingTask] *)
  | Exit (id : string)        (** a [close] listener runs [activeDownloads.delete(id)] *)
  | Kick                      (** a [void processQueue()] of a [close] listener *)
  | SetLimit (count : JSVal)  (** [settings:set-max-concurrent-downloads] *)
  | ResumeRead                (** [getMaxConcurrentDownloads] reads the settings *)
  | ResumeCheck               (** [processQueue] resumes after that [await] *)
  | SpawnOk                   (** [once(spawned, 'spawn')] resolves *)
  | SpawnFail.                (** [startPendingTask] throws *)

Section Drain.
Context `{StringToNumber}.

Definition with_active (a : gmap string PendingTask) (s : state) : state :=
  {| activeDownloads := a; pendingQueue := pendingQueue s;
     settings := settings s; drain := drain s |}.
Definition with_pending (q : list PendingTask) (s : state) : state :=
  {| activeDownloads := activeDownloads s; pendingQueue := q;
     settings := settings s; drain := drain s |}.
Definition with_settings (c : AppSettings) (s : state) : state :=
  {| activeDownloads := activeDownloads s; pendingQueue := pendingQueue s;
     settings := c; drain := drain s |}.
Definition with_drain (d : drain_pc) (s : state) : state :=
  {| activeDownloads := activeDownloads s; pendingQueue := pendingQueue s;
     settings := settings s; drain := d |}.

(** The head of the [while] loop: go on while entries are pending. *)
Definition loop_head (s : state) : drain_pc :=
  match pendingQueue s with [] => Idle | _ :: _ => AwaitCap end.

(** [void processQueue()]: returns at once while a drain is running. *)
Definition processQueue (s : state) : state :=
  match drain s with
  | Idle => with_drain (loop_head s) s
  | _ => s
  end.

Definition step (s : state) (e : event) : state :=
  match e with
  | Start p => processQueue (with_pending (pendingQueue s ++ [p]) s)
  | Exit id => with_active (delete id (activeDownloads s)) s
  | Kick => processQueue s
  | SetLimit count =>
      processQueue (with_settings (update_max_concurrent (settings s) count) s)
  | ResumeRead =>
      match drain s with
      | AwaitCap => with_drain (Check (getMaxConcurrentDownloads (settings s))) s
      | _ => s
      end
  | ResumeCheck =>
      match drain s with
      | Check maxConcurrent =>
          if Z.leb maxConcurrent (Z.of_nat (size (activeDownloads s)))
          then with_drain Idle s
          else
            match pendingQueue s with
            | [] => with_drain Idle s
            | next :: rest => with_drain (Spawning next) (with_pending rest s)
            end
      | _ => s
      end
  | SpawnOk =>
      match drain s with
      | Spawning p =>
          let s1 := with_active (<[pt_id p := p]> (activeDownloads s)) s in
          with_drain (loop_head s1) s1
      | _ => s
      end
  | SpawnFail =>
      match drain s with
      | Spawning _ => with_drain (loop_head s) s
      | _ => s
      end
  end.

(** Every state of a run, the initial one included. *)
Fixpoint trace (s : state) (evs : list event) : list state :=
  match evs with
  | [] => [s]
  | e :: es => s :: trace (step s e) es
  end.

Definition limit (s : state) : Z := getMaxConcurrentDownloads (settings s).

Definition within_limit (s : state) : Prop := (Z.of_nat (size (activeDownloads s)) <= limit s)%Z.

(** No event of the run lowers the configured limit. *)
Fixpoint limit_never_lowered (s : state) (evs : list event) : bool :=
  match evs with
  | [] => true
  | e :: es => (Z.leb (limit s) (limit (step s e)) && limit_never_lowered (step s e) es)%bool
  end.

Definition init (c : AppSettings) : state :=
  {| activeDownloads := ∅; pendingQueue := []; settings := c; drain := Idle |}.

(** The invariant of the drain: the bound holds, a limit read and not yet
    compared is at most the current one, and an admission in flight leaves
    room for one more process. *)
Definition drain_inv (s : state) : Prop :=
  within_limit s /\
  match drain s with
  | Check m => (m <= limit s)%Z
  | Spawning _ => (Z.of_nat (size (activeDownloads s)) + 1 <= limit s)%Z
  | _ => True
  end.

End Drain.

(** [cleanupPendingTasks] (run when the user confirms quitting): every
    active task is failed with the cancel reason and [activeDownloads] is
    cleared; then [pendingQueue.shift()] takes out every pending entry in
    turn and a [failed] event is broadcast for it. Returned: the state
    after it and the pending entries reported failed, in order. *)
Definition cleanupPendingTasks (s : state) : state * list PendingTask :=
  (with_pending [] (with_active ∅ s), pendingQueue s).

End Queue.

(* ------------------------------------------------------------------ *)
(** ** Predicates used by the statements                               *)
(* ------------------------------------------------------------------ *)

Fixpoint str_forallb (f : ascii -> bool) (s : string) : bool :=
  match s with
  | EmptyString => true
  | String c s' => (f c && str_forallb f s')%bool
  end.

Fixpoint underscores (n : nat) : string :=
  match n with O => EmptyString | S n' => String "_" (underscores n') end.

(** The candidate names [base], [base(1)], [base(2)], ... *)
Definition cand_base (baseName : string) (k : nat) : string :=
  match k with O => baseName | _ => suffixed baseName k end.

(** The [k]-th candidate of [ensureUniqueOutputPath]: template and path. *)
Definition unique_candidate (directory baseName ext : string) (k : nat) : string * string :=
  (NodePath.join directory (cand_base baseName k +:+ ".%(ext)s"),
   NodePath.join directory (cand_base baseName k +:+ ext)).

(** The [k]-th candidate path of [ensureFinalFilePath]. *)
Definition final_candidate (directory rawTitle ext : string) (k : nat) : string :=
  NodePath.join directory
    (cand_base (sanitizeFilename rawTitle) k +:+
     (if JS.starts_with "." ext then ext else "." +:+ ext)).

Definition stat_found {FS} `{FileSystem FS} (fs : FS) (p : string) : bool :=
  match fs_stat fs p with inl _ => true | inr _ => false end.

Definition stat_enoent {FS} `{FileSystem FS} (fs : FS) (p : string) : bool :=
  match fs_stat fs p with inr ENOENT => true | _ => false end.

Definition scenario_task : DownloadTask :=
  {| dt_id := "t1"; dt_url := "https://example.com/v"; dt_status := Queued;
     dt_outputFile := Some "/tmp/x.mp4"; dt_title := Some "x";
     dt_directory := Some "/tmp"; dt_downloadType := Some Video |}.

(** Reasoning about [IO] computations: no file-system exception escapes
    [m], and every value [m] returns satisfies [P]. *)
Section IOLogic.
Context {FS : Type} `{FileSystem FS}.

Definition no_fs_error {A} (m : IO A) : Prop :=
  forall (s : FS * list fs_op) e, snd (m s) <> Throw (FsError e).

Definition ret_sat {A} (P : A -> Prop) (m : IO A) : Prop :=
  forall (s s' : FS * list fs_op) a, m s = (s', Ret a) -> P a.

End IOLogic.

(** A [Number(string)] for runs whose settings hold numbers only: the
    string case of the clamp is never reached there. *)
Definition nan_strings : StringToNumber := fun _ => NaN.

Definition settings_with_limit (n : Z) : AppSettings :=
  {| downloadDir := None; maxConcurrentDownloads := JNumber (Fin (Dec n 0)) |}.

Definition pending (id : string) : Queue.PendingTask :=
  {| Queue.pt_id := id; Queue.pt_url := "https://example.com/" +:+ id |}.

(** Three downloads started and admitted one after the other. *)
Definition three_admitted : list Queue.event :=
  [Queue.Start (pending "a"); Queue.Start (pending "b"); Queue.Start (pending "c");
   Queue.ResumeRead; Queue.ResumeCheck; Queue.SpawnOk;
   Queue.ResumeRead; Queue.ResumeCheck; Queue.SpawnOk;
   Queue.ResumeRead; Queue.ResumeCheck; Queue.SpawnOk].

(** An audio download requested as m4a: the engine wrote [/d/abc.webm]
    (the reported destination) and extracted it to [/d/abc.m4a]; an older
    [/d/old.mp3] sits in the same directory. *)
Definition m4a_task : DownloadTask :=
  {| dt_id := "t2"; dt_url := "https://example.com/song"; dt_status := Completed;
     dt_outputFile := Some "/d/abc.webm"; dt_title := Some "Song";
     dt_directory := Some "/d"; dt_downloadType := Some Audio |}.

Definition m4a_fs : MemFS.t := [MemFS.file "/d/abc.m4a" 5; MemFS.file "/d/old.mp3" 1].

(** What [finalizeDownload] returns: the task keeps its id and status, and
    the path is the task's (possibly updated) output path, or [undefined]
    with the task untouched on the early return. *)
Definition finalize_post (task : DownloadTask) (res : option string * DownloadTask) : Prop :=
  dt_id (snd res) = dt_id task /\ dt_status (snd res) = dt_status task /\
  (fst res = dt_outputFile (snd res) \/ (fst res = None /\ snd res = task)).

Definition not_rename (o : fs_op) : bool :=
  match o with OpRename _ _ => false | _ => true end.

Section ReadOnly.
Context {FS : Type} `{FileSystem FS}.

(** [m] only reads the file system: the state is unchanged and the log only
    grows, by operations that are not renames. *)
Definition read_only {A} (m : IO A) : Prop :=
  forall (fs : FS) log fs' log' o, m (fs, log) = ((fs', log'), o) ->
    fs' = fs /\ exists ops, log' = (log ++ ops)%list /\ forallb not_rename ops = true.

(** Every rename [m] performs from the state [fs] targets a path whose stat
    in [fs] fails with [ENOENT] and that does not resolve to its source. *)
Definition renames_to_free {A} (fs : FS) (m : IO A) : Prop :=
  forall log fs' log' o, m (fs, log) = ((fs', log'), o) ->
    exists ops, log' = (log ++ ops)%list /\
      forall src dst, In (OpRename src dst) ops ->
        stat_enoent fs dst = true /\ path_resolve dst <> path_resolve src.

End ReadOnly.

(** The settings as [loadSettings] and [updateSettings] build them and the
    cache holds them: the limit is always a number, the result of
    [clampConcurrentDownloads] or the default 3, so an integer. *)
Record CachedSettings := {
  cs_downloadDir : option string;
  cs_maxConcurrentDownloads : Z
}.

(** The contents of [settings.json] as [loadSettings] sees them.
    [SettingsJson dir max] is a JSON object: [dir] is its [downloadDir] key
    ([None] when absent, else a string or [null]; a key of another type is
    not modelled) and [max] its [maxConcurrentDownloads] key ([JUndefined]
    when absent).  [UnreadableSettings] is any other content: a read error
    other than [ENOENT], text that is not JSON, or the JSON value [null]; a
    JSON value that is not an object reads as an object without keys. *)
Inductive SettingsFile :=
  | NoSettingsFile
  | UnreadableSettings
  | SettingsJson (dir : option (option string)) (max : JSVal).

(** The module state [settingsCache] and the file; [writable] tells whether
    [writeFile] on the settings path succeeds. *)
Record SettingsStore := {
  settingsCache : option CachedSettings;
  settingsFile : SettingsFile;
  writable : bool
}.

Definition with_cache (c : option CachedSettings) (st : SettingsStore) : SettingsStore :=
  {| settingsCache := c; settingsFile := settingsFile st; writable := writable st |}.

Definition with_file (f : SettingsFile) (st : SettingsStore) : SettingsStore :=
  {| settingsCache := settingsCache st; settingsFile := f; writable := writable st |}.

(** [DEFAULT_SETTINGS] *)
Definition DEFAULT_SETTINGS : CachedSettings :=
  {| cs_downloadDir := None; cs_maxConcurrentDownloads := default_maxConcurrentDownloads |}.

(** [Partial<AppSettings>]: [None] / [JUndefined] for a key left undefined. *)
Record PartialSettings := {
  ps_downloadDir : option (option string);
  ps_maxConcurrentDownloads : JSVal
}.

(** A promise that resolves with a value or rejects. *)
Inductive settled (A : Type) :=
  | Resolved (a : A)
  | Rejected.
Arguments Resolved {A} a.
Arguments Rejected {A}.

Section SettingsStoreOps.
Context `{StringToNumber}.

(** [loadSettings]: the cache if set; else the file, parsed, with the limit
    clamped when present and not [null]; else (no file, any error) a copy of
    the defaults.  It never rejects. *)
Definition loadSettings (st : SettingsStore) : SettingsStore * CachedSettings :=
  match settingsCache st with
  | Some c => (st, c)
  | None =>
      let c :=
        match settingsFile st with
        | SettingsJson dir max =>
            let maxConcurrent :=
              match max with
              | JUndefined | JNull => cs_maxConcurrentDownloads DEFAULT_SETTINGS
              | _ => clampConcurrentDownloads max
              end in
            {| cs_downloadDir :=
                 match dir with
                 | Some (Some d) => Some d
                 | _ => cs_downloadDir DEFAULT_SETTINGS
                 end;
               cs_maxConcurrentDownloads := maxConcurrent |}
        | _ => DEFAULT_SETTINGS
        end in
      (with_cache (Some c) st, c)
  end.

(** [JSON.stringify(settings)]: both keys are written, the limit as a
    number. *)
Definition settings_json (s : CachedSettings) : SettingsFile :=
  SettingsJson (Some (cs_downloadDir s)) (JNumber (Fin (Dec (cs_maxConcurrentDownloads s) 0))).

(** [persistSettings]: the cache is set before the write is awaited. *)
Definition persistSettings (s : CachedSettings) (st : SettingsStore)
  : SettingsStore * settled unit :=
  let st' := with_cache (Some s) st in
  if writable st then (with_file (settings_json s) st', Resolved tt)
  else (st', Rejected).

Definition updateSettings (partial : PartialSettings) (st : SettingsStore)
  : SettingsStore * settled CachedSettings :=
  let '(st1, current) := loadSettings st in
  let next :=
    {| cs_downloadDir :=
         match ps_downloadDir partial with
         | Some d => d
         | None => cs_downloadDir current
         end;
       cs_maxConcurrentDownloads :=
         match ps_maxConcurrentDownloads partial with
         | JUndefined => cs_maxConcurrentDownloads current
         | m => clampConcurrentDownloads m
         end |} in
  let '(st2, r) := persistSettings next st1 in
  (st2, match r with Resolved _ => Resolved next | Rejected => Rejected end).

(** [settings:get-download-dir] *)
Definition settings_get_download_dir (st : SettingsStore) : SettingsStore * option string :=
  let '(st', s) := loadSettings st in (st', cs_downloadDir s).

(** [settings:get-max-concurrent-downloads] *)
Definition settings_get_max (st : SettingsStore) : SettingsStore * Z :=
  let '(st', s) := loadSettings st in
  (st', clampConcurrentDownloads (JNumber (Fin (Dec (cs_maxConcurrentDownloads s) 0)))).

(** [settings:set-max-concurrent-downloads]; the [processQueue] it starts
    is not part of this model. *)
Definition settings_set_max (count : JSVal) (st : SettingsStore) : SettingsStore * settled Z :=
  let '(st', r) := updateSettings {| ps_downloadDir := None; ps_maxConcurrentDownloads := count |} st in
  (st', match r with Resolved next => Resolved (cs_maxConcurrentDownloads next) | Rejected => Rejected end).

(** [settings:set-download-dir]: [dir?.trim() ? path.resolve(dir) : null]. *)
Definition settings_set_download_dir (resolve : string -> string) (dir : option string)
    (st : SettingsStore) : SettingsStore * settled (option string) :=
  let sanitized :=
    match dir with
    | Some d => if String.eqb (JS.trim d) "" then None else Some (resolve d)
    | None => None
    end in
  let '(st', r) := updateSettings {| ps_downloadDir := Some sanitized;
                                     ps_maxConcurrentDownloads := JUndefined |} st in
  (st', match r with Resolved next => Resolved (cs_downloadDir next) | Rejected => Rejected end).

End SettingsStoreOps.

(** A restart of the app: the module state is lost, the file stays. *)
Definition restart (st : SettingsStore) : SettingsStore := with_cache None st.

(** The head the stable descending sort ends with: the first entry of
    largest modification time. *)
Fixpoint first_max (cur : string * Z) (l : list (string * Z)) : string * Z :=
  match l with
  | [] => cur
  | x :: l' => first_max (if Z.ltb (snd cur) (snd x) then x else cur) l'
  end.

(** [YtDlpFormat] as [yt-dlp -J] reports it.  Heights, widths and sizes are
    the integers yt-dlp writes; [fps] is only copied. *)
Record YtDlpFormat := {
  yf_format_id : option string;
  yf_ext : option string;
  yf_resolution : option string;
  yf_height : option Z;
  yf_width : option Z;
  yf_fps : option JSNum;
  yf_vcodec : option string;
  yf_acodec : option string;
  yf_filesize : option Z;
  yf_filesize_approx : option Z;
  yf_format_note : option string
}.

Record VideoFormat := {
  vf_format_id : string;
  vf_ext : string;
  vf_resolution : option string;
  vf_height : option Z;
  vf_width : option Z;
  vf_fps : option JSNum;
  vf_vcodec : option string;
  vf_acodec : option string;
  vf_filesize : option Z;
  vf_format_note : option string
}.

(** Truthiness of an optional string and of an optional number. *)
Definition str_truthy (s : option string) : bool :=
  match s with Some x => negb (String.eqb x "") | None => false end.

Definition num_truthy (n : option Z) : bool :=
  match n with Some x => negb (Z.eqb x 0) | None => false end.

(** The filter of [normalizeFormats]; an entry of the array that is [null]
    is [None]. *)
Definition format_is_valid (f : option YtDlpFormat) : bool :=
  match f with
  | Some f =>
      str_truthy (yf_format_id f) &&
      str_truthy (yf_vcodec f) &&
      negb (match yf_vcodec f with Some v => String.eqb v "none" | None => false end) &&
      num_truthy (yf_height f) &&
      match yf_height f with Some h => Z.ltb 0 h | None => false end
  | None => false
  end.

Section NormalizeFormats.
(** [Math.round(x * 1.3)] in floating point, left abstract. *)
Variable round_times_1_3 : Z -> Z.

(** The [.map] callback of [normalizeFormats]. *)
Definition to_video_format (f : YtDlpFormat) : VideoFormat :=
  let estimatedSize := yf_filesize f in
  let estimatedSize :=
    if (num_truthy (yf_filesize_approx f) &&
        (negb (num_truthy estimatedSize) ||
         match yf_filesize_approx f, estimatedSize with
         | Some a, Some e => Z.ltb e a
         | _, _ => false
         end))%bool
    then yf_filesize_approx f else estimatedSize in
  let estimatedSize :=
    if (str_truthy (yf_vcodec f) &&
        negb (match yf_vcodec f with Some v => String.eqb v "none" | None => false end) &&
        (negb (str_truthy (yf_acodec f)) ||
         match yf_acodec f with Some a => String.eqb a "none" | None => false end))%bool
    then (if num_truthy estimatedSize
          then match estimatedSize with Some e => Some (round_times_1_3 e) | None => None end
          else estimatedSize)
    else estimatedSize in
  {| vf_format_id := match yf_format_id f with Some i => i | None => "" end;
     vf_ext := match yf_ext f with Some e => if String.eqb e "" then "mp4" else e | None => "mp4" end;
     vf_resolution :=
       if str_truthy (yf_resolution f) then yf_resolution f
       else match yf_width f, yf_height f with
            | Some w, Some h =>
                if (num_truthy (Some w) && num_truthy (Some h))%bool
                then Some (pretty w +:+ "x" +:+ pretty h) else None
            | _, _ => None
            end;
     vf_height := yf_height f;
     vf_width := yf_width f;
     vf_fps := yf_fps f;
     vf_vcodec := yf_vcodec f;
     vf_acodec := yf_acodec f;
     vf_filesize := estimatedSize;
     vf_format_note := yf_format_note f |}.

(** [validFormats] before the sort: the valid entries, mapped. *)
Definition validFormats (rawFormats : list (option YtDlpFormat)) : list VideoFormat :=
  omap (fun f => match f with
                 | Some f => if format_is_valid (Some f) then Some (to_video_format f) else None
                 | None => None
                 end) rawFormats.

End NormalizeFormats.

(** [(f.height || 0)] *)
Definition height_or_0 (f : VideoFormat) : Z :=
  match vf_height f with Some h => h | None => 0 end.

(** [validFormats.sort((a, b) => (b.height || 0) - (a.height || 0))]: the
    stable sort by decreasing height (an entry goes after the equal ones). *)
Fixpoint insert_by_height (x : VideoFormat) (l : list VideoFormat) : list VideoFormat :=
  match l with
  | [] => [x]
  | y :: l' => if Z.ltb (height_or_0 y) (height_or_0 x) then x :: l else y :: insert_by_height x l'
  end.

Definition sort_by_height_desc (l : list VideoFormat) : list VideoFormat :=
  fold_left (fun acc x => insert_by_height x acc) l [].

(** The [.filter] with the [seen] set of heights. *)
Fixpoint dedupe_heights (seen : list Z) (l : list VideoFormat) : list VideoFormat :=
  match l with
  | [] => []
  | f :: l' =>
      match vf_height f with
      | Some h =>
          if (negb (Z.eqb h 0) && negb (existsb (Z.eqb h) seen))%bool
          then f :: dedupe_heights (h :: seen) l'
          else dedupe_heights seen l'
      | None => dedupe_heights seen l'
      end
  end.

(** [normalizeFormats]; [None] is [undefined], for the argument as for the
    result. *)
Definition normalizeFormats (round_times_1_3 : Z -> Z)
    (rawFormats : option (list (option YtDlpFormat))) : option (list VideoFormat) :=
  match rawFormats with
  | None => None
  | Some raw =>
      let deduped := dedupe_heights [] (sort_by_height_desc (validFormats round_times_1_3 raw)) in
      match deduped with [] => None | _ => Some deduped end
  end.

(** [deriveFilesize(info, formats)], with [info.filesize] and
    [info.filesize_approx]. *)
Definition deriveFilesize (info_filesize info_filesize_approx : option Z)
    (formats : option (list VideoFormat)) : option Z :=
  let bestFilesize := match info_filesize with Some s => Some s | None => info_filesize_approx end in
  match formats with
  | Some ((_ :: _) as l) =>
      match find (fun f => num_truthy (vf_filesize f)) l with
      | Some f => if num_truthy (vf_filesize f) then vf_filesize f else bestFilesize
      | None => bestFilesize
      end
  | _ => bestFilesize
  end.


Definition height_le (a b : VideoFormat) : Prop := (height_or_0 b <= height_or_0 a)%Z.
Definition height_gt (a b : VideoFormat) : Prop := (height_or_0 b < height_or_0 a)%Z.
Definition has_height (v : VideoFormat) : Prop :=
  exists h, vf_height v = Some h /\ (0 < h)%Z.
Definition same_height (v g : VideoFormat) : bool := Z.eqb (height_or_0 g) (height_or_0 v).

Module QueueRun.
Import Queue.
Section Run.
Context `{StringToNumber}.

(** The state after a run. *)
Fixpoint run (s : state) (evs : list event) : state :=
  match evs with
  | [] => s
  | e :: es => run (step s e) es
  end.

(** The entry [pendingQueue.shift()] takes out of the queue on this event. *)
Definition taken (s : state) (e : event) : list PendingTask :=
  match e, drain s with
  | ResumeCheck, Check maxConcurrent =>
      if Z.leb maxConcurrent (Z.of_nat (size (activeDownloads s))) then []
      else match pendingQueue s with [] => [] | next :: _ => [next] end
  | _, _ => []
  end.

(** The entries taken out of the queue during a run, in order. *)
Fixpoint admissions (s : state) (evs : list event) : list PendingTask :=
  match evs with
  | [] => []
  | e :: es => (taken s e ++ admissions (step s e) es)%list
  end.

(** The entries the run's [download:start] events enqueue, in order. *)
Fixpoint started (evs : list event) : list PendingTask :=
  match evs with
  | [] => []
  | Start p :: es => p :: started es
  | _ :: es => started es
  end.

End Run.
End QueueRun.

Definition event_id (e : DownloadEvent) : string :=
  match e with
  | EvProgress p => pp_id p
  | EvFailed id _ => id
  | EvCompleted p => cp_id p
  end.

(** What the line handler keeps of a task: identity, source, target
    directory and media kind, a title once it is set, and a status that is
    either kept or one of those the handler sets. *)
Definition line_step_ok (task t' : DownloadTask) : Prop :=
  dt_id t' = dt_id task /\ dt_url t' = dt_url task /\
  dt_directory t' = dt_directory task /\ dt_downloadType t' = dt_downloadType task /\
  (falsy (dt_title task) = false -> dt_title t' = dt_title task) /\
  (dt_status t' = dt_status task \/ dt_status t' = Downloading \/
   dt_status t' = Processing \/ dt_status t' = Failed).

(** A code-unit list that does not start with white space. *)
Definition head_not_space (u : list Z) : Prop :=
  forall x b, u = x :: b -> Unicode.is_space x = false.

(** No two adjacent code units are both white space. *)
Definition no_adjacent_space (u : list Z) : Prop :=
  forall (a : list Z) x y b, u = (a ++ x :: y :: b)%list ->
  Unicode.is_space x = false \/ Unicode.is_space y = false.

(** The properties of a sanitised name that every contiguous part of it
    keeps. *)
Definition infix_ok (v : list Z) : Prop :=
  Forall (fun c => is_illegal c = false) v /\
  Forall (fun c => Unicode.is_space c = true -> c = 32%Z) v /\
  Forall Unicode.unit_range v /\
  no_adjacent_space v.

Definition no_slash (s : string) : bool :=
  str_forallb (fun c => negb (JS.ascii_eqb c "/")) s.

(** What the [download:open] handler asks of [shell]. *)
Inductive ShellAction :=
  | ShowItemInFolder (p : string)
  | OpenPath (p : string).

Section Handlers.
Context {FS : Type} `{FileSystem FS}.

(** The [download:open] handler; [settingsDownloadDir] is
    [(await loadSettings()).downloadDir], read only on the fallback. *)
Definition download_open (settingsDownloadDir : option string)
    (filePath directory : option string) : IO (option ShellAction) :=
  let fallback :=
    let dir := match directory with Some d => Some d | None => settingsDownloadDir end in
    io_ret (match dir with
            | Some d => if String.eqb d "" then None else Some (OpenPath d)
            | None => None
            end) in
  match filePath with
  | Some fp =>
      if String.eqb fp "" then fallback else
      let! r := io_try (io_stat fp) in
      match r with
      | inl _ => io_ret (Some (ShowItemInFolder fp))
      | inr _ =>
          let folder := NodePath.dirname fp in
          if String.eqb folder "" then fallback else io_ret (Some (OpenPath folder))
      end
  | None => fallback
  end.

(** [payload.downloadType === 'audio' ? 'audio' : 'video'] *)
Definition payload_download_type (downloadType : option string) : DownloadType :=
  match downloadType with
  | Some d => if String.eqb d "audio" then Audio else Video
  | None => Video
  end.

(** [expectedExt] of [download:start]. *)
Definition expected_ext (downloadType : DownloadType) (audioFormat : option string) : string :=
  match downloadType with
  | Audio =>
      match audioFormat with
      | Some f => if String.eqb f "m4a" then ".m4a" else ".mp3"
      | None => ".mp3"
      end
  | Video => ".mp4"
  end.

(** The output path and initial title of [download:start]: the
    [finalPath] (template and absolute path) and [initialTitle] given to
    the pending task.  [path.join] in the forced branch is [NodePath.join],
    whose normalisation assumes a directory other than the root. *)
Definition start_output_path (fuel : nat) (now : Z) (deriveTitleFromUrl : string -> string)
    (url downloadDir : string) (downloadType audioFormat : option string) (force : bool)
    (existingFilePath existingTitle title : option string)
  : IO ((string * string) * string) :=
  let initialTitle :=
    match title with
    | Some t => t
    | None => match existingTitle with Some t => t | None => deriveTitleFromUrl url end
    end in
  let expectedExt := expected_ext (payload_download_type downloadType) audioFormat in
  let forcedPath :=
    if force then
      match existingFilePath with
      | Some efp => if String.eqb efp "" then None else Some efp
      | None => None
      end
    else None in
  match forcedPath with
  | Some efp =>
      let ext := let e := NodePath.extname efp in if String.eqb e "" then expectedExt else e in
      let base := NodePath.basename efp ext in
      let initialTitle' :=
        match title with
        | Some t => t
        | None => match existingTitle with Some t => t | None => base end
        end in
      io_ret ((NodePath.join (NodePath.dirname efp) (base +:+ ".%(ext)s"), efp), initialTitle')
  | None =>
      let! finalPath := ensureUniqueOutputPath fuel now downloadDir (Some initialTitle) force expectedExt in
      io_ret (finalPath, NodePath.basename (snd finalPath) expectedExt)
  end.

End Handlers.

(** [YtDlpThumbnail] *)
Record YtDlpThumbnail := { yt_url : option string }.

(** [selectThumbnail(info)], on [info.thumbnail] and [info.thumbnails]. *)
Definition selectThumbnail (thumbnail : option string)
    (thumbnails : option (list YtDlpThumbnail)) : option string :=
  match thumbnail with
  | Some t => Some t
  | None =>
      let l := match thumbnails with Some l => l | None => [] end in
      match find (fun item => str_truthy (yt_url item)) (rev l) with
      | Some item => yt_url item
      | None => None
      end
  end.

(* ================================================================== *)
(** * Properties                                                        *)
(* ================================================================== *)

(** ** The concurrency clamp *)

Lemma Math_round_nearest (d : dec) :
  let D := (10 ^ Z.of_nat (scale d))%Z in
  (2 * Math_round d * D - D <= 2 * mant d < 2 * Math_round d * D + D)%Z.
Proof.
  cbn zeta. unfold Math_round.
  set (D := (10 ^ Z.of_nat (scale d))%Z).
  assert (HD : (0 < D)%Z) by (apply Z.pow_pos_nonneg; lia).
  pose proof (Z.div_mod (2 * mant d + D) (2 * D) ltac:(lia)) as Hdm.
  pose proof (Z.mod_pos_bound (2 * mant d + D) (2 * D) ltac:(lia)) as Hb.
  lia.
Qed.

(** C9: [clampConcurrentDownloads] gives the default 3 when [Number(input)]
    is not finite, and otherwise the input rounded to the nearest integer
    (halves upwards) clamped into [1, 10]; both reads of the limit, the drain
    loop's [getMaxConcurrentDownloads] and the settings getter, go through
    it, so the limit they see is an integer in [1, 10]. *)
Theorem clampConcurrentDownloads_spec `{StringToNumber} (input : JSVal) :
  match Number input with
  | Fin d =>
      let D := (10 ^ Z.of_nat (scale d))%Z in
      exists r : Z,
        clampConcurrentDownloads input = Z.min (Z.max r 1) 10 /\
        (2 * r * D - D <= 2 * mant d < 2 * r * D + D)%Z
  | _ => clampConcurrentDownloads input = 3%Z
  end /\
  (1 <= clampConcurrentDownloads input <= 10)%Z /\
  (forall settings : AppSettings,
     getMaxConcurrentDownloads settings =
       clampConcurrentDownloads (maxConcurrentDownloads settings) /\
     settings_get_max_concurrent_downloads settings =
       clampConcurrentDownloads (maxConcurrentDownloads settings) /\
     (1 <= getMaxConcurrentDownloads settings <= 10)%Z).
Proof.
  assert (Hrange : forall v, (1 <= clampConcurrentDownloads v <= 10)%Z).
  { intros v. unfold clampConcurrentDownloads, default_maxConcurrentDownloads.
    destruct (Number v); lia. }
  split; [|split; [apply Hrange|]].
  - unfold clampConcurrentDownloads.
    destruct (Number input) as [| | |d]; try reflexivity.
    exists (Math_round d). split; [reflexivity|]. apply Math_round_nearest.
  - intros settings. repeat split; try apply Hrange.
Qed.

(** ** Sanitisation *)

Ltac zlia := Z.div_mod_to_equations; lia.

Ltac zfacts :=
  repeat match goal with
  | |- context [Z.ltb ?a ?b] =>
      first [rewrite (proj2 (Z.ltb_lt a b)) by lia | rewrite (proj2 (Z.ltb_ge a b)) by lia]
  | |- context [Z.leb ?a ?b] =>
      first [rewrite (proj2 (Z.leb_le a b)) by lia | rewrite (proj2 (Z.leb_gt a b)) by lia]
  end; cbn [andb].

Section Utf8Proofs.
Local Open Scope Z_scope.

Lemma dec_1 (b : Z) (l : list Z) :
  0 <= b < 128 -> Unicode.utf8_decode (b :: l) = b :: Unicode.utf8_decode l.
Proof. intros Hb. cbn [Unicode.utf8_decode]. zfacts. reflexivity. Qed.

Lemma dec_2 (b1 b2 : Z) (l : list Z) :
  192 <= b1 < 224 -> 128 <= b2 < 192 ->
  Unicode.utf8_decode (b1 :: b2 :: l) = ((b1 - 192) * 64 + (b2 - 128)) :: Unicode.utf8_decode l.
Proof.
  intros H1 H2. unfold Unicode.utf8_decode at 1. fold Unicode.utf8_decode. unfold Unicode.is_cont.
  zfacts. reflexivity.
Qed.

Lemma dec_3 (b1 b2 b3 : Z) (l : list Z) :
  224 <= b1 < 240 -> 128 <= b2 < 192 -> 128 <= b3 < 192 ->
  Unicode.utf8_decode (b1 :: b2 :: b3 :: l) =
  ((b1 - 224) * 4096 + (b2 - 128) * 64 + (b3 - 128)) :: Unicode.utf8_decode l.
Proof.
  intros H1 H2 H3. unfold Unicode.utf8_decode at 1. fold Unicode.utf8_decode. unfold Unicode.is_cont.
  zfacts. reflexivity.
Qed.

Lemma dec_4 (b1 b2 b3 b4 : Z) (l : list Z) :
  240 <= b1 < 248 -> 128 <= b2 < 192 -> 128 <= b3 < 192 -> 128 <= b4 < 192 ->
  let cp := (b1 - 240) * 262144 + (b2 - 128) * 4096 + (b3 - 128) * 64 + (b4 - 128) in
  65536 <= cp <= 1114111 ->
  Unicode.utf8_decode (b1 :: b2 :: b3 :: b4 :: l) =
  (55296 + (cp - 65536) / 1024) :: (56320 + (cp - 65536) mod 1024) :: Unicode.utf8_decode l.
Proof.
  intros H1 H2 H3 H4 cp Hcp. unfold Unicode.utf8_decode at 1. fold Unicode.utf8_decode.
  unfold Unicode.is_cont. fold cp.
  rewrite (proj2 (Z.ltb_ge b1 128)), (proj2 (Z.leb_le 192 b1)), (proj2 (Z.ltb_ge b1 224)),
    (proj2 (Z.leb_le 224 b1)), (proj2 (Z.ltb_ge b1 240)),
    (proj2 (Z.leb_le 240 b1)), (proj2 (Z.ltb_lt b1 248)), (proj2 (Z.leb_le 128 b2)),
    (proj2 (Z.ltb_lt b2 192)), (proj2 (Z.leb_le 128 b3)), (proj2 (Z.ltb_lt b3 192)),
    (proj2 (Z.leb_le 128 b4)), (proj2 (Z.ltb_lt b4 192)), (proj2 (Z.leb_le 65536 cp)),
    (proj2 (Z.leb_le cp 1114111)) by lia.
  reflexivity.
Qed.

Lemma utf8_decode_encode_n (n : nat) :
  forall u, (length u < n)%nat -> Forall Unicode.unit_range u ->
  Unicode.utf8_decode (Unicode.utf8_encode u) = u.
Proof.
  induction n as [|n IH]; intros u Hlen Hu; [cbn in Hlen; lia|].
  destruct u as [|c u1]; [reflexivity|].
  apply Forall_cons in Hu as [Hc Hu1]. unfold Unicode.unit_range in Hc.
  cbn [length] in Hlen.
  cbn [Unicode.utf8_encode]. unfold Unicode.is_high, Unicode.is_low.
  destruct (Z.ltb_spec c 128).
  { rewrite dec_1 by lia. rewrite IH by (lia || exact Hu1). reflexivity. }
  destruct (Z.ltb_spec c 2048).
  { rewrite dec_2 by zlia. rewrite IH by (lia || exact Hu1). f_equal. zlia. }
  assert (H3 : forall v, Unicode.utf8_decode (Unicode.enc3 c ++ v) = c :: Unicode.utf8_decode v).
  { intros v. unfold Unicode.enc3. cbn [app]. rewrite dec_3 by zlia. f_equal. zlia. }
  destruct (Z.leb_spec 55296 c); destruct (Z.ltb_spec c 56320); cbn [andb].
  - destruct u1 as [|d u2].
    + rewrite <- (app_nil_r (Unicode.enc3 c)), H3. reflexivity.
    + apply Forall_cons in Hu1 as [Hd Hu2]. unfold Unicode.unit_range in Hd.
      cbn [length] in Hlen.
      destruct ((56320 <=? d) && (d <? 57344))%bool eqn:El;
        [|rewrite H3, IH by (first [cbn [length]; lia | constructor; [exact Hd|exact Hu2]]); reflexivity].
      apply andb_prop in El as [El1 El2]. apply Z.leb_le in El1. apply Z.ltb_lt in El2.
      unfold Unicode.enc4. cbn [app].
      set (cp := 65536 + (c - 55296) * 1024 + (d - 56320)).
      assert (Hcp : 65536 <= cp <= 1114111) by (subst cp; lia).
      rewrite dec_4 by zlia.
      assert (E : (240 + cp / 262144 - 240) * 262144 + (128 + (cp / 4096) mod 64 - 128) * 4096 +
                  (128 + (cp / 64) mod 64 - 128) * 64 + (128 + cp mod 64 - 128) = cp) by zlia.
      cbv zeta. rewrite E, IH by (lia || exact Hu2).
      assert (E1 : 55296 + (cp - 65536) / 1024 = c) by (subst cp; zlia).
      assert (E2 : 56320 + (cp - 65536) mod 1024 = d) by (subst cp; zlia).
      rewrite E1, E2. reflexivity.
  - rewrite H3, IH by (lia || exact Hu1). reflexivity.
  - rewrite H3, IH by (lia || exact Hu1). reflexivity.
  - lia.
Qed.

Lemma utf8_decode_encode (u : list Z) :
  Forall Unicode.unit_range u -> Unicode.utf8_decode (Unicode.utf8_encode u) = u.
Proof. apply (utf8_decode_encode_n (S (length u))). lia. Qed.

Lemma bytes_of_string_of_bytes (l : list Z) :
  Forall (fun b => 0 <= b < 256) l -> Unicode.bytes_of_string (Unicode.string_of_bytes l) = l.
Proof.
  induction l as [|b l IH]; intros Hl; [reflexivity|].
  apply Forall_cons in Hl as [Hb Hl]. cbn. rewrite IH by exact Hl. f_equal.
  rewrite nat_ascii_embedding by lia. lia.
Qed.

Lemma utf8_encode_bytes_P (P : Z -> Prop) (u : list Z) :
  Forall (fun c => Unicode.unit_range c /\ (c < 128 -> P c)) u ->
  Forall (fun b => 0 <= b < 256 /\ (b < 128 -> P b)) (Unicode.utf8_encode u).
Proof.
  intros Hu. remember (length u) as n eqn:En. revert u Hu En.
  induction (lt_wf n) as [n _ IH]; intros u Hu En; subst n.
  destruct u as [|c u1]; [constructor|].
  apply Forall_cons in Hu as [[Hc HPc] Hu1]. unfold Unicode.unit_range in Hc.
  assert (H3 : forall v, Forall (fun b => 0 <= b < 256 /\ (b < 128 -> P b)) v ->
                Forall (fun b => 0 <= b < 256 /\ (b < 128 -> P b)) (Unicode.enc3 c ++ v)).
  { intros v Hv. unfold Unicode.enc3. cbn [app].
    do 3 (constructor; [split; [zlia|intros; exfalso; zlia]|]); exact Hv. }
  cbn [Unicode.utf8_encode].
  destruct (Z.ltb_spec c 128).
  { constructor; [split; [lia|exact HPc]|].
    apply (IH (length u1)); [cbn; lia|exact Hu1|reflexivity]. }
  destruct (Z.ltb_spec c 2048).
  { do 2 (constructor; [split; [zlia|intros; exfalso; zlia]|]).
    apply (IH (length u1)); [cbn; lia|exact Hu1|reflexivity]. }
  destruct (Unicode.is_high c) eqn:Eh.
  - destruct u1 as [|d u2]; [apply (H3 []); constructor|].
    apply Forall_cons in Hu1 as [[Hd HPd] Hu2]. unfold Unicode.unit_range in Hd.
    destruct (Unicode.is_low d) eqn:El.
    + unfold Unicode.is_high, Unicode.is_low in *.
      apply andb_prop in Eh as [Eh1 Eh2]. apply Z.leb_le in Eh1. apply Z.ltb_lt in Eh2.
      apply andb_prop in El as [El1 El2]. apply Z.leb_le in El1. apply Z.ltb_lt in El2.
      unfold Unicode.enc4. cbn [app].
      do 4 (constructor; [split; [zlia|intros; exfalso; zlia]|]).
      apply (IH (length u2)); [cbn; lia|exact Hu2|reflexivity].
    + apply H3. apply (IH (length (d :: u2))); [cbn; lia| |reflexivity].
      constructor; [split; [exact Hd|exact HPd]|exact Hu2].
  - apply H3. apply (IH (length u1)); [cbn; lia|exact Hu1|reflexivity].
Qed.

Lemma utf8_encode_bytes (u : list Z) :
  Forall Unicode.unit_range u -> Forall (fun b => 0 <= b < 256) (Unicode.utf8_encode u).
Proof.
  intros Hu. eapply Forall_impl; [apply (utf8_encode_bytes_P (fun _ => True))|].
  - eapply Forall_impl; [exact Hu|]. intros c Hc. split; [exact Hc|intros _; exact I].
  - intros b [Hb _]. exact Hb.
Qed.

Lemma decode_encode (u : list Z) :
  Forall Unicode.unit_range u -> Unicode.decode (Unicode.encode u) = u.
Proof.
  intros Hu. unfold Unicode.decode, Unicode.encode.
  rewrite bytes_of_string_of_bytes by (apply utf8_encode_bytes, Hu).
  apply utf8_decode_encode, Hu.
Qed.

Lemma bytes_of_string_range (s : string) :
  Forall (fun b => 0 <= b < 256) (Unicode.bytes_of_string s).
Proof.
  induction s as [|a s IH]; constructor; [|exact IH].
  pose proof (nat_ascii_bounded a). lia.
Qed.

Lemma utf8_decode_range (l : list Z) :
  Forall (fun b => 0 <= b < 256) l -> Forall Unicode.unit_range (Unicode.utf8_decode l).
Proof.
  intros Hl. remember (length l) as n eqn:En. revert l Hl En.
  induction (lt_wf n) as [n _ IH]; intros l Hl En; subst n.
  destruct l as [|b1 l1]; [constructor|].
  apply Forall_cons in Hl as [Hb1 Hl1].
  assert (IH1 : forall l', (length l' < length (b1 :: l1))%nat ->
                Forall (fun b => 0 <= b < 256) l' -> Forall Unicode.unit_range (Unicode.utf8_decode l')).
  { intros l' Hlt Hl'. exact (IH _ Hlt l' Hl' eq_refl). }
  assert (Hrest : Forall Unicode.unit_range (Unicode.utf8_decode l1))
    by (apply IH1; [cbn; lia|exact Hl1]).
  assert (Hbad : Forall Unicode.unit_range (65533 :: Unicode.utf8_decode l1))
    by (constructor; [unfold Unicode.unit_range; lia|exact Hrest]).
  unfold Unicode.utf8_decode at 1. fold Unicode.utf8_decode. unfold Unicode.is_cont.
  destruct (Z.ltb_spec b1 128).
  { constructor; [unfold Unicode.unit_range; lia|exact Hrest]. }
  destruct ((192 <=? b1) && (b1 <? 224))%bool eqn:E2.
  { apply andb_prop in E2 as [E2a E2b]. apply Z.leb_le in E2a. apply Z.ltb_lt in E2b.
    destruct l1 as [|b2 l2]; [repeat constructor; unfold Unicode.unit_range; lia|].
    apply Forall_cons in Hl1 as [Hb2 Hl2].
    destruct ((128 <=? b2) && (b2 <? 192))%bool eqn:C2; [|exact Hbad].
    apply andb_prop in C2 as [C2a C2b]. apply Z.leb_le in C2a. apply Z.ltb_lt in C2b.
    constructor; [unfold Unicode.unit_range; lia|]. apply IH1; [cbn; lia|exact Hl2]. }
  destruct ((224 <=? b1) && (b1 <? 240))%bool eqn:E3.
  { apply andb_prop in E3 as [E3a E3b]. apply Z.leb_le in E3a. apply Z.ltb_lt in E3b.
    destruct l1 as [|b2 [|b3 l3]]; try exact Hbad.
    apply Forall_cons in Hl1 as [Hb2 Hl1]. apply Forall_cons in Hl1 as [Hb3 Hl3].
    destruct ((128 <=? b2) && (b2 <? 192) && ((128 <=? b3) && (b3 <? 192)))%bool eqn:C;
      [|exact Hbad].
    repeat match goal with H : (_ && _)%bool = true |- _ => apply andb_prop in H as [? ?] end.
    repeat match goal with H : (_ <=? _) = true |- _ => apply Z.leb_le in H
                         | H : (_ <? _) = true |- _ => apply Z.ltb_lt in H end.
    constructor; [unfold Unicode.unit_range; lia|]. apply IH1; [cbn; lia|exact Hl3]. }
  destruct ((240 <=? b1) && (b1 <? 248))%bool eqn:E4; [|exact Hbad].
  destruct l1 as [|b2 [|b3 [|b4 l4]]]; try exact Hbad.
  apply Forall_cons in Hl1 as [Hb2 Hl1]. apply Forall_cons in Hl1 as [Hb3 Hl1].
  apply Forall_cons in Hl1 as [Hb4 Hl4].
  match goal with |- Forall _ (if ?c then _ else _) => destruct c eqn:C end; [|exact Hbad].
  repeat match goal with H : (_ && _)%bool = true |- _ => apply andb_prop in H as [? ?] end.
  repeat match goal with H : (_ <=? _) = true |- _ => apply Z.leb_le in H
                       | H : (_ <? _) = true |- _ => apply Z.ltb_lt in H end.
  repeat constructor; unfold Unicode.unit_range; try zlia.
  apply IH1; [cbn; lia|exact Hl4].
Qed.

Lemma decode_range (s : string) : Forall Unicode.unit_range (Unicode.decode s).
Proof. apply utf8_decode_range, bytes_of_string_range. Qed.


(** *** The code-unit pipeline of [sanitizeFilename] *)

Lemma drop_while_suffix (f : Z -> bool) (u : list Z) :
  exists p, u = (p ++ Unicode.drop_while f u)%list.
Proof.
  induction u as [|c u [p Hp]]; [exists []; reflexivity|]. cbn [Unicode.drop_while].
  destruct (f c); [exists (c :: p); cbn; f_equal; exact Hp|exists []; reflexivity].
Qed.

Lemma drop_while_head (u : list Z) : head_not_space (Unicode.drop_while Unicode.is_space u).
Proof.
  induction u as [|c u IH]; cbn [Unicode.drop_while]; [intros x b H; discriminate|].
  destruct (Unicode.is_space c) eqn:E; [exact IH|]. intros x b H. injection H as -> _. exact E.
Qed.

Lemma no_adjacent_suffix (p v : list Z) : no_adjacent_space (p ++ v) -> no_adjacent_space v.
Proof. intros H a x y b ->. apply (H (p ++ a)%list x y b). rewrite <- app_assoc. reflexivity. Qed.

Lemma no_adjacent_prefix (v q : list Z) : no_adjacent_space (v ++ q) -> no_adjacent_space v.
Proof. intros H a x y b ->. apply (H a x y (b ++ q)%list). rewrite <- app_assoc. reflexivity. Qed.

Lemma no_adjacent_rev (u : list Z) : no_adjacent_space u -> no_adjacent_space (List.rev u).
Proof.
  intros H a x y b E. apply (f_equal (@List.rev Z)) in E.
  rewrite rev_involutive in E. rewrite rev_app_distr in E. cbn [List.rev] in E.
  rewrite <- !app_assoc in E. cbn [app] in E.
  destruct (H (List.rev b) y x (List.rev a) E); [right|left]; assumption.
Qed.

Lemma no_adjacent_cons (x : Z) (r : list Z) :
  no_adjacent_space r -> (Unicode.is_space x = true -> head_not_space r) ->
  no_adjacent_space (x :: r).
Proof.
  intros Hr Hx [|z a] x' y b E; cbn [app] in E; injection E as E1 E2.
  - subst x'. destruct (Unicode.is_space x) eqn:Ex; [|left; reflexivity].
    right. exact (Hx eq_refl y b E2).
  - exact (Hr a x' y b E2).
Qed.

Lemma no_space_no_adjacent (u : list Z) :
  Forall (fun c => Unicode.is_space c = false) u -> no_adjacent_space u.
Proof.
  intros Hu a x y b ->. apply Forall_app in Hu as [_ Hu].
  apply Forall_cons in Hu as [Hx _]. left. exact Hx.
Qed.

Lemma is_illegal_not_space (c : Z) : is_illegal c = true -> Unicode.is_space c = false.
Proof.
  unfold is_illegal. cbn [existsb].
  intros H. repeat (apply orb_prop in H as [H|H]; [apply Z.eqb_eq in H; subst c; reflexivity|]).
  discriminate H.
Qed.

Lemma collapse_go_shape (u : list Z) :
  Forall (fun c => is_illegal c = false) u -> Forall Unicode.unit_range u ->
  forall in_run,
  let v := collapse_go in_run u in
  Forall (fun c => is_illegal c = false) v /\
  Forall (fun c => Unicode.is_space c = true -> c = 32) v /\
  Forall Unicode.unit_range v /\
  no_adjacent_space v /\
  (in_run = true -> head_not_space v).
Proof.
  induction u as [|c u IH]; intros Hl Hr in_run; cbn zeta.
  { cbn. split; [constructor|split; [constructor|split; [constructor|split]]].
    - intros [|z a] x y b E; discriminate.
    - intros _ x b E; discriminate. }
  apply Forall_cons in Hl as [Hc Hl]. apply Forall_cons in Hr as [Hcr Hr].
  specialize (IH Hl Hr). cbn [collapse_go].
  destruct (Unicode.is_space c) eqn:Esp.
  - destruct (IH true) as [A [B [C [D E]]]]. specialize (E eq_refl).
    destruct in_run.
    + repeat split; try assumption. intros _; exact E.
    + repeat split.
      * constructor; [reflexivity|exact A].
      * constructor; [intros _; reflexivity|exact B].
      * constructor; [unfold Unicode.unit_range; lia|exact C].
      * apply no_adjacent_cons; [exact D|intros _; exact E].
      * discriminate.
  - destruct (IH false) as [A [B [C [D _]]]].
    repeat split.
    + constructor; [exact Hc|exact A].
    + constructor; [intros H; congruence|exact B].
    + constructor; [exact Hcr|exact C].
    + apply no_adjacent_cons; [exact D|intros H; congruence].
    + intros _ x b E. injection E as -> _. exact Esp.
Qed.

Lemma replace_illegal_shape (u : list Z) :
  Forall Unicode.unit_range u ->
  Forall (fun c => is_illegal c = false) (replace_illegal u) /\
  Forall Unicode.unit_range (replace_illegal u).
Proof.
  induction u as [|c u IH]; intros Hu; [split; constructor|].
  apply Forall_cons in Hu as [Hc Hu]. destruct (IH Hu) as [A B].
  cbn [replace_illegal map]. fold (replace_illegal u).
  destruct (is_illegal c) eqn:E; (split; constructor; [|exact A| |exact B]);
    try reflexivity; try exact E; try exact Hc; unfold Unicode.unit_range; lia.
Qed.

Lemma infix_ok_suffix (p v : list Z) : infix_ok (p ++ v) -> infix_ok v.
Proof.
  intros [A [B [C D]]]. apply Forall_app in A as [_ A]. apply Forall_app in B as [_ B].
  apply Forall_app in C as [_ C]. repeat split; try assumption. exact (no_adjacent_suffix p v D).
Qed.

Lemma infix_ok_prefix (v q : list Z) : infix_ok (v ++ q) -> infix_ok v.
Proof.
  intros [A [B [C D]]]. apply Forall_app in A as [A _]. apply Forall_app in B as [B _].
  apply Forall_app in C as [C _]. repeat split; try assumption. exact (no_adjacent_prefix v q D).
Qed.

Lemma infix_ok_rev (v : list Z) : infix_ok v -> infix_ok (List.rev v).
Proof.
  intros [A [B [C D]]]. repeat split; try (apply Forall_rev; assumption). apply no_adjacent_rev, D.
Qed.

Lemma infix_ok_drop_while (f : Z -> bool) (v : list Z) :
  infix_ok v -> infix_ok (Unicode.drop_while f v).
Proof.
  destruct (drop_while_suffix f v) as [p Hp]. intros Hv. rewrite Hp in Hv.
  exact (infix_ok_suffix p _ Hv).
Qed.

Lemma infix_ok_take (n : nat) (v : list Z) : infix_ok v -> infix_ok (take n v).
Proof. intros Hv. rewrite <- (take_drop n v) in Hv. exact (infix_ok_prefix _ _ Hv). Qed.

Lemma trim_head (v : list Z) : head_not_space (Unicode.trim v).
Proof.
  unfold Unicode.trim. intros x b E.
  apply (f_equal (@List.rev Z)) in E. rewrite rev_involutive in E. cbn [List.rev] in E.
  set (w := Unicode.drop_while Unicode.is_space v) in *.
  destruct (drop_while_suffix Unicode.is_space (List.rev w)) as [p Hp].
  rewrite E, app_assoc in Hp.
  apply (f_equal (@List.rev Z)) in Hp. rewrite rev_involutive, rev_app_distr in Hp.
  cbn [List.rev app] in Hp. exact (drop_while_head v x _ Hp).
Qed.

Lemma sanitize_units_shape (t : list Z) :
  Forall Unicode.unit_range t ->
  let r := sanitize_units t in
  r <> [] /\ (length r <= 120)%nat /\ infix_ok r /\ head_not_space r.
Proof.
  intros Ht. cbn zeta. unfold sanitize_units, collapse_spaces.
  destruct (replace_illegal_shape t Ht) as [A B].
  destruct (collapse_go_shape _ A B false) as [C1 [C2 [C3 [C4 _]]]].
  assert (Hc : infix_ok (collapse_go false (replace_illegal t))) by (repeat split; assumption).
  assert (Htr : infix_ok (Unicode.trim (collapse_go false (replace_illegal t)))).
  { unfold Unicode.trim. apply infix_ok_rev, infix_ok_drop_while, infix_ok_rev,
      infix_ok_drop_while, Hc. }
  pose proof (infix_ok_take 120 _ Htr) as Htk.
  pose proof (trim_head (collapse_go false (replace_illegal t))) as Hh.
  pose proof (length_take (Unicode.trim (collapse_go false (replace_illegal t))) 120) as Hlen.
  destruct (take 120 (Unicode.trim (collapse_go false (replace_illegal t)))) as [|x r] eqn:Er.
  - split; [discriminate|split; [cbn; lia|split]].
    + unfold video. split; [|split; [|split]].
      * repeat (constructor; [reflexivity|]); constructor.
      * repeat (constructor; [intros Hs; discriminate Hs|]); constructor.
      * repeat (constructor; [unfold Unicode.unit_range; lia|]); constructor.
      * apply no_space_no_adjacent. repeat (constructor; [reflexivity|]); constructor.
    + intros y b E. injection E as <- _. reflexivity.
  - split; [discriminate|split; [rewrite Hlen; lia|split; [exact Htk|]]].
    intros y b E. injection E as <- _.
    rewrite <- (take_drop 120 (Unicode.trim (collapse_go false (replace_illegal t)))), Er in Hh.
    exact (Hh x _ eq_refl).
Qed.

Lemma sanitizeFilename_decode (input : string) :
  Unicode.decode (sanitizeFilename input) = sanitize_units (Unicode.decode input).
Proof.
  unfold sanitizeFilename. apply decode_encode.
  destruct (sanitize_units_shape _ (decode_range input)) as [_ [_ [[_ [_ [H _]]] _]]]. exact H.
Qed.

Lemma string_of_bytes_no_slash (l : list Z) :
  Forall (fun b => 0 <= b < 256 /\ (b < 128 -> b <> 47)) l ->
  no_slash (Unicode.string_of_bytes l) = true.
Proof.
  induction l as [|b l IH]; intros Hl; [reflexivity|].
  apply Forall_cons in Hl as [[Hb Hb47] Hl]. unfold no_slash in *. cbn [Unicode.string_of_bytes str_forallb].
  rewrite IH by exact Hl. rewrite andb_true_r.
  unfold JS.ascii_eqb. destruct (ascii_dec (ascii_of_nat (Z.to_nat b)) "/") as [E|]; [|reflexivity].
  exfalso. apply (f_equal nat_of_ascii) in E. rewrite nat_ascii_embedding in E by lia.
  change (nat_of_ascii "/") with 47%nat in E. apply Hb47; lia.
Qed.

Lemma encode_no_slash (u : list Z) :
  Forall (fun c => Unicode.unit_range c /\ is_illegal c = false) u ->
  no_slash (Unicode.encode u) = true.
Proof.
  intros Hu. unfold Unicode.encode. apply string_of_bytes_no_slash.
  apply (utf8_encode_bytes_P (fun b => b <> 47)).
  eapply Forall_impl; [exact Hu|]. intros c [Hc Hi]. split; [exact Hc|].
  intros _ ->. discriminate Hi.
Qed.

Lemma encode_nonempty (u : list Z) : u <> [] -> Unicode.encode u <> "".
Proof.
  destruct u as [|c u]; [congruence|intros _]. unfold Unicode.encode. cbn [Unicode.utf8_encode].
  destruct (c <? 128); [discriminate|]. destruct (c <? 2048); [discriminate|].
  destruct (Unicode.is_high c); [destruct u as [|d u]; [discriminate|]|discriminate].
  destruct (Unicode.is_low d); discriminate.
Qed.

Lemma sanitizeFilename_no_slash (input : string) :
  no_slash (sanitizeFilename input) = true /\ sanitizeFilename input <> "".
Proof.
  destruct (sanitize_units_shape _ (decode_range input)) as [Hne [_ [[A [_ [C _]]] _]]].
  unfold sanitizeFilename. split; [|apply encode_nonempty, Hne].
  apply encode_no_slash. apply Forall_and; split; assumption.
Qed.

(** C4 pieces *)

Lemma illegal_ascii (c : Z) : is_illegal c = true -> 0 <= c < 128.
Proof.
  unfold is_illegal. cbn [existsb].
  intros H. repeat (apply orb_prop in H as [H|H]; [apply Z.eqb_eq in H; subst c; lia|]).
  discriminate H.
Qed.

Lemma utf8_decode_ascii (l : list Z) :
  Forall (fun b => 0 <= b < 128) l -> Unicode.utf8_decode l = l.
Proof.
  induction l as [|b l IH]; intros Hl; [reflexivity|].
  apply Forall_cons in Hl as [Hb Hl]. rewrite dec_1 by exact Hb. rewrite IH by exact Hl. reflexivity.
Qed.

Lemma decode_illegal (s : string) :
  str_forallb is_illegal_char s = true ->
  Unicode.decode s = Unicode.bytes_of_string s /\
  Forall (fun c => is_illegal c = true) (Unicode.bytes_of_string s) /\
  length (Unicode.bytes_of_string s) = String.length s.
Proof.
  intros Hs. assert (Hf : Forall (fun c => is_illegal c = true) (Unicode.bytes_of_string s)).
  { induction s as [|a s IH]; [constructor|]. cbn in Hs. apply andb_prop in Hs as [Ha Hs].
    constructor; [exact Ha|exact (IH Hs)]. }
  split; [|split; [exact Hf|]].
  - unfold Unicode.decode. apply utf8_decode_ascii.
    eapply Forall_impl; [exact Hf|]. intros c Hc. exact (illegal_ascii c Hc).
  - clear. induction s as [|a s IH]; [reflexivity|]. cbn. rewrite IH. reflexivity.
Qed.

Lemma replace_illegal_all (u : list Z) :
  Forall (fun c => is_illegal c = true) u -> replace_illegal u = List.repeat 95 (length u).
Proof.
  induction u as [|c u IH]; intros Hu; [reflexivity|].
  apply Forall_cons in Hu as [Hc Hu]. cbn [replace_illegal map length List.repeat].
  rewrite Hc. fold (replace_illegal u). rewrite IH by exact Hu. reflexivity.
Qed.

Lemma collapse_go_underscores (b : bool) (n : nat) :
  collapse_go b (List.repeat 95 n) = List.repeat 95 n.
Proof.
  revert b. induction n as [|n IH]; intros b; [reflexivity|].
  cbn [List.repeat collapse_go]. change (Unicode.is_space 95) with false. rewrite !IH. reflexivity.
Qed.

Lemma trim_underscores (n : nat) : Unicode.trim (List.repeat 95 n) = List.repeat 95 n.
Proof.
  assert (D : forall m, Unicode.drop_while Unicode.is_space (List.repeat 95 m) = List.repeat 95 m)
    by (intros [|m]; reflexivity).
  unfold Unicode.trim. rewrite D, rev_repeat, D, rev_repeat. reflexivity.
Qed.

Lemma take_underscores (k n : nat) : take k (List.repeat 95 n) = List.repeat 95 (Nat.min n k).
Proof.
  revert k. induction n as [|n IH]; intros [|k]; try reflexivity.
  cbn [List.repeat]. rewrite firstn_cons, IH. reflexivity.
Qed.

Lemma encode_underscores (n : nat) : Unicode.encode (List.repeat 95 n) = underscores n.
Proof.
  induction n as [|n IH]; [reflexivity|]. unfold Unicode.encode in *. cbn [List.repeat].
  change (Unicode.utf8_encode (95 :: List.repeat 95 n)) with (95 :: Unicode.utf8_encode (List.repeat 95 n)).
  cbn [Unicode.string_of_bytes]. rewrite IH. reflexivity.
Qed.

Lemma replace_illegal_spaces (u : list Z) :
  Forall (fun c => Unicode.is_space c = true) u -> replace_illegal u = u.
Proof.
  induction u as [|c u IH]; intros Hu; [reflexivity|].
  apply Forall_cons in Hu as [Hc Hu]. cbn [replace_illegal map]. fold (replace_illegal u).
  rewrite IH by exact Hu. destruct (is_illegal c) eqn:E; [|reflexivity].
  apply is_illegal_not_space in E. congruence.
Qed.

Lemma collapse_go_spaces (b : bool) (u : list Z) :
  Forall (fun c => Unicode.is_space c = true) u ->
  Forall (fun c => Unicode.is_space c = true) (collapse_go b u).
Proof.
  revert b. induction u as [|c u IH]; intros b Hu; [constructor|].
  apply Forall_cons in Hu as [Hc Hu]. cbn [collapse_go]. rewrite Hc.
  destruct b; [apply IH, Hu|constructor; [reflexivity|apply IH, Hu]].
Qed.

Lemma drop_while_spaces (u : list Z) :
  Forall (fun c => Unicode.is_space c = true) u -> Unicode.drop_while Unicode.is_space u = [].
Proof.
  induction u as [|c u IH]; intros Hu; [reflexivity|].
  apply Forall_cons in Hu as [Hc Hu]. cbn [Unicode.drop_while]. rewrite Hc. apply IH, Hu.
Qed.


End Utf8Proofs.

(** C4 (as the code does it): in [sanitizeFilename] the question mark of
    ["A:B/C*D?"] is replaced too, giving ["A_B_C_D_"]; a title made only of
    illegal characters becomes as many underscores (at most 120), not the
    fallback; the fallback ["video"] is what a title made only of white
    space gives (the empty title, and every white space of JavaScript,
    U+3000 included); the result has at most 120 UTF-16 code units, and a
    title of 41 CJK characters (123 bytes of UTF-8) is kept whole. *)
Theorem sanitizeFilename_spec :
  sanitizeFilename "A:B/C*D?" = "A_B_C_D_" /\
  sanitizeFilename (Unicode.encode (List.repeat 35270%Z 41)) =
    Unicode.encode (List.repeat 35270%Z 41) /\
  (forall s : string, s <> "" -> str_forallb is_illegal_char s = true ->
     sanitizeFilename s = underscores (Nat.min (String.length s) 120)) /\
  (forall s : string, Forall (fun c => Unicode.is_space c = true) (Unicode.decode s) ->
     sanitizeFilename s = "video") /\
  (forall s : string, (length (Unicode.decode (sanitizeFilename s)) <= 120)%nat).
Proof.
  split; [reflexivity|split; [vm_compute; reflexivity|split; [|split]]].
  - intros s Hne Hs. destruct (decode_illegal s Hs) as [Hd [Hf Hl]].
    unfold sanitizeFilename, sanitize_units, collapse_spaces. rewrite Hd.
    rewrite replace_illegal_all by exact Hf.
    rewrite collapse_go_underscores, trim_underscores, take_underscores, Hl.
    destruct s as [|c s]; [congruence|]. cbn [String.length].
    replace (Nat.min (S (String.length s)) 120) with (S (Nat.min (String.length s) 119)) by lia.
    cbn [List.repeat]. rewrite <- encode_underscores.
    replace (S (Nat.min (String.length s) 119)) with (Nat.min (S (String.length s)) 120) by lia.
    reflexivity.
  - intros s Hs. unfold sanitizeFilename, sanitize_units, collapse_spaces, Unicode.trim.
    rewrite replace_illegal_spaces by exact Hs.
    rewrite (drop_while_spaces (collapse_go false _)) by (apply collapse_go_spaces, Hs).
    reflexivity.
  - intros s. rewrite sanitizeFilename_decode.
    destruct (sanitize_units_shape _ (decode_range s)) as [_ [H _]]. exact H.
Qed.

(** C4 as stated fails: ["A:B/C*D?"] does not sanitise to ["A_B_C_D"], and
    the all-illegal title ["???"] does not sanitise to ["video"]. *)
Lemma sanitizeFilename_claim_counterexample :
  String.eqb (sanitizeFilename "A:B/C*D?") "A_B_C_D" = false /\
  sanitizeFilename "A:B/C*D?" = "A_B_C_D_" /\
  sanitizeFilename "???" = "___".
Proof. split; [|split]; reflexivity. Qed.

(** ** The filename resolvers *)

Section ResolverProofs.
Context {FS : Type} `{FileSystem FS}.

Lemma unique_loop_spec (fs : FS) (directory baseName ext : string) (j : nat) :
  forall (a fuel : nat) (log : list fs_op),
  j < fuel ->
  (forall i, i < j -> stat_found fs (snd (unique_candidate directory baseName ext (a + i))) = true) ->
  stat_enoent fs (snd (unique_candidate directory baseName ext (a + j))) = true ->
  unique_loop fuel directory baseName ext a (cand_base baseName a) (fs, log)
  = ((fs, (log ++ map (fun i => OpStat (snd (unique_candidate directory baseName ext i)))
                    (seq a (S j)))%list),
     Ret (unique_candidate directory baseName ext (a + j))).
Proof.
  induction j as [|j IH]; intros a fuel log Hfuel Hfound Hfree;
    (destruct fuel as [|fuel]; [lia|]).
  - rewrite Nat.add_0_r in Hfree |- *. unfold stat_enoent in Hfree.
    cbn [unique_loop]. unfold io_bind, io_try, io_stat.
    unfold unique_candidate in Hfree |- *; simpl in Hfree |- *.
    destruct (fs_stat fs _) as [st|[|code]]; try discriminate. reflexivity.
  - assert (H0 := Hfound 0 ltac:(lia)). rewrite Nat.add_0_r in H0.
    unfold stat_found in H0.
    cbn [unique_loop]. unfold io_bind at 1, io_try at 1, io_stat at 1.
    unfold unique_candidate in H0; simpl in H0.
    destruct (fs_stat fs _) as [st|e] eqn:Est; [|discriminate].
    replace (suffixed baseName (S a)) with (cand_base baseName (S a)) by reflexivity.
    rewrite (IH (S a) fuel); cycle 1.
    { lia. }
    { intros i Hi. replace (S a + i) with (a + S i) by lia. apply Hfound. lia. }
    { replace (S a + j) with (a + S j) by lia. exact Hfree. }
    replace (S a + j) with (a + S j) by lia.
    f_equal. f_equal. rewrite <- app_assoc. reflexivity.
Qed.

Lemma final_loop_spec (fs : FS) (directory rawTitle ext cur : string) (j : nat) :
  forall (a fuel : nat) (log : list fs_op),
  cur <> "" -> j < fuel ->
  (forall i, i < j ->
     stat_found fs (final_candidate directory rawTitle ext (a + i)) = true /\
     String.eqb (path_resolve (final_candidate directory rawTitle ext (a + i)))
                (path_resolve cur) = false) ->
  String.eqb (path_resolve (final_candidate directory rawTitle ext (a + j)))
             (path_resolve cur) = true ->
  final_loop fuel directory (sanitizeFilename rawTitle)
    (if JS.starts_with "." ext then ext else "." +:+ ext) (Some cur) a (fs, log)
  = ((fs, (log ++ map (fun i => OpStat (final_candidate directory rawTitle ext i)) (seq a j))%list),
     Ret (final_candidate directory rawTitle ext (a + j))).
Proof.
  assert (Hne : forall s : string, s <> "" -> String.eqb s "" = false).
  { intros s Hs. apply String.eqb_neq. exact Hs. }
  induction j as [|j IH]; intros a fuel log Hcur Hfuel Hprobe Hsame;
    (destruct fuel as [|fuel]; [lia|]).
  - rewrite Nat.add_0_r in Hsame |- *. cbn [final_loop].
    unfold final_candidate in Hsame |- *.
    replace (match a with O => sanitizeFilename rawTitle
             | S _ => suffixed (sanitizeFilename rawTitle) a end)
      with (cand_base (sanitizeFilename rawTitle) a) by (destruct a; reflexivity).
    rewrite Hne by exact Hcur. rewrite Hsame. simpl. rewrite app_nil_r. reflexivity.
  - destruct (Hprobe 0 ltac:(lia)) as [Hf Hd]. rewrite Nat.add_0_r in Hf, Hd.
    cbn [final_loop].
    replace (match a with O => sanitizeFilename rawTitle
             | S _ => suffixed (sanitizeFilename rawTitle) a end)
      with (cand_base (sanitizeFilename rawTitle) a) by (destruct a; reflexivity).
    unfold final_candidate in Hd, Hf. unfold stat_found in Hf.
    rewrite Hne by exact Hcur. rewrite Hd. cbn [negb andb].
    unfold io_bind at 1, io_try at 1, io_stat at 1.
    destruct (fs_stat fs _) as [st|e] eqn:Est; [|discriminate].
    cbv beta iota.
    rewrite (IH (S a) fuel); cycle 1.
    { exact Hcur. }
    { lia. }
    { intros i Hi. replace (S a + i) with (a + S i) by lia. apply Hprobe. lia. }
    { replace (S a + j) with (a + S j) by lia. exact Hsame. }
    replace (S a + j) with (a + S j) by lia.
    f_equal. f_equal. rewrite <- app_assoc. reflexivity.
Qed.

End ResolverProofs.

(** C3: in non-overwrite mode [ensureUniqueOutputPath] stats [base],
    [base(1)], [base(2)], ... in this order and returns the first candidate
    whose stat fails with [ENOENT] (template and absolute path): when the
    first [k] candidates exist and the [k]-th does not, exactly the stats of
    candidates [0..k] are performed and candidate [k] is returned. *)
Theorem ensureUniqueOutputPath_first_free {FS : Type} `{FileSystem FS}
    (fuel : nat) (now : Z) (fs : FS) (log : list fs_op)
    (directory title ext : string) (k : nat) :
  k < fuel ->
  forallb (fun i => stat_found fs (snd (unique_candidate directory (sanitizeFilename title) ext i)))
          (seq 0 k) = true ->
  stat_enoent fs (snd (unique_candidate directory (sanitizeFilename title) ext k)) = true ->
  ensureUniqueOutputPath fuel now directory (Some title) false ext (fs, log)
  = ((fs, (log ++ map (fun i => OpStat (snd (unique_candidate directory
                                               (sanitizeFilename title) ext i)))
                    (seq 0 (S k)))%list),
     Ret (unique_candidate directory (sanitizeFilename title) ext k)).
Proof.
  intros Hk Hall Hfree. unfold ensureUniqueOutputPath.
  exact (unique_loop_spec fs directory (sanitizeFilename title) ext k 0 fuel log Hk
           (fun i Hi => proj1 (forallb_forall _ _) Hall i (proj2 (in_seq _ _ _) (conj (Nat.le_0_l i) Hi)))
           Hfree).
Qed.

(** C3 on the spec's example: with ["clip.mp4"] in ["/d"] the title
    ["clip"] resolves to ["clip(1).mp4"]; with ["clip(1).mp4"] there too, to
    ["clip(2).mp4"]. *)
Lemma ensureUniqueOutputPath_first_free_witness :
  snd (ensureUniqueOutputPath 5 0 "/d" (Some "clip") false ".mp4"
         ([MemFS.file "/d/clip.mp4" 1], []))
  = Ret ("/d/clip(1).%(ext)s", "/d/clip(1).mp4") /\
  snd (ensureUniqueOutputPath 5 0 "/d" (Some "clip") false ".mp4"
         ([MemFS.file "/d/clip.mp4" 1; MemFS.file "/d/clip(1).mp4" 2], []))
  = Ret ("/d/clip(2).%(ext)s", "/d/clip(2).mp4").
Proof.
  split.
  - rewrite (ensureUniqueOutputPath_first_free 5 0 _ [] "/d" "clip" ".mp4" 1);
      [reflexivity | lia | reflexivity | reflexivity].
  - rewrite (ensureUniqueOutputPath_first_free 5 0 _ [] "/d" "clip" ".mp4" 2);
      [reflexivity | lia | reflexivity | reflexivity].
Defined.

(** C7: [ensureFinalFilePath] accepts a candidate at once, without a stat,
    when it resolves to the current file; so when the task's recorded file
    exists and is itself the resolved target (the earlier candidates exist
    and are other files), [finalizeDownload] performs no rename, stats only
    the file and those earlier candidates, and reports the same path. *)
Theorem finalize_idempotent_rename {FS : Type} `{FileSystem FS}
    (deriveTitleFromUrl : string -> string) (fuel : nat) (fs : FS)
    (log : list fs_op) (task : DownloadTask)
    (directory title actual ext : string) (k : nat) :
  dt_outputFile task = Some actual ->
  dt_directory task = Some directory ->
  dt_title task = Some title ->
  actual <> "" -> directory <> "" ->
  stat_found fs actual = true ->
  ext = (let e := NodePath.extname actual in
         if String.eqb e "" then finalize_expected_ext task else e) ->
  k < fuel ->
  forallb (fun i => stat_found fs (final_candidate directory title ext i) &&
                    negb (String.eqb (path_resolve (final_candidate directory title ext i))
                                     (path_resolve actual)))%bool
          (seq 0 k) = true ->
  String.eqb (path_resolve (final_candidate directory title ext k)) (path_resolve actual) = true ->
  ensureFinalFilePath fuel directory title ext (Some actual) (fs, log)
  = ((fs, (log ++ map (fun i => OpStat (final_candidate directory title ext i)) (seq 0 k))%list),
     Ret (final_candidate directory title ext k)) /\
  finalizeDownload deriveTitleFromUrl fuel task (fs, log)
  = ((fs, (log ++ OpStat actual
                 :: map (fun i => OpStat (final_candidate directory title ext i)) (seq 0 k))%list),
     Ret (Some actual, set_outputFile (Some actual) task)).
Proof.
  intros Hout Hdir Htitle Hact Hd Hfound Hext Hk Hall Hsame.
  assert (Hprobe : forall i, i < k ->
    stat_found fs (final_candidate directory title ext (0 + i)) = true /\
    String.eqb (path_resolve (final_candidate directory title ext (0 + i)))
               (path_resolve actual) = false).
  { intros i Hi. rewrite forallb_forall in Hall.
    specialize (Hall i (proj2 (in_seq _ _ _) (conj (Nat.le_0_l i) Hi))).
    apply andb_true_iff in Hall as [H1 H2]. split; [exact H1|].
    apply negb_true_iff in H2. exact H2. }
  assert (Hres : forall l,
    ensureFinalFilePath fuel directory title ext (Some actual) (fs, l)
    = ((fs, (l ++ map (fun i => OpStat (final_candidate directory title ext i)) (seq 0 k))%list),
       Ret (final_candidate directory title ext k))).
  { intros l. exact (final_loop_spec fs directory title ext actual k 0 fuel l Hact Hk Hprobe Hsame). }
  split; [apply Hres|].
  unfold finalizeDownload. rewrite Hout, Hdir, Htitle.
  rewrite (proj2 (String.eqb_neq actual "") Hact), (proj2 (String.eqb_neq directory "") Hd).
  cbn [orb].
  unfold stat_found in Hfound.
  unfold io_bind at 1, io_try at 1, io_stat at 1.
  destruct (fs_stat fs actual) as [st|e] eqn:Est; [|discriminate].
  cbv beta iota. cbv zeta in Hext |- *.
  cbn [io_bind io_ret io_try].
  rewrite <- Hext. unfold io_bind, io_try. cbv beta.
  rewrite Hres. cbv beta iota. rewrite Hsame. cbn [negb].
  unfold io_ret. cbv beta iota. rewrite <- app_assoc. reflexivity.
Qed.

(** C7 on a concrete directory: ["/d/clip.mp4"] and ["/d/clip(1).mp4"]
    exist and the task's file is ["/d/clip(1).mp4"], the resolved target of
    the title ["clip"]: nothing is renamed and the same path is reported. *)
Lemma finalize_idempotent_rename_witness :
  let task := {| dt_id := "t1"; dt_url := "https://example.com/v"; dt_status := Completed;
                 dt_outputFile := Some "/d/clip(1).mp4"; dt_title := Some "clip";
                 dt_directory := Some "/d"; dt_downloadType := Some Video |} in
  let fs0 := [MemFS.file "/d/clip.mp4" 1; MemFS.file "/d/clip(1).mp4" 2] in
  finalizeDownload (fun _ => "video") 5 task (fs0, [])
  = ((fs0, [OpStat "/d/clip(1).mp4"; OpStat "/d/clip.mp4"]),
     Ret (Some "/d/clip(1).mp4", set_outputFile (Some "/d/clip(1).mp4") task)).
Proof.
  cbv zeta.
  rewrite (proj2 (finalize_idempotent_rename (fun _ => "video") 5
     [MemFS.file "/d/clip.mp4" 1; MemFS.file "/d/clip(1).mp4" 2] []
     {| dt_id := "t1"; dt_url := "https://example.com/v"; dt_status := Completed;
        dt_outputFile := Some "/d/clip(1).mp4"; dt_title := Some "clip";
        dt_directory := Some "/d"; dt_downloadType := Some Video |}
     "/d" "clip" "/d/clip(1).mp4" ".mp4" 1
     eq_refl eq_refl eq_refl ltac:(discriminate) ltac:(discriminate)
     eq_refl eq_refl ltac:(lia) eq_refl eq_refl)).
  reflexivity.
Defined.

(** ** Percent-update lines *)

Lemma str_forallb_app (f : ascii -> bool) (a b : string) :
  str_forallb f (a +:+ b) = (str_forallb f a && str_forallb f b)%bool.
Proof.
  induction a as [|c a IH]; [reflexivity|].
  change (str_forallb f (String c (a +:+ b)) =
          (f c && str_forallb f a && str_forallb f b)%bool).
  simpl. rewrite IH. apply andb_assoc.
Qed.

Lemma span_fst_forall (f : ascii -> bool) (s : string) :
  str_forallb f (fst (JS.span f s)) = true.
Proof.
  induction s as [|c s IH]; simpl; [reflexivity|].
  destruct (f c) eqn:Hc; [|reflexivity].
  destruct (JS.span f s) as [a b] eqn:E. simpl in *. rewrite Hc. exact IH.
Qed.

Lemma search_some (f : string -> option string) (s x : string) :
  Regex.search f s = Some x -> exists t, f t = Some x.
Proof.
  induction s as [|c s IH]; simpl; intros Hs.
  - destruct (f "") eqn:E; [|discriminate]. exists "". congruence.
  - destruct (f (String c s)) eqn:E.
    + exists (String c s). congruence.
    + apply IH, Hs.
Qed.

Lemma slash_s_prefix_shape (r q : string) :
  Regex.slash_s_prefix r = Some q ->
  (exists x c, q = x +:+ String "/" (String c "") /\ JS.to_lower c = "s"%char) /\
  (exists rest, r = q +:+ rest).
Proof.
  revert q. induction r as [|c r IH]; intros q Hq; simpl in Hq; [discriminate|].
  destruct (Regex.slash_s_prefix r) as [q'|] eqn:E.
  - injection Hq as <-. destruct (IH q' eq_refl) as [[x [c' [Hx Hc']]] [rest Hr]].
    split.
    + exists (String c x), c'. rewrite Hx. split; [reflexivity|exact Hc'].
    + exists rest. rewrite Hr. reflexivity.
  - destruct (JS.ascii_eqb c "/") eqn:Hc; [|simpl in Hq; discriminate].
    unfold JS.ascii_eqb in Hc. destruct (ascii_dec c "/") as [->|]; [|discriminate].
    destruct r as [|s0 r']; [simpl in Hq; discriminate|].
    destruct (JS.ascii_eqb (JS.to_lower "s") (JS.to_lower s0)) eqn:Hs;
      [|simpl in Hq; discriminate].
    simpl in Hq. injection Hq as <-.
    unfold JS.ascii_eqb in Hs. destruct (ascii_dec _ _) as [Hl|]; [|discriminate].
    split.
    + exists "", s0. split; [destruct r'; reflexivity|]. rewrite <- Hl. reflexivity.
    + exists r'. destruct r'; reflexivity.
Qed.

(** What the speed regex captures: a run of non-space characters ending in
    [/s] (either case) with at least one character before it. *)
Lemma speedMatch_shape (line sp : string) :
  Regex.speedMatch line = Some sp ->
  str_forallb Regex.not_space sp = true /\
  exists x c, x <> "" /\ sp = x +:+ String "/" (String c "") /\ JS.to_lower c = "s"%char.
Proof.
  intros Hm. apply search_some in Hm as [t Ht]. unfold Regex.speed_at in Ht.
  destruct (JS.starts_with_ci "at" t); [|discriminate].
  destruct (JS.span JS.is_space (Regex.drop 2 t)) as [ws r].
  destruct (String.eqb ws ""); [discriminate|].
  pose proof (span_fst_forall Regex.not_space r) as Hrun.
  destruct (JS.span Regex.not_space r) as [run rest0]. simpl in Hrun.
  destruct run as [|c rest]; [discriminate|].
  destruct (Regex.slash_s_prefix rest) as [q|] eqn:Eq; [|discriminate].
  simpl in Ht. injection Ht as <-.
  destruct (slash_s_prefix_shape rest q Eq) as [[x [c' [Hx Hc']]] [tail Htail]].
  simpl in Hrun. apply andb_true_iff in Hrun as [Hc Hrest].
  split.
  - simpl. rewrite Hc. subst rest. rewrite str_forallb_app in Hrest.
    apply andb_true_iff in Hrest as [Hq _]. exact Hq.
  - exists (String c x), c'. split; [discriminate|]. rewrite Hx. split; [reflexivity|exact Hc'].
Qed.

(** What the ETA regex captures: a non-empty run of non-space characters. *)
Lemma etaMatch_shape (line e : string) :
  Regex.etaMatch line = Some e ->
  e <> "" /\ str_forallb Regex.not_space e = true.
Proof.
  intros Hm. apply search_some in Hm as [t Ht]. unfold Regex.eta_at in Ht.
  destruct (JS.starts_with_ci "ETA" t); [|discriminate].
  destruct (JS.span JS.is_space (Regex.drop 3 t)) as [ws r].
  destruct (String.eqb ws ""); [discriminate|].
  pose proof (span_fst_forall Regex.not_space r) as Hrun.
  destruct (JS.span Regex.not_space r) as [run rest0]. simpl in Hrun.
  destruct (String.eqb run "") eqn:Er; [discriminate|].
  injection Ht as <-. split; [|exact Hrun].
  apply String.eqb_neq. exact Er.
Qed.

(** The event of a percent-update line. *)
Lemma handleLine_percent_line (task : DownloadTask) (raw digits : string) :
  JS.starts_with destination_marker (JS.trim raw) = false ->
  Regex.progressMatch (JS.trim raw) = Some digits ->
  handleLine task raw =
  (set_status Downloading task,
   [EvProgress {| pp_id := dt_id task; pp_status := Some Downloading;
                  pp_title := dt_title task;
                  pp_progress := {| percent := Some (if Number_isFinite (parseFloat digits)
                                                    then parseFloat digits else Fin (Dec 0 0));
                                    speed := Regex.speedMatch (JS.trim raw);
                                    eta := Regex.etaMatch (JS.trim raw) |};
                  pp_directory := dt_directory task;
                  pp_filePath := dt_outputFile task |}]).
Proof.
  intros Hdest Hm. unfold handleLine.
  destruct (String.eqb (JS.trim raw) "") eqn:Ee.
  - apply String.eqb_eq in Ee. rewrite Ee in Hm. discriminate.
  - rewrite Hdest, Hm. reflexivity.
Qed.

(** C8: a percent-update line (after trimming, not a destination line, and
    matching [\[download\]\s+([\d.]+)%]) sets the status to [downloading] and
    emits one progress event whose percent is [parseFloat] of the captured
    digits (0 when not finite), whose speed is the capture of the speed
    regex and whose ETA is the capture of the ETA regex, each absent
    ([None]) when its regex does not match; a speed token is a run of
    non-space characters ending in [/s], an ETA token a non-empty run of
    non-space characters. *)
Theorem handleLine_percent_update (task : DownloadTask) (raw digits : string) :
  JS.starts_with destination_marker (JS.trim raw) = false ->
  Regex.progressMatch (JS.trim raw) = Some digits ->
  handleLine task raw =
  (set_status Downloading task,
   [EvProgress {| pp_id := dt_id task; pp_status := Some Downloading;
                  pp_title := dt_title task;
                  pp_progress := {| percent := Some (if Number_isFinite (parseFloat digits)
                                                    then parseFloat digits else Fin (Dec 0 0));
                                    speed := Regex.speedMatch (JS.trim raw);
                                    eta := Regex.etaMatch (JS.trim raw) |};
                  pp_directory := dt_directory task;
                  pp_filePath := dt_outputFile task |}]) /\
  (forall sp, Regex.speedMatch (JS.trim raw) = Some sp ->
     str_forallb Regex.not_space sp = true /\
     exists x c, x <> "" /\ sp = x +:+ String "/" (String c "") /\ JS.to_lower c = "s"%char) /\
  (forall e, Regex.etaMatch (JS.trim raw) = Some e ->
     e <> "" /\ str_forallb Regex.not_space e = true).
Proof.
  intros Hdest Hm. split; [exact (handleLine_percent_line task raw digits Hdest Hm)|].
  split; intros x Hx; [apply (speedMatch_shape _ _ Hx) | apply (etaMatch_shape _ _ Hx)].
Qed.

(** C8 on Scenario B's line: percent 42.5, speed ["1.2MiB/s"], ETA
    ["00:10"]. *)
Lemma handleLine_percent_update_witness :
  handleLine scenario_task "[download]  42.5% at 1.2MiB/s ETA 00:10" =
  (set_status Downloading scenario_task,
   [EvProgress {| pp_id := "t1"; pp_status := Some Downloading; pp_title := Some "x";
                  pp_progress := {| percent := Some (Fin (Dec 425 1));
                                    speed := Some "1.2MiB/s"; eta := Some "00:10" |};
                  pp_directory := Some "/tmp"; pp_filePath := Some "/tmp/x.mp4" |}]).
Proof.
  rewrite (proj1 (handleLine_percent_update scenario_task
                    "[download]  42.5% at 1.2MiB/s ETA 00:10" "42.5" eq_refl eq_refl)).
  reflexivity.
Defined.

(** C10: the percent of the event of a percent-update line is always a
    finite number: [parseFloat]'s value when it is finite, whatever its size
    (no upper clamp), and 0 when it is [NaN] (or overflows). *)
Theorem handleLine_percent_finite (task : DownloadTask) (raw digits : string) :
  JS.starts_with destination_marker (JS.trim raw) = false ->
  Regex.progressMatch (JS.trim raw) = Some digits ->
  exists p : ProgressPayload,
    snd (handleLine task raw) = [EvProgress p] /\
    percent (pp_progress p) =
      Some (match parseFloat digits with Fin d => Fin d | _ => Fin (Dec 0 0) end) /\
    (exists d, percent (pp_progress p) = Some (Fin d)) /\
    (parseFloat digits = NaN -> percent (pp_progress p) = Some (Fin (Dec 0 0))) /\
    (forall d, parseFloat digits = Fin d -> percent (pp_progress p) = Some (Fin d)).
Proof.
  intros Hdest Hm. rewrite (handleLine_percent_line task raw digits Hdest Hm).
  eexists. split; [reflexivity|]. simpl.
  destruct (parseFloat digits) as [| | |d]; simpl;
    (split; [reflexivity|]); (split; [eexists; reflexivity|]);
    split; intros; try discriminate; try reflexivity; congruence.
Qed.

(** C10 on a bare run of dots (percent 0) and on 150 (emitted as is). *)
Lemma handleLine_percent_finite_witness :
  snd (handleLine scenario_task "[download] ...%") =
    [EvProgress {| pp_id := "t1"; pp_status := Some Downloading; pp_title := Some "x";
                   pp_progress := {| percent := Some (Fin (Dec 0 0)); speed := None; eta := None |};
                   pp_directory := Some "/tmp"; pp_filePath := Some "/tmp/x.mp4" |}] /\
  (exists p, snd (handleLine scenario_task "[download] 150%") = [EvProgress p] /\
             percent (pp_progress p) = Some (Fin (Dec 150 0))).
Proof.
  split.
  - destruct (handleLine_percent_finite scenario_task "[download] ...%" "..." eq_refl eq_refl)
      as [p [Hp [Hpct _]]].
    rewrite Hp. destruct p as [i s t [pc sp et] dr fp]. simpl in Hpct. subst pc.
    pose proof Hp as Hp'. vm_compute in Hp'. injection Hp' as <- <- <- <- <- <- <-.
    reflexivity.
  - destruct (handleLine_percent_finite scenario_task "[download] 150%" "150" eq_refl eq_refl)
      as [p [Hp [Hpct _]]].
    exists p. split; [exact Hp|]. rewrite Hpct. reflexivity.
Defined.

(** ** Finalization errors *)

Section IOLogicProofs.
Context {FS : Type} `{FileSystem FS}.

Lemma nfe_ret {A} (a : A) : no_fs_error (FS:=FS) (io_ret a).
Proof. intros s e. discriminate. Qed.

Lemma nfe_try {A} (m : @IO FS A) : no_fs_error (io_try m).
Proof.
  intros s e. unfold io_try.
  destruct (m s) as [s' [a|[e'|]]]; discriminate.
Qed.

Lemma nfe_bind {A B} (m : @IO FS A) (k : A -> @IO FS B) :
  no_fs_error m -> (forall a, no_fs_error (k a)) -> no_fs_error (io_bind m k).
Proof.
  intros Hm Hk s e. unfold io_bind.
  destruct (m s) as [s' o] eqn:E. destruct o as [a|e'].
  - apply Hk.
  - simpl. intros Heq. injection Heq as ->. apply (Hm s e). rewrite E. reflexivity.
Qed.

Lemma rs_ret {A} (P : A -> Prop) (a : A) : P a -> ret_sat (FS:=FS) P (io_ret a).
Proof. intros Ha s s' a' Heq. injection Heq as _ <-. exact Ha. Qed.

Lemma rs_true {A} (m : @IO FS A) : ret_sat (fun _ => True) m.
Proof. intros s s' a _. exact I. Qed.

Lemma rs_try {A} (P : A -> Prop) (m : @IO FS A) :
  ret_sat P m ->
  ret_sat (fun x => match x with inl a => P a | inr _ => True end) (io_try m).
Proof.
  intros Hm s s' x. unfold io_try.
  destruct (m s) as [s1 [a|[e|]]] eqn:E; intros Heq; inversion Heq; subst;
    [exact (Hm s _ a E) | exact I].
Qed.

Lemma rs_bind {A B} (Q : A -> Prop) (P : B -> Prop) (m : @IO FS A) (k : A -> @IO FS B) :
  ret_sat Q m -> (forall a, Q a -> ret_sat P (k a)) -> ret_sat P (io_bind m k).
Proof.
  intros Hm Hk s s' b. unfold io_bind.
  destruct (m s) as [s1 [a|e]] eqn:E; [|discriminate].
  apply (Hk a (Hm s s1 a E)).
Qed.

End IOLogicProofs.

Lemma find_latest_no_fs_error {FS} `{FileSystem FS} (directory ext : string) :
  no_fs_error (find_latest directory ext).
Proof.
  unfold find_latest. apply nfe_bind; [apply nfe_try|].
  intros [a|e]; apply nfe_ret.
Qed.

Lemma finalizeDownload_no_fs_error {FS} `{FileSystem FS}
    (deriveTitleFromUrl : string -> string) (fuel : nat) (task : DownloadTask) :
  no_fs_error (finalizeDownload deriveTitleFromUrl fuel task).
Proof.
  unfold finalizeDownload.
  destruct (dt_outputFile task) as [out|]; [|apply nfe_ret].
  destruct (dt_directory task) as [directory|]; [|apply nfe_ret].
  destruct (String.eqb out "" || String.eqb directory "")%bool; [apply nfe_ret|].
  apply nfe_bind; [apply nfe_try|]. intros r1.
  apply nfe_bind.
  { destruct r1; [apply nfe_ret|].
    apply nfe_bind; [apply nfe_try|]. intros [a|e]; apply nfe_ret. }
  intros found2. apply nfe_bind.
  { destruct found2; [apply nfe_ret|apply find_latest_no_fs_error]. }
  intros [actualFile|]; [|apply nfe_ret].
  apply nfe_bind; [apply nfe_try|]. intros [x|e]; apply nfe_ret.
Qed.

Lemma finalizeDownload_post {FS} `{FileSystem FS}
    (deriveTitleFromUrl : string -> string) (fuel : nat) (task : DownloadTask) :
  ret_sat (finalize_post task) (finalizeDownload deriveTitleFromUrl fuel task).
Proof.
  unfold finalizeDownload.
  destruct (dt_outputFile task) as [out|] eqn:Eout;
    [|apply rs_ret; unfold finalize_post; simpl; auto].
  destruct (dt_directory task) as [directory|];
    [|apply rs_ret; unfold finalize_post; simpl; auto].
  destruct (String.eqb out "" || String.eqb directory "")%bool;
    [apply rs_ret; unfold finalize_post; simpl; auto|].
  apply (rs_bind (fun _ => True)); [apply rs_true|]. intros r1 _.
  apply (rs_bind (fun _ => True)); [apply rs_true|]. intros found2 _.
  apply (rs_bind (fun _ => True)); [apply rs_true|]. intros [actualFile|] _;
    [|apply rs_ret; unfold finalize_post; simpl; auto].
  apply (rs_bind (fun x => match x with
                           | inl a => finalize_post task a
                           | inr _ => True end)).
  - apply rs_try. apply (rs_bind (fun _ => True)); [apply rs_true|].
    intros targetPath _.
    destruct (negb _).
    + apply (rs_bind (fun _ => True)); [apply rs_true|]. intros _ _.
      apply rs_ret. unfold finalize_post; simpl; auto.
    + apply rs_ret. unfold finalize_post; simpl; auto.
  - intros [x|e] Hx; apply rs_ret; [exact Hx|]. unfold finalize_post; simpl; auto.
Qed.

(** C6: finalization never lets a file-system error escape (every stat,
    directory listing, rename or probing error is caught inside
    [finalizeDownload], which returns the task's best-known output path),
    and the close handler for exit code 0, run on any file system, never
    fails with a file-system error and always ends with the task
    [completed] and exactly one [completed] event for it.  (Running out of
    fuel in the unbounded probing loop is the only other outcome.) *)
Theorem finalize_errors_caught {FS} `{FileSystem FS}
    (deriveTitleFromUrl : string -> string) (fuel : nat) (task : DownloadTask) :
  no_fs_error (finalizeDownload deriveTitleFromUrl fuel task) /\
  ret_sat (fun res =>
             dt_status (snd res) = dt_status task /\
             (fst res = dt_outputFile (snd res) \/ (fst res = None /\ snd res = task)))
          (finalizeDownload deriveTitleFromUrl fuel task) /\
  no_fs_error (onClose deriveTitleFromUrl fuel task (Some 0%Z)) /\
  ret_sat (fun res =>
             dt_status (fst res) = Completed /\
             exists p, snd res = [EvCompleted p] /\ cp_id p = dt_id task)
          (onClose deriveTitleFromUrl fuel task (Some 0%Z)).
Proof.
  split; [apply finalizeDownload_no_fs_error|].
  split.
  { intros s s' a Ha. destruct (finalizeDownload_post deriveTitleFromUrl fuel task s s' a Ha)
      as [_ [Hst Hr]]. auto. }
  split.
  - unfold onClose. apply nfe_bind; [apply finalizeDownload_no_fs_error|].
    intros [finalPath task2]. apply nfe_bind; [|intros; apply nfe_ret].
    destruct (match finalPath with Some p => Some p | None => dt_outputFile task2 end)
      as [p|]; [|apply nfe_ret].
    destruct (String.eqb p ""); [apply nfe_ret|].
    apply nfe_bind; [apply nfe_try|]. intros [st|e]; apply nfe_ret.
  - unfold onClose.
    apply (rs_bind (finalize_post (set_status Completed task)));
      [apply finalizeDownload_post|].
    intros [finalPath task2] [Hid [Hst _]]. simpl in Hid, Hst.
    apply (rs_bind (fun _ => True)); [apply rs_true|]. intros fileSize _.
    apply rs_ret. simpl.
    destruct (match finalPath with Some p => Some p | None => dt_outputFile task2 end)
      as [p|]; simpl.
    + destruct (String.eqb p ""); simpl; [split; [exact Hst|eexists; split; [reflexivity|exact Hid]]|].
      destruct (decide _); simpl; (split; [exact Hst|eexists; split; [reflexivity|exact Hid]]).
    + split; [exact Hst|eexists; split; [reflexivity|exact Hid]].
Qed.

(** ** The concurrency bound *)

Lemma clampConcurrentDownloads_ge_1 `{StringToNumber} (input : JSVal) :
  (1 <= clampConcurrentDownloads input)%Z.
Proof.
  unfold clampConcurrentDownloads, default_maxConcurrentDownloads.
  destruct (Number input); lia.
Qed.

Module QueueProofs.
Import Queue.

Section Inv.
Context `{StringToNumber}.

Lemma processQueue_inv (s : state) : drain_inv s -> drain_inv (processQueue s).
Proof.
  destruct s as [a q c d]. unfold drain_inv, processQueue, within_limit, limit.
  destruct d; cbn; auto. destruct q; cbn; tauto.
Qed.

Lemma step_inv (s : state) (e : event) :
  drain_inv s -> (limit s <= limit (step s e))%Z -> drain_inv (step s e).
Proof.
  intros Hinv Hle. destruct e as [p|id| |count| | | |].
  - apply processQueue_inv. destruct s as [a q c d]. exact Hinv.
  - destruct s as [a q c d]. unfold drain_inv, within_limit, limit in *. cbn in *.
    pose proof (map_size_delete id a) as Hs.
    destruct (a !! id); cbn in Hs; rewrite Hs; (destruct d; cbn in *; lia).
  - apply processQueue_inv. exact Hinv.
  - apply processQueue_inv. destruct s as [a q c d].
    unfold drain_inv, within_limit, limit in *. cbn in *.
    destruct d; cbn in *; lia.
  - destruct s as [a q c d]. unfold drain_inv, within_limit, limit in *. cbn in *.
    destruct d; cbn in *; lia.
  - destruct s as [a q c d]. unfold drain_inv, within_limit, limit in *. cbn in *.
    destruct d as [| |m|p]; cbn in *; try lia.
    destruct (Z.leb m (Z.of_nat (size a))) eqn:E; cbn; [lia|].
    apply Z.leb_gt in E. destruct q; cbn; lia.
  - destruct s as [a q c d]. unfold drain_inv, within_limit, limit in *. cbn in *.
    destruct d as [| |m|p]; cbn in *; try lia.
    pose proof (map_size_insert (pt_id p) p a) as Hs.
    destruct (a !! pt_id p); cbn in Hs; rewrite Hs;
      (split; [lia|]); destruct q; cbn; auto.
  - destruct s as [a q c d]. unfold drain_inv, within_limit, limit in *. cbn in *.
    destruct d as [| |m|p]; cbn in *; try lia.
    split; [lia|]. destruct q; cbn; auto.
Qed.

Lemma trace_inv (s : state) (evs : list event) :
  drain_inv s -> limit_never_lowered s evs = true -> Forall drain_inv (trace s evs).
Proof.
  revert s. induction evs as [|e es IH]; intros s Hinv Hnl; cbn.
  - constructor; [exact Hinv|constructor].
  - cbn in Hnl. apply andb_true_iff in Hnl as [Hle Hnl]. apply Z.leb_le in Hle.
    constructor; [exact Hinv|]. apply IH; [apply step_inv|]; assumption.
Qed.

Lemma init_inv (c : AppSettings) : drain_inv (init c).
Proof.
  unfold drain_inv, within_limit, limit, init, getMaxConcurrentDownloads. cbn.
  rewrite map_size_empty. pose proof (clampConcurrentDownloads_ge_1 (maxConcurrentDownloads c)).
  split; [lia|exact I].
Qed.

End Inv.
End QueueProofs.

(** C2 (as the code behaves): in every run from the initial state (any
    interleaving of starts, process exits, re-drains, limit changes and the
    drain's own steps) in which the configured limit is never lowered, the
    number of live processes never exceeds the configured
    [maxConcurrentDownloads], and whenever an admission is in flight the
    active count is strictly below it. *)
Theorem concurrency_bound_unless_lowered `{StringToNumber}
    (c : AppSettings) (evs : list Queue.event) :
  Queue.limit_never_lowered (Queue.init c) evs = true ->
  Forall Queue.within_limit (Queue.trace (Queue.init c) evs) /\
  Forall (fun s => match Queue.drain s with
                   | Queue.Spawning _ =>
                       (Z.of_nat (size (Queue.activeDownloads s)) < Queue.limit s)%Z
                   | _ => True
                   end) (Queue.trace (Queue.init c) evs).
Proof.
  intros Hnl. pose proof (QueueProofs.trace_inv _ evs (QueueProofs.init_inv c) Hnl) as Hall.
  split; eapply Forall_impl; try exact Hall; intros s [Hw Hd]; [exact Hw|].
  destruct (Queue.drain s); lia.
Qed.

(** C2 with the limit 2: three downloads started, two admitted. *)
Lemma concurrency_bound_unless_lowered_witness :
  @Queue.limit_never_lowered nan_strings (Queue.init (settings_with_limit 2)) three_admitted = true /\
  Forall (@Queue.within_limit nan_strings)
    (@Queue.trace nan_strings (Queue.init (settings_with_limit 2)) three_admitted).
Proof.
  split; [vm_compute; reflexivity|].
  apply (proj1 (@concurrency_bound_unless_lowered nan_strings (settings_with_limit 2)
                  three_admitted ltac:(vm_compute; reflexivity))).
Defined.

(** C2 as stated fails: with the limit 3, three downloads are admitted;
    lowering the limit to 1 leaves the three processes running, above the
    configured limit. *)
Lemma concurrency_bound_claim_counterexample :
  Exists (fun s => ~ @Queue.within_limit nan_strings s)
    (@Queue.trace nan_strings (Queue.init (settings_with_limit 3))
       (three_admitted ++ [Queue.SetLimit (JNumber (Fin (Dec 1 0)))])%list).
Proof.
  vm_compute. do 13 apply Exists_cons_tl. apply Exists_cons_hd.
  intros Hle. apply Hle. reflexivity.
Qed.

(** ** Exit code 0 after an error line *)

(** C1 (the code's behaviour, which the claim contradicts): the line
    [ERROR: boom] marks the task failed and emits a failed event; a
    following exit with code 0 still sets the task to completed and emits a
    completed event, as the exit-0 branch has no [status !== failed] guard.
    The non-zero branch, by contrast, leaves a failed task alone. *)
Theorem error_line_then_exit0_completes :
  handleLine scenario_task "ERROR: boom" =
    (set_status Failed scenario_task, [EvFailed "t1" "ERROR: boom"]) /\
  snd (onClose (fun _ => "x") 10 (set_status Failed scenario_task) (Some 0%Z)
         ([MemFS.file "/tmp/x.mp4" 1], [])) =
    Ret (set_status Completed scenario_task,
         [EvCompleted {| cp_id := "t1"; cp_filePath := Some "/tmp/x.mp4";
                         cp_title := Some "x"; cp_directory := Some "/tmp";
                         cp_fileSize := Some 1000%Z |}]) /\
  snd (onClose (fun _ => "x") 10 (set_status Failed scenario_task) (Some 1%Z)
         ([MemFS.file "/tmp/x.mp4" 1], [])) =
    Ret (set_status Failed scenario_task, []).
Proof. split; [|split]; vm_compute; reflexivity. Qed.

(** ** The expected extension of an m4a audio download *)

(** C5 (the code's behaviour, which the claim contradicts): the
    [download:start] handler expects [.m4a] for an audio download in m4a
    format, but finalization always expects [.mp3] for audio.  With the
    reported file [/d/abc.webm] gone and the audio extracted to
    [/d/abc.m4a], finalization misses [/d/abc.m4a], picks the unrelated
    [/d/old.mp3] as the newest [.mp3] and renames it to [/d/Song.mp3]; with
    no [.mp3] in the directory it reports the missing [/d/abc.webm]. *)
Theorem finalize_m4a_audio_expects_mp3 :
  download_start_expected_ext Audio (Some "m4a") = ".m4a" /\
  finalize_expected_ext m4a_task = ".mp3" /\
  finalizeDownload (fun _ => "Song") 10 m4a_task (m4a_fs, []) =
    (([MemFS.file "/d/Song.mp3" 1; MemFS.file "/d/abc.m4a" 5],
      [OpStat "/d/abc.webm"; OpStat "/d/abc.mp3"; OpReaddir "/d"; OpStat "/d/old.mp3";
       OpStat "/d/Song.mp3"; OpRename "/d/old.mp3" "/d/Song.mp3"]),
     Ret (Some "/d/Song.mp3", set_outputFile (Some "/d/Song.mp3") m4a_task)) /\
  finalizeDownload (fun _ => "Song") 10 m4a_task ([MemFS.file "/d/abc.m4a" 5], []) =
    (([MemFS.file "/d/abc.m4a" 5],
      [OpStat "/d/abc.webm"; OpStat "/d/abc.mp3"; OpReaddir "/d"]),
     Ret (Some "/d/abc.webm", m4a_task)).
Proof. split; [|split; [|split]]; vm_compute; reflexivity. Qed.

Section ResolverSafety.
Context {FS : Type} `{FileSystem FS}.

Lemma cand_base_suffixed (baseName : string) (a : nat) :
  suffixed baseName (S a) = cand_base baseName (S a).
Proof. reflexivity. Qed.

Lemma unique_loop_safe (fs : FS) (directory baseName ext : string) :
  forall fuel a log fs' log' o,
  unique_loop fuel directory baseName ext a (cand_base baseName a) (fs, log) = ((fs', log'), o) ->
  fs' = fs /\ (exists ops, log' = (log ++ ops)%list /\ forallb not_rename ops = true) /\
  match o with
  | Ret r => stat_enoent fs (snd r) = true /\
             exists k, r = unique_candidate directory baseName ext k
  | Throw (FsError e) => e <> ENOENT /\
             exists k, fs_stat fs (snd (unique_candidate directory baseName ext k)) = inr e
  | Throw Diverged => True
  end.
Proof.
  induction fuel as [|fuel IH]; intros a log fs' log' o Hrun.
  - cbn in Hrun. injection Hrun as <- <- <-. split; [reflexivity|].
    split; [exists []; rewrite app_nil_r; split; reflexivity|exact I].
  - cbn [unique_loop] in Hrun. unfold io_bind, io_try, io_stat in Hrun.
    destruct (fs_stat fs _) as [st|e] eqn:Est.
    + rewrite cand_base_suffixed in Hrun.
      destruct (IH (S a) _ _ _ _ Hrun) as [-> [[ops [-> Hops]] Ho]].
      split; [reflexivity|]. split; [|exact Ho].
      exists (OpStat (NodePath.join directory (cand_base baseName a +:+ ext)) :: ops).
      rewrite <- app_assoc. split; [reflexivity|exact Hops].
    + destruct e as [|code]; cbn in Hrun; injection Hrun as <- <- <-;
        (split; [reflexivity|]);
        (split; [exists [OpStat (NodePath.join directory (cand_base baseName a +:+ ext))];
                 split; reflexivity|]).
      * split; [unfold stat_enoent; exact (f_equal (fun r => match r with inr ENOENT => true | _ => false end) Est)|].
        exists a. reflexivity.
      * split; [discriminate|]. exists a. exact Est.
Qed.

Lemma final_loop_safe (fs : FS) (directory rawTitle ext : string) (currentPath : option string) :
  forall fuel a log fs' log' o,
  final_loop fuel directory (sanitizeFilename rawTitle)
    (if JS.starts_with "." ext then ext else "." +:+ ext) currentPath a (fs, log)
  = ((fs', log'), o) ->
  fs' = fs /\ (exists ops, log' = (log ++ ops)%list /\ forallb not_rename ops = true) /\
  match o with
  | Ret r => (exists k, r = final_candidate directory rawTitle ext k) /\
             ((exists cur, currentPath = Some cur /\ cur <> "" /\
                           path_resolve r = path_resolve cur) \/
              stat_enoent fs r = true)
  | Throw (FsError e) => e <> ENOENT
  | Throw Diverged => True
  end.
Proof.
  induction fuel as [|fuel IH]; intros a log fs' log' o Hrun.
  - cbn in Hrun. injection Hrun as <- <- <-. split; [reflexivity|].
    split; [exists []; rewrite app_nil_r; split; reflexivity|exact I].
  - cbn [final_loop] in Hrun.
    replace (match a with O => sanitizeFilename rawTitle
             | S _ => suffixed (sanitizeFilename rawTitle) a end)
      with (cand_base (sanitizeFilename rawTitle) a) in Hrun by (destruct a; reflexivity).
    fold (final_candidate directory rawTitle ext a) in Hrun.
    set (cand := final_candidate directory rawTitle ext a) in Hrun.
    assert (Hprobe :
      (let! r := io_try (io_stat cand) in
       match r with
       | inl _ => final_loop fuel directory (sanitizeFilename rawTitle)
                    (if JS.starts_with "." ext then ext else "." +:+ ext) currentPath (S a)
       | inr ENOENT => io_ret cand
       | inr e => io_throw e
       end) (fs, log) = ((fs', log'), o) ->
      fs' = fs /\ (exists ops, log' = (log ++ ops)%list /\ forallb not_rename ops = true) /\
      match o with
      | Ret r => (exists k, r = final_candidate directory rawTitle ext k) /\
                 ((exists cur, currentPath = Some cur /\ cur <> "" /\
                               path_resolve r = path_resolve cur) \/
                  stat_enoent fs r = true)
      | Throw (FsError e) => e <> ENOENT
      | Throw Diverged => True
      end).
    { intros Hr. unfold io_bind, io_try, io_stat in Hr.
      destruct (fs_stat fs cand) as [st|e] eqn:Est.
      - destruct (IH (S a) _ _ _ _ Hr) as [-> [[ops [-> Hops]] Ho]].
        split; [reflexivity|]. split; [|exact Ho].
        exists (OpStat cand :: ops). rewrite <- app_assoc. split; [reflexivity|exact Hops].
      - destruct e as [|code]; cbn in Hr; injection Hr as <- <- <-;
          (split; [reflexivity|]);
          (split; [exists [OpStat cand]; split; reflexivity|]).
        + split; [exists a; reflexivity|]. right. unfold stat_enoent. rewrite Est. reflexivity.
        + discriminate. }
    destruct currentPath as [cur|]; [|exact (Hprobe Hrun)].
    destruct (negb (String.eqb cur "") && String.eqb (path_resolve cand) (path_resolve cur))%bool
      eqn:Eq; [|exact (Hprobe Hrun)].
    cbn in Hrun. injection Hrun as <- <- <-.
    split; [reflexivity|].
    split; [exists []; rewrite app_nil_r; split; reflexivity|].
    apply andb_true_iff in Eq as [Hne Heq]. apply negb_true_iff, String.eqb_neq in Hne.
    apply String.eqb_eq in Heq.
    split; [exists a; reflexivity|]. left. exists cur. auto.
Qed.

End ResolverSafety.

Section ReadOnlyProofs.
Context {FS : Type} `{FileSystem FS}.

Lemma ro_ret {A} (a : A) : read_only (FS:=FS) (io_ret a).
Proof.
  intros fs log fs' log' o Hm. injection Hm as <- <- _.
  split; [reflexivity|]. exists []. rewrite app_nil_r. split; reflexivity.
Qed.

Lemma ro_throw {A} (e : fs_error) : read_only (FS:=FS) (A:=A) (io_throw e).
Proof.
  intros fs log fs' log' o Hm. injection Hm as <- <- _.
  split; [reflexivity|]. exists []. rewrite app_nil_r. split; reflexivity.
Qed.

Lemma ro_stat (p : string) : read_only (FS:=FS) (io_stat p).
Proof.
  intros fs log fs' log' o Hm. unfold io_stat in Hm.
  destruct (fs_stat fs p); injection Hm as <- <- _;
    (split; [reflexivity|]); exists [OpStat p]; split; reflexivity.
Qed.

Lemma ro_readdir (d : string) : read_only (FS:=FS) (io_readdir d).
Proof.
  intros fs log fs' log' o Hm. unfold io_readdir in Hm.
  destruct (fs_readdir fs d); injection Hm as <- <- _;
    (split; [reflexivity|]); exists [OpReaddir d]; split; reflexivity.
Qed.

Lemma ro_try {A} (m : @IO FS A) : read_only m -> read_only (io_try m).
Proof.
  intros Hm fs log fs' log' o Hr. unfold io_try in Hr.
  destruct (m (fs, log)) as [[fs1 log1] o1] eqn:E.
  apply Hm in E as [-> Hops].
  destruct o1 as [a|[e|]]; injection Hr as <- <- _; split; auto.
Qed.

Lemma ro_bind {A B} (m : @IO FS A) (k : A -> @IO FS B) :
  read_only m -> (forall a, read_only (k a)) -> read_only (io_bind m k).
Proof.
  intros Hm Hk fs log fs' log' o Hr. unfold io_bind in Hr.
  destruct (m (fs, log)) as [[fs1 log1] o1] eqn:E.
  apply Hm in E as [-> [ops1 [-> H1]]].
  destruct o1 as [a|e].
  - apply Hk in Hr as [-> [ops2 [-> H2]]]. split; [reflexivity|].
    exists (ops1 ++ ops2)%list. rewrite <- app_assoc. split; [reflexivity|].
    rewrite forallb_app, H1, H2. reflexivity.
  - injection Hr as <- <- _. split; [reflexivity|]. exists ops1. auto.
Qed.

Lemma ro_renames_to_free {A} (fs : FS) (m : @IO FS A) :
  read_only m -> renames_to_free fs m.
Proof.
  intros Hm log fs' log' o Hr. apply Hm in Hr as [_ [ops [-> Hops]]].
  exists ops. split; [reflexivity|]. intros src dst Hin.
  rewrite forallb_forall in Hops. specialize (Hops _ Hin). discriminate.
Qed.

Lemma rtf_bind_ro {A B} (fs : FS) (m : @IO FS A) (k : A -> @IO FS B) :
  read_only m -> (forall a, renames_to_free fs (k a)) -> renames_to_free fs (io_bind m k).
Proof.
  intros Hm Hk log fs' log' o Hr. unfold io_bind in Hr.
  destruct (m (fs, log)) as [[fs1 log1] o1] eqn:E.
  apply Hm in E as [-> [ops1 [-> H1]]].
  destruct o1 as [a|e].
  - apply Hk in Hr as [ops2 [-> H2]].
    exists (ops1 ++ ops2)%list. rewrite <- app_assoc. split; [reflexivity|].
    intros src dst Hin. apply in_app_or in Hin as [Hin|Hin]; [|exact (H2 _ _ Hin)].
    rewrite forallb_forall in H1. specialize (H1 _ Hin). discriminate.
  - injection Hr as <- <- _. exists ops1. split; [reflexivity|].
    intros src dst Hin. rewrite forallb_forall in H1. specialize (H1 _ Hin). discriminate.
Qed.

Lemma rtf_try {A} (fs : FS) (m : @IO FS A) :
  renames_to_free fs m -> renames_to_free fs (io_try m).
Proof.
  intros Hm log fs' log' o Hr. unfold io_try in Hr.
  destruct (m (fs, log)) as [[fs1 log1] o1] eqn:E.
  apply Hm in E as [ops [-> Hops]].
  destruct o1 as [a|[e|]]; injection Hr as <- <- _; exists ops; auto.
Qed.

Lemma rtf_bind_try_ret {A B} (fs : FS) (m : @IO FS A) (k : A + fs_error -> B) :
  renames_to_free fs m -> renames_to_free fs (io_bind (io_try m) (fun r => io_ret (k r))).
Proof.
  intros Hm log fs' log' o Hr. unfold io_bind in Hr.
  destruct (io_try m (fs, log)) as [[fs1 log1] o1] eqn:E.
  apply (rtf_try fs m Hm) in E as [ops [-> Hops]].
  destruct o1 as [a|e]; injection Hr as <- <- _; exists ops; auto.
Qed.

Lemma stat_all_ro (directory : string) (files : list string) :
  read_only (FS:=FS) (stat_all directory files).
Proof.
  induction files as [|f fs' IH]; cbn [stat_all]; [apply ro_ret|].
  apply ro_bind; [apply ro_stat|]. intros st.
  apply ro_bind; [exact IH|]. intros rest. apply ro_ret.
Qed.

Lemma find_latest_ro (directory ext : string) :
  read_only (FS:=FS) (find_latest directory ext).
Proof.
  unfold find_latest. apply ro_bind.
  - apply ro_try. apply ro_bind; [apply ro_readdir|]. intros files.
    destruct (filter _ files) as [|f0 fl]; [apply ro_ret|].
    apply ro_bind; [apply stat_all_ro|]. intros fileStats.
    destruct (sort_by_mtime_desc fileStats) as [|[f m] rest]; apply ro_ret.
  - intros [a|e]; apply ro_ret.
Qed.


Lemma rtf_bind_then_ro {A B} (fs : FS) (m : @IO FS A) (k : A -> @IO FS B) :
  renames_to_free fs m -> (forall a, read_only (k a)) -> renames_to_free fs (io_bind m k).
Proof.
  intros Hm Hk log fs' log' o Hr. unfold io_bind in Hr.
  destruct (m (fs, log)) as [[fs1 log1] o1] eqn:E.
  apply Hm in E as [ops1 [-> H1]].
  destruct o1 as [a|e].
  - apply Hk in Hr as [_ [ops2 [-> H2]]].
    exists (ops1 ++ ops2)%list. rewrite <- app_assoc. split; [reflexivity|].
    intros src dst Hin. apply in_app_or in Hin as [Hin|Hin]; [exact (H1 _ _ Hin)|].
    rewrite forallb_forall in H2. specialize (H2 _ Hin). discriminate.
  - injection Hr as <- <- _. exists ops1. auto.
Qed.

End ReadOnlyProofs.

Lemma finalize_rename_step_rtf {FS} `{FileSystem FS} (fs : FS) (fuel : nat)
    (directory desiredTitle ext actualFile : string) (task1 : DownloadTask) :
  renames_to_free fs
    (let! targetPath := ensureFinalFilePath fuel directory desiredTitle ext (Some actualFile) in
     if negb (String.eqb (path_resolve targetPath) (path_resolve actualFile))
     then
       let! _ := io_rename actualFile targetPath in
       io_ret (Some targetPath, set_outputFile (Some targetPath) task1)
     else io_ret (Some actualFile, task1)).
Proof.
  intros log fs' log' o Hr. unfold io_bind at 1 in Hr.
  destruct (ensureFinalFilePath fuel directory desiredTitle ext (Some actualFile) (fs, log))
    as [[fs1 log1] o1] eqn:E.
  unfold ensureFinalFilePath in E.
  destruct (final_loop_safe fs directory desiredTitle ext (Some actualFile) fuel 0 log _ _ _ E)
    as [-> [[ops1 [-> H1]] Ho]].
  destruct o1 as [target|e].
  - destruct Ho as [_ Hfree].
    destruct (String.eqb (path_resolve target) (path_resolve actualFile)) eqn:Eq; cbn in Hr.
    + injection Hr as <- <- _. exists ops1. split; [reflexivity|].
      intros src dst Hin. rewrite forallb_forall in H1. specialize (H1 _ Hin). discriminate.
    + unfold io_bind, io_rename in Hr.
      assert (Hdst : stat_enoent fs target = true).
      { destruct Hfree as [[cur [Hc [_ Hres]]]|Hf]; [|exact Hf].
        injection Hc as <-. rewrite Hres, String.eqb_refl in Eq. discriminate. }
      exists (ops1 ++ [OpRename actualFile target])%list.
      split.
      * destruct (fs_rename fs actualFile target); injection Hr as <- <- _;
          rewrite <- app_assoc; reflexivity.
      * intros src dst Hin. apply in_app_or in Hin as [Hin|[Hin|[]]].
        { rewrite forallb_forall in H1. specialize (H1 _ Hin). discriminate. }
        injection Hin as <- <-. split; [exact Hdst|].
        intros Hres. rewrite Hres, String.eqb_refl in Eq. discriminate.
  - injection Hr as <- <- _. exists ops1. split; [reflexivity|].
    intros src dst Hin. rewrite forallb_forall in H1. specialize (H1 _ Hin). discriminate.
Qed.

(** X1: [finalizeDownload] never overwrites a file.  The operations it
    adds to the log are stats, directory reads and renames, and every rename
    it performs goes to a destination that did not exist ([stat] failed with
    [ENOENT] in the file system the call started from) and that is not the
    source path itself. *)
Theorem finalizeDownload_never_overwrites {FS} `{FileSystem FS}
    (deriveTitleFromUrl : string -> string) (fuel : nat) (task : DownloadTask)
    (fs : FS) (log : list fs_op) fs' log' o :
  finalizeDownload deriveTitleFromUrl fuel task (fs, log) = ((fs', log'), o) ->
  exists ops, log' = (log ++ ops)%list /\
    forall src dst, In (OpRename src dst) ops ->
      stat_enoent fs dst = true /\ path_resolve dst <> path_resolve src.
Proof.
  revert log fs' log' o. fold (renames_to_free fs (finalizeDownload deriveTitleFromUrl fuel task)).
  unfold finalizeDownload.
  destruct (dt_outputFile task) as [out|]; [|apply ro_renames_to_free, ro_ret].
  destruct (dt_directory task) as [directory|]; [|apply ro_renames_to_free, ro_ret].
  destruct (String.eqb out "" || String.eqb directory "")%bool;
    [apply ro_renames_to_free, ro_ret|].
  apply rtf_bind_ro; [apply ro_try, ro_stat|]. intros r1.
  apply rtf_bind_ro.
  { destruct r1; [apply ro_ret|]. apply ro_bind; [apply ro_try, ro_stat|].
    intros [a|e]; apply ro_ret. }
  intros found2. apply rtf_bind_ro.
  { destruct found2; [apply ro_ret|apply find_latest_ro]. }
  intros [actualFile|]; [|apply ro_renames_to_free, ro_ret].
  apply rtf_bind_then_ro.
  - apply rtf_try. apply finalize_rename_step_rtf.
  - intros [x|e]; apply ro_ret.
Qed.

(** X2: [ensureUniqueOutputPath] (no force) only reads the file system,
    and a path it returns is a candidate [directory/base(k)ext] of the
    sanitised title (or of [video-<now>]) for which [stat] failed with
    [ENOENT]; if it throws a file-system error, that error is not [ENOENT]
    and is the one [stat] gave for some candidate. *)
Theorem ensureUniqueOutputPath_never_existing {FS} `{FileSystem FS}
    (fuel : nat) (now : Z) (directory : string) (rawTitle : option string) (ext : string)
    (fs : FS) (log : list fs_op) fs' log' o :
  ensureUniqueOutputPath fuel now directory rawTitle false ext (fs, log) = ((fs', log'), o) ->
  let baseName := sanitizeFilename
    (match rawTitle with Some t => t | None => "video-" +:+ pretty now end) in
  fs' = fs /\
  (forall r, o = Ret r ->
     stat_enoent fs (snd r) = true /\ exists k, r = unique_candidate directory baseName ext k) /\
  (forall e, o = Throw (FsError e) ->
     e <> ENOENT /\ exists k, fs_stat fs (snd (unique_candidate directory baseName ext k)) = inr e).
Proof.
  intros Hrun baseName. unfold ensureUniqueOutputPath in Hrun. fold baseName in Hrun.
  change baseName with (cand_base baseName 0) in Hrun at 2.
  destruct (unique_loop_safe fs directory baseName ext fuel 0 log fs' log' o Hrun)
    as [Hfs [_ Ho]].
  split; [exact Hfs|]. split; intros x ->; exact Ho.
Qed.

Lemma ensureUniqueOutputPath_never_existing_witness :
  stat_enoent [MemFS.file "/d/Song.mp3" 1] "/d/Song(1).mp3" = true.
Proof.
  destruct (@ensureUniqueOutputPath_never_existing MemFS.t MemFS.fs 10 0 "/d" (Some "Song") ".mp3"
              [MemFS.file "/d/Song.mp3" 1] [] [MemFS.file "/d/Song.mp3" 1]
              [OpStat "/d/Song.mp3"; OpStat "/d/Song(1).mp3"]
              (Ret ("/d/Song(1).%(ext)s", "/d/Song(1).mp3")) ltac:(vm_compute; reflexivity))
    as [_ [Hret _]].
  destruct (Hret _ eq_refl) as [Hfree _]. vm_compute in Hfree |- *. exact Hfree.
Defined.

Lemma finalizeDownload_never_overwrites_witness :
  stat_enoent m4a_fs "/d/Song.mp3" = true /\ path_resolve "/d/Song.mp3" <> path_resolve "/d/old.mp3".
Proof.
  destruct (@finalizeDownload_never_overwrites MemFS.t MemFS.fs (fun _ => "Song") 10 m4a_task
              m4a_fs [] [MemFS.file "/d/Song.mp3" 1; MemFS.file "/d/abc.m4a" 5]
              [OpStat "/d/abc.webm"; OpStat "/d/abc.mp3"; OpReaddir "/d"; OpStat "/d/old.mp3";
               OpStat "/d/Song.mp3"; OpRename "/d/old.mp3" "/d/Song.mp3"]
              (Ret (Some "/d/Song.mp3", set_outputFile (Some "/d/Song.mp3") m4a_task))
              ltac:(vm_compute; reflexivity)) as [ops [Hlog Hren]].
  apply Hren. cbn in Hlog. rewrite <- Hlog. do 5 right. left. reflexivity.
Defined.

(** X3: [ensureFinalFilePath] only reads the file system, and a path it
    returns is one of its candidates that either did not exist ([ENOENT]) or
    resolves to the current, non-empty path of the download; a file-system
    error it throws is never [ENOENT]. *)
Theorem ensureFinalFilePath_never_existing {FS} `{FileSystem FS}
    (fuel : nat) (directory rawTitle ext : string) (currentPath : option string)
    (fs : FS) (log : list fs_op) fs' log' o :
  ensureFinalFilePath fuel directory rawTitle ext currentPath (fs, log) = ((fs', log'), o) ->
  fs' = fs /\
  (forall r, o = Ret r ->
     (exists k, r = final_candidate directory rawTitle ext k) /\
     ((exists cur, currentPath = Some cur /\ cur <> "" /\ path_resolve r = path_resolve cur) \/
      stat_enoent fs r = true)) /\
  (forall e, o = Throw (FsError e) -> e <> ENOENT).
Proof.
  intros Hrun. unfold ensureFinalFilePath in Hrun.
  destruct (final_loop_safe fs directory rawTitle ext currentPath fuel 0 log fs' log' o Hrun)
    as [Hfs [_ Ho]].
  split; [exact Hfs|]. split; intros x ->; exact Ho.
Qed.

Lemma ensureFinalFilePath_never_existing_witness :
  stat_enoent [MemFS.file "/d/Song.mp3" 1] "/d/Song(1).mp3" = true.
Proof.
  destruct (@ensureFinalFilePath_never_existing MemFS.t MemFS.fs 10 "/d" "Song" "mp3" None
              [MemFS.file "/d/Song.mp3" 1] [] [MemFS.file "/d/Song.mp3" 1]
              [OpStat "/d/Song.mp3"; OpStat "/d/Song(1).mp3"]
              (Ret "/d/Song(1).mp3") ltac:(vm_compute; reflexivity))
    as [_ [Hret _]].
  destruct (Hret _ eq_refl) as [_ [[cur [Hc _]]|Hfree]]; [discriminate|exact Hfree].
Defined.

(** The [next] settings [updateSettings] builds. *)
Definition merge_settings `{StringToNumber} (partial : PartialSettings) (current : CachedSettings)
  : CachedSettings :=
  {| cs_downloadDir :=
       match ps_downloadDir partial with Some d => d | None => cs_downloadDir current end;
     cs_maxConcurrentDownloads :=
       match ps_maxConcurrentDownloads partial with
       | JUndefined => cs_maxConcurrentDownloads current
       | m => clampConcurrentDownloads m
       end |}.

Definition store_ok (st : SettingsStore) : Prop :=
  match settingsCache st with
  | Some c => (1 <= cs_maxConcurrentDownloads c <= 10)%Z
  | None => True
  end.

Section SettingsProofs.
Context `{StringToNumber}.

Lemma Math_round_int (k : Z) : Math_round (Dec k 0) = k.
Proof.
  unfold Math_round. cbn [mant scale Z.of_nat]. rewrite Z.pow_0_r.
  symmetry. apply Z.div_unique with 1%Z; lia.
Qed.

Lemma clamp_int (k : Z) : (1 <= k <= 10)%Z ->
  clampConcurrentDownloads (JNumber (Fin (Dec k 0))) = k.
Proof.
  intros Hk. unfold clampConcurrentDownloads. cbn [Number]. rewrite Math_round_int. lia.
Qed.

Lemma clamp_range (v : JSVal) : (1 <= clampConcurrentDownloads v <= 10)%Z.
Proof.
  unfold clampConcurrentDownloads, default_maxConcurrentDownloads. destruct (Number v); lia.
Qed.

Lemma loadSettings_ok (st : SettingsStore) :
  store_ok st ->
  let '(st', c) := loadSettings st in
  settingsCache st' = Some c /\ settingsFile st' = settingsFile st /\
  writable st' = writable st /\ (1 <= cs_maxConcurrentDownloads c <= 10)%Z.
Proof.
  unfold store_ok, loadSettings. destruct (settingsCache st) as [c|] eqn:Ec.
  - intros Hc. auto.
  - intros _. cbn. repeat split; try reflexivity;
      destruct (settingsFile st) as [| |dir max];
      try (cbn; unfold default_maxConcurrentDownloads; lia);
      destruct max; cbn; try (unfold default_maxConcurrentDownloads; lia);
      apply clamp_range.
Qed.

Lemma loadSettings_cached (st : SettingsStore) (c : CachedSettings) :
  settingsCache st = Some c -> loadSettings st = (st, c).
Proof. unfold loadSettings. intros ->. reflexivity. Qed.

Lemma loadSettings_written (st : SettingsStore) (s : CachedSettings) :
  settingsCache st = None -> settingsFile st = settings_json s ->
  snd (loadSettings st) =
    {| cs_downloadDir := cs_downloadDir s;
       cs_maxConcurrentDownloads :=
         clampConcurrentDownloads (JNumber (Fin (Dec (cs_maxConcurrentDownloads s) 0))) |}.
Proof.
  unfold loadSettings. intros -> ->. cbn. destruct (cs_downloadDir s); reflexivity.
Qed.

Lemma updateSettings_shape (partial : PartialSettings) (st : SettingsStore) st2 r :
  updateSettings partial st = (st2, r) ->
  let '(st1, current) := loadSettings st in
  let next := merge_settings partial current in
  settingsCache st2 = Some next /\ writable st2 = writable st1 /\
  (if writable st1
   then settingsFile st2 = settings_json next /\ r = Resolved next
   else settingsFile st2 = settingsFile st1 /\ r = Rejected).
Proof.
  unfold updateSettings. destruct (loadSettings st) as [st1 current].
  unfold persistSettings. destruct (writable st1) eqn:Ew; intros Heq; inversion Heq; subst;
    cbn; rewrite ?Ew; auto.
Qed.

End SettingsProofs.

(** X4: When the [settings:set-max-concurrent-downloads] handler
    resolves with [r] (from a store whose cache and file are consistent),
    [r] is the clamped request (when one is given), lies in [1..10], and both
    [settings:get-max-concurrent-downloads] and a fresh load after a restart
    return [r]; the download directory is unchanged, before and after the
    restart. *)
Theorem settings_set_max_roundtrip `{StringToNumber} (count : JSVal) (st st1 : SettingsStore) (r : Z) :
  store_ok st ->
  settings_set_max count st = (st1, Resolved r) ->
  (count <> JUndefined -> r = clampConcurrentDownloads count) /\
  (1 <= r <= 10)%Z /\ store_ok st1 /\
  snd (settings_get_max st1) = r /\
  snd (settings_get_max (restart st1)) = r /\
  snd (settings_get_download_dir st1) = snd (settings_get_download_dir st) /\
  snd (settings_get_download_dir (restart st1)) = snd (settings_get_download_dir st).
Proof.
  intros Hok Hrun. unfold settings_set_max in Hrun.
  destruct (updateSettings _ st) as [st2 res] eqn:Eu.
  pose proof (updateSettings_shape _ _ _ _ Eu) as Hs.
  pose proof (loadSettings_ok st Hok) as Hl.
  unfold settings_get_download_dir at 2 4.
  destruct (loadSettings st) as [st0 current] eqn:El.
  destruct Hl as [Hc0 [Hf0 [Hw0 Hr0]]].
  destruct Hs as [Hc2 [Hw2 Hfile]].
  set (next := merge_settings _ current) in *.
  destruct (writable st0); destruct Hfile as [Hf2 ->]; [|discriminate].
  injection Hrun as <- <-. cbn [snd].
  assert (Hnr : (1 <= cs_maxConcurrentDownloads next <= 10)%Z).
  { subst next. unfold merge_settings. cbn [cs_maxConcurrentDownloads ps_maxConcurrentDownloads].
    destruct count; first [exact Hr0 | apply clamp_range]. }
  split; [intros Hu; subst next; unfold merge_settings; cbn [cs_maxConcurrentDownloads ps_maxConcurrentDownloads];
           destruct count; [contradiction|reflexivity..]|].
  split; [exact Hnr|]. split; [unfold store_ok; rewrite Hc2; exact Hnr|].
  unfold settings_get_max, settings_get_download_dir.
  rewrite (loadSettings_cached _ _ Hc2).
  destruct (loadSettings (restart st2)) as [st3 c3] eqn:E3.
  pose proof (loadSettings_written (restart st2) next eq_refl Hf2) as Hw.
  rewrite E3 in Hw. cbn [snd] in Hw |- *. subst c3. cbn [cs_downloadDir cs_maxConcurrentDownloads].
  rewrite (clamp_int _ Hnr), (clamp_int _ Hnr).
  subst next; unfold merge_settings; cbn [cs_downloadDir cs_maxConcurrentDownloads ps_maxConcurrentDownloads ps_downloadDir].
  destruct count; repeat split; reflexivity.
Qed.

Lemma settings_set_max_roundtrip_witness :
  (1 <= 4 <= 10)%Z /\ snd (@settings_get_max nan_strings (restart {| settingsCache := None;
      settingsFile := SettingsJson (Some None) (JNumber (Fin (Dec 4 0))); writable := true |})) = 4%Z.
Proof.
  destruct (@settings_set_max_roundtrip nan_strings (JNumber (Fin (Dec 37 1)))
    {| settingsCache := None; settingsFile := NoSettingsFile; writable := true |}
    {| settingsCache := Some {| cs_downloadDir := None; cs_maxConcurrentDownloads := 4 |};
       settingsFile := SettingsJson (Some None) (JNumber (Fin (Dec 4 0))); writable := true |}
    4 I eq_refl) as [_ [Hr [_ [_ [Hrs _]]]]].
  split; [exact Hr|exact Hrs].
Defined.

(** X5: When the [settings:set-download-dir] handler resolves with [r],
    [r] is [null] for a missing or blank argument and the resolved path
    otherwise; [settings:get-download-dir] returns [r], also after a restart,
    and the concurrency limit is unchanged. *)
Theorem settings_set_download_dir_roundtrip `{StringToNumber} (resolve : string -> string)
    (dir : option string) (st st1 : SettingsStore) (r : option string) :
  settings_set_download_dir resolve dir st = (st1, Resolved r) ->
  r = match dir with
      | Some d => if String.eqb (JS.trim d) "" then None else Some (resolve d)
      | None => None
      end /\
  snd (settings_get_download_dir st1) = r /\
  snd (settings_get_download_dir (restart st1)) = r /\
  snd (settings_get_max st1) = snd (settings_get_max st) /\
  snd (settings_get_max (restart st1)) = snd (settings_get_max st).
Proof.
  intros Hrun. unfold settings_set_download_dir in Hrun.
  destruct (updateSettings _ st) as [st2 res] eqn:Eu.
  pose proof (updateSettings_shape _ _ _ _ Eu) as Hs.
  unfold settings_get_max at 2 4.
  destruct (loadSettings st) as [st0 current] eqn:El.
  destruct Hs as [Hc2 [Hw2 Hfile]].
  set (next := merge_settings _ current) in *.
  destruct (writable st0); destruct Hfile as [Hf2 ->]; [|discriminate].
  injection Hrun as <- <-. cbn [snd].
  unfold settings_get_max, settings_get_download_dir.
  rewrite (loadSettings_cached _ _ Hc2).
  destruct (loadSettings (restart st2)) as [st3 c3] eqn:E3.
  pose proof (loadSettings_written (restart st2) next eq_refl Hf2) as Hw.
  rewrite E3 in Hw. cbn [snd] in Hw |- *. subst c3. cbn [cs_downloadDir cs_maxConcurrentDownloads].
  rewrite (clamp_int _ (clamp_range _)).
  subst next; unfold merge_settings;
    cbn [cs_downloadDir cs_maxConcurrentDownloads ps_maxConcurrentDownloads ps_downloadDir].
  repeat split; reflexivity.
Qed.

Lemma settings_set_download_dir_roundtrip_witness :
  snd (@settings_get_download_dir nan_strings (restart
    {| settingsCache := Some {| cs_downloadDir := Some "/home/u/Videos"; cs_maxConcurrentDownloads := 3 |};
       settingsFile := SettingsJson (Some (Some "/home/u/Videos")) (JNumber (Fin (Dec 3 0)));
       writable := true |})) = Some "/home/u/Videos".
Proof.
  destruct (@settings_set_download_dir_roundtrip nan_strings (fun d => "/home/u/" +:+ d)
    (Some "Videos")
    {| settingsCache := None; settingsFile := NoSettingsFile; writable := true |}
    {| settingsCache := Some {| cs_downloadDir := Some "/home/u/Videos"; cs_maxConcurrentDownloads := 3 |};
       settingsFile := SettingsJson (Some (Some "/home/u/Videos")) (JNumber (Fin (Dec 3 0)));
       writable := true |}
    (Some "/home/u/Videos") eq_refl) as [_ [_ [Hd _]]].
  exact Hd.
Defined.

(** X6: When writing the settings file fails, the
    [settings:set-max-concurrent-downloads] handler rejects, but the cache
    already holds the new clamped limit, so the running process reports it,
    while after a restart the store is exactly as it was before the call. *)
Theorem settings_set_max_write_failure `{StringToNumber} (count : JSVal) (st st1 : SettingsStore) :
  settings_set_max count st = (st1, Rejected) ->
  writable st = false /\ restart st1 = restart st /\
  (count <> JUndefined -> snd (settings_get_max st1) = clampConcurrentDownloads count).
Proof.
  intros Hrun. unfold settings_set_max in Hrun.
  destruct (updateSettings _ st) as [st2 res] eqn:Eu.
  pose proof (updateSettings_shape _ _ _ _ Eu) as Hs.
  assert (Hl : fst (loadSettings st) = st \/ fst (loadSettings st) = with_cache (Some (snd (loadSettings st))) st).
  { unfold loadSettings. destruct (settingsCache st); [left|right]; reflexivity. }
  destruct (loadSettings st) as [st0 current] eqn:El. cbn [fst snd] in Hl.
  destruct Hs as [Hc2 [Hw2 Hfile]].
  set (next := merge_settings _ current) in *.
  assert (Hw0 : writable st0 = writable st /\ settingsFile st0 = settingsFile st)
    by (destruct Hl as [->| ->]; split; reflexivity).
  destruct (writable st0) eqn:Ew0; destruct Hfile as [Hf2 ->]; [discriminate|].
  injection Hrun as <-. destruct Hw0 as [Hw0 Hf0].
  split; [congruence|]. split.
  - unfold restart, with_cache. f_equal; congruence.
  - intros Hu. unfold settings_get_max. rewrite (loadSettings_cached _ _ Hc2). cbn [snd].
    subst next; unfold merge_settings; cbn [cs_maxConcurrentDownloads ps_maxConcurrentDownloads].
    destruct count; [contradiction|apply clamp_int, clamp_range..].
Qed.

Lemma settings_set_max_write_failure_witness :
  writable {| settingsCache := None; settingsFile := NoSettingsFile; writable := false |} = false.
Proof.
  destruct (@settings_set_max_write_failure nan_strings (JNumber (Fin (Dec 5 0)))
    {| settingsCache := None; settingsFile := NoSettingsFile; writable := false |}
    {| settingsCache := Some {| cs_downloadDir := None; cs_maxConcurrentDownloads := 5 |};
       settingsFile := NoSettingsFile; writable := false |} eq_refl) as [Hw _].
  exact Hw.
Defined.

Lemma insert_by_mtime_head (x : string * Z) (acc : list (string * Z)) :
  exists r, insert_by_mtime x acc =
    (match acc with [] => x | y :: _ => if Z.ltb (snd y) (snd x) then x else y end) :: r.
Proof.
  destruct acc as [|y acc]; cbn; [eexists; reflexivity|].
  destruct (Z.ltb (snd y) (snd x)); eexists; reflexivity.
Qed.

Lemma fold_insert_head (l : list (string * Z)) :
  forall c acc, exists r,
    fold_left (fun acc x => insert_by_mtime x acc) l (c :: acc) = first_max c l :: r.
Proof.
  induction l as [|x l IH]; intros c acc; cbn [fold_left first_max]; [eexists; reflexivity|].
  destruct (insert_by_mtime_head x (c :: acc)) as [r Hr]. rewrite Hr. apply IH.
Qed.

Lemma sort_by_mtime_desc_head (x : string * Z) (l : list (string * Z)) :
  exists r, sort_by_mtime_desc (x :: l) = first_max x l :: r.
Proof. unfold sort_by_mtime_desc. cbn. apply fold_insert_head. Qed.

Lemma sort_by_mtime_desc_nil : sort_by_mtime_desc [] = [].
Proof. reflexivity. Qed.

Lemma first_max_spec (l : list (string * Z)) :
  forall c, exists pre post,
    c :: l = (pre ++ first_max c l :: post)%list /\
    Forall (fun y => snd y < snd (first_max c l))%Z pre /\
    Forall (fun y => snd y <= snd (first_max c l))%Z (c :: l).
Proof.
  induction l as [|x l IH]; intros c; cbn [first_max].
  - exists [], []. split; [reflexivity|]. split; [constructor|]. repeat constructor. lia.
  - set (r := first_max _ l).
    destruct (Z.ltb (snd c) (snd x)) eqn:Hlt.
    + apply Z.ltb_lt in Hlt. destruct (IH x) as [pre [post [Heq [Hpre Hall]]]]. fold r in Heq, Hpre, Hall.
      exists (c :: pre), post. rewrite Heq. split; [reflexivity|].
      inversion Hall as [|? ? Hx Hl]; subst.
      split; [constructor; [lia|exact Hpre]|]. constructor; [lia|]. rewrite <- Heq. exact Hall.
    + apply Z.ltb_ge in Hlt. destruct (IH c) as [pre [post [Heq [Hpre Hall]]]]. fold r in Heq, Hpre, Hall.
      inversion Hall as [|? ? Hc Hl]; subst.
      destruct pre as [|c0 pre].
      * cbn in Heq. injection Heq as Hc' _.
        exists [], (x :: l). split; [cbn; rewrite Hc'; reflexivity|]. split; [constructor|].
        constructor; [exact Hc|]. constructor; [rewrite <- Hc'; exact Hlt|exact Hl].
      * cbn in Heq. injection Heq as <- Hl'.
        rewrite Forall_cons in Hpre. destruct Hpre as [Hc0 Hpre'].
        exists (c :: x :: pre), post. cbn. rewrite Hl'. split; [reflexivity|].
        split; [constructor; [lia|constructor; [lia|exact Hpre']]|].
        constructor; [lia|]. constructor; [lia|]. rewrite <- Hl'; exact Hl.
Qed.

Section FindLatest.
Context {FS : Type} `{FileSystem FS}.

Lemma stat_all_spec (directory : string) (files : list string) :
  forall fs log fs' log' L,
  stat_all directory files (fs, log) = ((fs', log'), Ret L) ->
  fs' = fs /\
  Forall2 (fun f e => exists st, fs_stat fs (NodePath.join directory f) = inl st /\
                                 e = (NodePath.join directory f, st_mtime st)) files L.
Proof.
  induction files as [|f files IH]; intros fs log fs' log' L Hrun; cbn in Hrun.
  - injection Hrun as <- <- <-. split; [reflexivity|constructor].
  - unfold io_bind, io_stat at 1 in Hrun.
    destruct (fs_stat fs (NodePath.join directory f)) as [st|e] eqn:Est; [|discriminate].
    destruct (stat_all directory files (fs, (log ++ [OpStat (NodePath.join directory f)])%list))
      as [[fs1 log1] [L1|e]] eqn:E1; [|discriminate].
    apply IH in E1 as [-> HL1]. unfold io_ret in Hrun. injection Hrun as <- <- <-.
    split; [reflexivity|]. constructor; [|exact HL1]. exists st. split; [exact Est|reflexivity].
Qed.

End FindLatest.

(** X9: The third method of [finalizeDownload]: when the search of the
    output directory returns a path, the file system is unchanged, and the
    path is the first, in directory order, of the files with the expected
    extension of largest modification time: no such file is newer and none
    before it is as new. *)
Theorem find_latest_newest {FS} `{FileSystem FS} (directory expectedExt : string)
    (fs : FS) (log : list fs_op) fs' log' (p : string) :
  find_latest directory expectedExt (fs, log) = ((fs', log'), Ret (Some p)) ->
  fs' = fs /\
  exists files, fs_readdir fs directory = inl files /\
  exists pre f post st,
    filter (fun f => JS.ends_with expectedExt f = true) files = (pre ++ f :: post)%list /\
    p = NodePath.join directory f /\
    fs_stat fs p = inl st /\
    (forall g, In g (pre ++ f :: post)%list -> exists st',
       fs_stat fs (NodePath.join directory g) = inl st' /\ (st_mtime st' <= st_mtime st)%Z) /\
    (forall g, In g pre -> exists st',
       fs_stat fs (NodePath.join directory g) = inl st' /\ (st_mtime st' < st_mtime st)%Z).
Proof.
  intros Hrun. unfold find_latest, io_bind, io_try, io_readdir in Hrun.
  destruct (fs_readdir fs directory) as [files|e] eqn:Erd; [|discriminate].
  destruct (filter (fun f => JS.ends_with expectedExt f = true) files) as [|f0 fl] eqn:Ef;
    [discriminate|].
  destruct (stat_all directory (f0 :: fl) (fs, (log ++ [OpReaddir directory])%list))
    as [[fs1 log1] [L|e]] eqn:Es; [|destruct e; discriminate].
  apply stat_all_spec in Es as [-> HL].
  destruct L as [|x L]; [inversion HL|].
  destruct (sort_by_mtime_desc_head x L) as [rest Hs]. rewrite Hs in Hrun.
  destruct (first_max x L) as [fp m] eqn:Efm. unfold io_ret in Hrun.
  injection Hrun as <- _ <-. split; [reflexivity|].
  exists files. split; [reflexivity|].
  destruct (first_max_spec L x) as [preL [postL [HeqL [HpreL HallL]]]].
  rewrite Efm in HeqL, HpreL, HallL. cbn [snd] in HpreL, HallL. rewrite HeqL in HL.
  apply Forall2_app_inv_r in HL as [pre [rest' [Hpre [Hrest Hfl]]]].
  inversion Hrest as [|f ? post ? [st [Hst Hfe]] Hpost]; subst.
  injection Hfe as -> ->.
  exists pre, f, post, st. split; [rewrite Ef, Hfl; reflexivity|]. split; [reflexivity|]. split; [exact Hst|].
  assert (Hgen : forall g, In g (pre ++ f :: post)%list -> exists st',
             fs_stat fs (NodePath.join directory g) = inl st' /\
             In (NodePath.join directory g, st_mtime st') (x :: L)).
  { intros g Hg. rewrite HeqL.
    assert (HF : Forall2 (fun f e => exists st, fs_stat fs (NodePath.join directory f) = inl st /\
                                 e = (NodePath.join directory f, st_mtime st))
                   (pre ++ f :: post)%list (preL ++ (NodePath.join directory f, st_mtime st) :: postL)%list).
    { apply Forall2_app; [exact Hpre|]. constructor; [exists st; split; [exact Hst|reflexivity]|exact Hpost]. }
    apply list_elem_of_In in Hg. destruct (list_elem_of_lookup_1 _ _ Hg) as [i Hi].
    destruct (Forall2_lookup_l _ _ _ i g HF Hi) as [e [He [st' [Hst' ->]]]].
    exists st'. split; [exact Hst'|]. apply list_elem_of_In. eapply list_elem_of_lookup_2. exact He. }
  split.
  - intros g Hg. destruct (Hgen g Hg) as [st' [Hst' Hin]]. exists st'. split; [exact Hst'|].
    rewrite Forall_forall in HallL. exact (HallL _ (proj2 (list_elem_of_In _ _) Hin)).
  - intros g Hg.
    assert (Hg' : In g (pre ++ f :: post)%list) by (apply in_or_app; left; exact Hg).
    apply list_elem_of_In in Hg. destruct (list_elem_of_lookup_1 _ _ Hg) as [i Hi].
    destruct (Forall2_lookup_l _ _ _ i g Hpre Hi) as [e [He [st' [Hst' ->]]]].
    exists st'. split; [exact Hst'|].
    rewrite Forall_forall in HpreL. apply (HpreL (NodePath.join directory g, st_mtime st')).
    eapply list_elem_of_lookup_2. exact He.
Qed.

Lemma find_latest_newest_witness :
  exists files, fs_readdir
    [MemFS.file "/d/a.mp4" 2; MemFS.file "/d/b.mp4" 5; MemFS.file "/d/c.mp4" 5;
     MemFS.file "/d/x.txt" 9] "/d" = inl files.
Proof.
  destruct (@find_latest_newest MemFS.t MemFS.fs "/d" ".mp4"
    [MemFS.file "/d/a.mp4" 2; MemFS.file "/d/b.mp4" 5; MemFS.file "/d/c.mp4" 5;
     MemFS.file "/d/x.txt" 9] []
    [MemFS.file "/d/a.mp4" 2; MemFS.file "/d/b.mp4" 5; MemFS.file "/d/c.mp4" 5;
     MemFS.file "/d/x.txt" 9]
    [OpReaddir "/d"; OpStat "/d/a.mp4"; OpStat "/d/b.mp4"; OpStat "/d/c.mp4"]
    "/d/b.mp4" ltac:(vm_compute; reflexivity)) as [_ [files [Hrd _]]].
  exists files. exact Hrd.
Defined.

Lemma find_app_first {A} (p : A -> bool) (l1 l2 : list A) :
  find p (l1 ++ l2)%list = match find p l1 with Some y => Some y | None => find p l2 end.
Proof. induction l1 as [|a l1 IH]; cbn; [reflexivity|]. destruct (p a); [reflexivity|exact IH]. Qed.

Lemma find_none_of_all {A} (p : A -> bool) (l : list A) :
  (forall x, In x l -> p x = false) -> find p l = None.
Proof.
  induction l as [|a l IH]; intros Hl; cbn; [reflexivity|].
  rewrite (Hl a (or_introl eq_refl)). apply IH. intros x Hx. apply Hl. right. exact Hx.
Qed.

Lemma insert_by_height_in (x y : VideoFormat) (l : list VideoFormat) :
  In y (insert_by_height x l) <-> x = y \/ In y l.
Proof.
  induction l as [|z l IH]; cbn; [tauto|].
  destruct (Z.ltb _ _); cbn; [tauto|]. rewrite IH. tauto.
Qed.

Lemma insert_by_height_sorted (x : VideoFormat) (l : list VideoFormat) :
  StronglySorted height_le l -> StronglySorted height_le (insert_by_height x l).
Proof.
  induction l as [|z l IH]; intros Hs; cbn.
  - repeat constructor.
  - apply StronglySorted_inv in Hs as [Hl Hz].
    destruct (Z.ltb (height_or_0 z) (height_or_0 x)) eqn:Hlt.
    + apply Z.ltb_lt in Hlt. constructor; [constructor; assumption|].
      constructor; [unfold height_le; lia|].
      eapply Forall_impl; [exact Hz|]. unfold height_le. intros w Hw. lia.
    + apply Z.ltb_ge in Hlt. constructor; [apply IH, Hl|].
      apply List.Forall_forall. intros w Hw. apply insert_by_height_in in Hw as [<-|Hw].
      * unfold height_le. lia.
      * rewrite List.Forall_forall in Hz. apply Hz. exact Hw.
Qed.

Lemma find_insert_by_height (k : Z) (x : VideoFormat) (l : list VideoFormat) :
  StronglySorted height_le l ->
  find (fun g => Z.eqb (height_or_0 g) k) (insert_by_height x l) =
  match find (fun g => Z.eqb (height_or_0 g) k) l with
  | Some y => Some y
  | None => if Z.eqb (height_or_0 x) k then Some x else None
  end.
Proof.
  induction l as [|z l IH]; intros Hs; cbn; [reflexivity|].
  apply StronglySorted_inv in Hs as [Hl Hz].
  destruct (Z.ltb (height_or_0 z) (height_or_0 x)) eqn:Hlt.
  - apply Z.ltb_lt in Hlt. cbn.
    destruct (Z.eqb (height_or_0 x) k) eqn:Hx.
    + apply Z.eqb_eq in Hx. subst k.
      replace (Z.eqb (height_or_0 z) (height_or_0 x)) with false by (symmetry; apply Z.eqb_neq; lia).
      replace (find (fun g => Z.eqb (height_or_0 g) (height_or_0 x)) l) with (@None VideoFormat);
        [reflexivity|].
      symmetry. apply find_none_of_all. intros w Hw. apply Z.eqb_neq.
      rewrite List.Forall_forall in Hz. specialize (Hz w Hw). unfold height_le in Hz. lia.
    + destruct (Z.eqb (height_or_0 z) k); [reflexivity|].
      destruct (find _ l); reflexivity.
  - cbn. destruct (Z.eqb (height_or_0 z) k); [reflexivity|]. apply IH, Hl.
Qed.

Lemma fold_insert_by_height (l : list VideoFormat) :
  forall acc, StronglySorted height_le acc ->
  let r := fold_left (fun acc x => insert_by_height x acc) l acc in
  StronglySorted height_le r /\
  (forall y, In y r <-> In y (acc ++ l)%list) /\
  (forall k, find (fun g => Z.eqb (height_or_0 g) k) r =
             find (fun g => Z.eqb (height_or_0 g) k) (acc ++ l)%list).
Proof.
  induction l as [|x l IH]; intros acc Hs; cbn [fold_left].
  - rewrite app_nil_r. split; [exact Hs|]. split; intros; reflexivity.
  - destruct (IH (insert_by_height x acc) (insert_by_height_sorted x acc Hs)) as [H1 [H2 H3]].
    split; [exact H1|]. split.
    + intros y. rewrite H2, !in_app_iff, insert_by_height_in. cbn. tauto.
    + intros k. rewrite H3, !find_app_first, find_insert_by_height by exact Hs. cbn.
      destruct (find _ acc); [reflexivity|]. destruct (Z.eqb _ k); reflexivity.
Qed.

Lemma sort_by_height_desc_spec (l : list VideoFormat) :
  StronglySorted height_le (sort_by_height_desc l) /\
  (forall y, In y (sort_by_height_desc l) <-> In y l) /\
  (forall k, find (fun g => Z.eqb (height_or_0 g) k) (sort_by_height_desc l) =
             find (fun g => Z.eqb (height_or_0 g) k) l).
Proof. exact (fold_insert_by_height l [] (SSorted_nil _)). Qed.

Lemma dedupe_heights_in (S : list VideoFormat) :
  Forall has_height S ->
  forall seen x, In x (dedupe_heights seen S) <->
    In x S /\ existsb (Z.eqb (height_or_0 x)) seen = false /\
    find (fun g => Z.eqb (height_or_0 g) (height_or_0 x)) S = Some x.
Proof.
  induction S as [|f S IH]; intros Hh seen x; cbn [dedupe_heights].
  - cbn. tauto.
  - apply Forall_cons_iff in Hh as [[hf [Ef Hpos]] Hh].
    assert (Hkf : height_or_0 f = hf) by (unfold height_or_0; rewrite Ef; reflexivity).
    rewrite Ef. replace (Z.eqb hf 0) with false by (symmetry; apply Z.eqb_neq; lia). cbn [negb andb].
    cbn [find In].
    destruct (existsb (Z.eqb hf) seen) eqn:Eseen; cbn [negb].
    + rewrite IH by exact Hh. split.
      * intros [Hin [Hns Hfind]]. split; [right; exact Hin|]. split; [exact Hns|].
        replace (Z.eqb (height_or_0 f) (height_or_0 x)) with false; [exact Hfind|].
        symmetry. apply Z.eqb_neq. intros Heq. rewrite Hkf in Heq. rewrite <- Heq, Eseen in Hns.
        discriminate.
      * intros [Hin [Hns Hfind]].
        assert (Hne : height_or_0 f <> height_or_0 x).
        { intros Heq. rewrite Hkf in Heq. rewrite <- Heq, Eseen in Hns. discriminate. }
        rewrite (proj2 (Z.eqb_neq _ _) Hne) in Hfind.
        destruct Hin as [<-|Hin]; [contradiction|]. auto.
    + cbn [In]. rewrite IH by exact Hh. split.
      * intros [<-|[Hin [Hns Hfind]]].
        -- rewrite Hkf, Eseen, Z.eqb_refl. auto.
        -- cbn [existsb] in Hns. apply orb_false_iff in Hns as [Hx Hns].
           rewrite Hkf, Z.eqb_sym, Hx. auto.
      * intros [[<-|Hin] [Hns Hfind]]; [left; reflexivity|].
        destruct (Z.eqb (height_or_0 f) (height_or_0 x)) eqn:Ekx.
        -- injection Hfind as ->. left. reflexivity.
        -- right. split; [exact Hin|]. split; [|exact Hfind].
           cbn [existsb]. rewrite Hns, Z.eqb_sym, <- Hkf, Ekx. reflexivity.
Qed.

Lemma dedupe_heights_sublist (S : list VideoFormat) :
  forall seen x, In x (dedupe_heights seen S) -> In x S.
Proof.
  induction S as [|f S IH]; intros seen x; cbn; [tauto|].
  destruct (vf_height f) as [h|]; [destruct (_ && _)%bool; cbn|].
  all: intros Hx; try (destruct Hx as [<-|Hx]; [left; reflexivity|]); right; eapply IH; exact Hx.
Qed.

Lemma dedupe_heights_strict (S : list VideoFormat) :
  Forall has_height S -> StronglySorted height_le S ->
  forall seen, StronglySorted height_gt (dedupe_heights seen S).
Proof.
  intros Hh Hs. induction Hs as [|f S Hs IH Hf]; intros seen; cbn [dedupe_heights]; [constructor|].
  apply Forall_cons_iff in Hh as [[hf [Ef Hpos]] Hh].
  assert (Hkf : height_or_0 f = hf) by (unfold height_or_0; rewrite Ef; reflexivity).
  rewrite Ef. destruct (negb (Z.eqb hf 0) && negb (existsb (Z.eqb hf) seen))%bool; [|apply IH, Hh].
  constructor; [apply IH, Hh|].
  apply List.Forall_forall. intros z Hz.
  pose proof (proj1 (dedupe_heights_in S Hh (hf :: seen) z) Hz) as [Hin [Hns _]].
  rewrite List.Forall_forall in Hf. specialize (Hf z Hin). unfold height_le in Hf. unfold height_gt.
  cbn [existsb] in Hns. apply orb_false_iff in Hns as [Hne _]. apply Z.eqb_neq in Hne. lia.
Qed.

Lemma validFormats_has_height (round_times_1_3 : Z -> Z) (raw : list (option YtDlpFormat)) :
  Forall has_height (validFormats round_times_1_3 raw).
Proof.
  apply List.Forall_forall. intros v Hv. apply list_elem_of_In, list_elem_of_omap in Hv.
  destruct Hv as [[f|] [_ Hf]]; [|discriminate].
  destruct (format_is_valid (Some f)) eqn:Hval; [|discriminate].
  injection Hf as <-. unfold format_is_valid in Hval. unfold has_height. cbn [vf_height to_video_format].
  destruct (yf_height f) as [h|]; [|rewrite !andb_false_r in Hval; discriminate].
  exists h. split; [reflexivity|]. apply andb_true_iff in Hval as [_ Hval]. apply Z.ltb_lt, Hval.
Qed.

Lemma normalizeFormats_spec (round_times_1_3 : Z -> Z) (raw : list (option YtDlpFormat)) :
  let V := validFormats round_times_1_3 raw in
  (normalizeFormats round_times_1_3 (Some raw) = None <-> V = []) /\
  (forall R, normalizeFormats round_times_1_3 (Some raw) = Some R ->
     StronglySorted height_gt R /\ Forall has_height R /\
     (forall v, In v R <-> In v V /\ find (same_height v) V = Some v)).
Proof.
  intros V. unfold normalizeFormats. fold V.
  pose proof (validFormats_has_height round_times_1_3 raw) as Hh. fold V in Hh.
  destruct (sort_by_height_desc_spec V) as [Hs [Hin Hfind]].
  set (S := sort_by_height_desc V) in *.
  assert (HhS : Forall has_height S).
  { apply List.Forall_forall. intros x Hx. rewrite List.Forall_forall in Hh. apply Hh, Hin, Hx. }
  assert (Hchar : forall v, In v (dedupe_heights [] S) <-> In v V /\ find (same_height v) V = Some v).
  { intros v. rewrite dedupe_heights_in by exact HhS. rewrite Hin. unfold same_height.
    rewrite Hfind. cbn. tauto. }
  split.
  - split.
    + destruct (dedupe_heights [] S) as [|d ds] eqn:Ed; [|discriminate]. intros _.
      destruct V as [|x V'] eqn:EV; [reflexivity|]. exfalso.
      destruct (find (same_height x) (x :: V')) as [y|] eqn:Ey.
      * pose proof (find_some _ _ Ey) as [Hy Hxy]. unfold same_height in Hxy. apply Z.eqb_eq in Hxy.
        assert (Hyd : In y []).
        { apply (proj2 (Hchar y)). split; [exact Hy|]. unfold same_height in Ey |- *.
          rewrite Hxy. exact Ey. }
        exact Hyd.
      * cbn in Ey. unfold same_height in Ey. rewrite Z.eqb_refl in Ey. discriminate.
    + intros HV. assert (HS : S = []).
      { destruct S as [|s S'] eqn:ES; [reflexivity|]. exfalso.
        assert (Hs' : In s V) by (apply Hin; left; reflexivity). rewrite HV in Hs'. exact Hs'. }
      rewrite HS. reflexivity.
  - intros R HR. destruct (dedupe_heights [] S) as [|d ds] eqn:Ed; [discriminate|].
    injection HR as <-. split; [rewrite <- Ed; apply dedupe_heights_strict; assumption|].
    split; [|exact Hchar]. rewrite <- Ed.
    apply List.Forall_forall. intros x Hx. apply dedupe_heights_sublist in Hx.
    rewrite List.Forall_forall in HhS. apply HhS, Hx.
Qed.

(** X10: [normalizeFormats] returns [undefined] exactly when no format is
    valid; otherwise its list is strictly decreasing in height, every entry
    has a positive height, and it holds, for each height among the valid
    formats, the first valid format of that height, and nothing else. *)
Theorem normalizeFormats_one_per_height (round_times_1_3 : Z -> Z) (raw : list (option YtDlpFormat)) :
  let V := validFormats round_times_1_3 raw in
  (normalizeFormats round_times_1_3 (Some raw) = None <-> V = []) /\
  (forall R, normalizeFormats round_times_1_3 (Some raw) = Some R ->
     StronglySorted height_gt R /\ Forall has_height R /\
     (forall v, In v R <-> In v V /\ find (same_height v) V = Some v)).
Proof. exact (normalizeFormats_spec round_times_1_3 raw). Qed.

(** X11: The file size of [toVideoMetadata]: if some normalised format
    has a size, it is the size of a tallest format that has one; otherwise
    it is the video's [filesize] or [filesize_approx] fallback. *)
Theorem deriveFilesize_tallest_sized (round_times_1_3 : Z -> Z) (info_filesize info_filesize_approx : option Z)
    (raw : option (list (option YtDlpFormat))) :
  let formats := normalizeFormats round_times_1_3 raw in
  let fallback := match info_filesize with Some s => Some s | None => info_filesize_approx end in
  (exists R v, formats = Some R /\ In v R /\ num_truthy (vf_filesize v) = true /\
     deriveFilesize info_filesize info_filesize_approx formats = vf_filesize v /\
     forall w, In w R -> num_truthy (vf_filesize w) = true -> (height_or_0 w <= height_or_0 v)%Z) \/
  ((forall R w, formats = Some R -> In w R -> num_truthy (vf_filesize w) = false) /\
   deriveFilesize info_filesize info_filesize_approx formats = fallback).
Proof.
  intros formats fallback.
  assert (Hsorted : forall R, formats = Some R -> StronglySorted height_gt R).
  { intros R HR. destruct raw as [raw|]; [|discriminate].
    exact (proj1 (proj2 (normalizeFormats_spec round_times_1_3 raw) R HR)). }
  destruct formats as [R|] eqn:EF.
  2:{ right. split; [intros R w HR; discriminate|reflexivity]. }
  specialize (Hsorted R eq_refl).
  destruct (find (fun f => num_truthy (vf_filesize f)) R) as [v|] eqn:Ev.
  - left. exists R, v. pose proof (find_some _ _ Ev) as [Hv Hsz].
    split; [reflexivity|]. split; [exact Hv|]. split; [exact Hsz|]. split.
    + unfold deriveFilesize. destruct R as [|r R']; [destruct Hv|]. rewrite Ev, Hsz. reflexivity.
    + intros w Hw Hwsz. clear EF.
      induction Hsorted as [|r R' Hs IH Hr]; [destruct Hw|].
      cbn in Ev. destruct (num_truthy (vf_filesize r)) eqn:Er.
      * injection Ev as <-. destruct Hw as [<-|Hw]; [lia|].
        rewrite List.Forall_forall in Hr. specialize (Hr w Hw). unfold height_gt in Hr. lia.
      * destruct Hw as [<-|Hw]; [congruence|].
        destruct Hv as [<-|Hv]; [congruence|]. exact (IH Ev Hv Hw).
  - right. split.
    + intros R0 w HR0 Hw. injection HR0 as <-. exact (find_none _ _ Ev w Hw).
    + unfold deriveFilesize. destruct R; [reflexivity|]. rewrite Ev. reflexivity.
Qed.

Module QueueRunProofs.
Import Queue QueueRun.
Section P.
Context `{StringToNumber}.

Lemma step_pending (s : state) (e : event) :
  (taken s e ++ pendingQueue (step s e))%list =
  (pendingQueue s ++ match e with Start p => [p] | _ => [] end)%list.
Proof.
  destruct s as [a q c d]. unfold taken.
  destruct e; cbn; unfold processQueue, with_pending, with_drain, with_active, with_settings;
    cbn; rewrite ?app_nil_r; try reflexivity;
    destruct d; cbn; rewrite ?app_nil_r; try reflexivity.
  destruct (Z.leb _ _); [reflexivity|]. destruct q; reflexivity.
Qed.

Lemma step_active (s : state) (e : event) (id : string) (p : PendingTask) :
  activeDownloads (step s e) !! id = Some p ->
  activeDownloads s !! id = Some p \/ (drain s = Spawning p /\ pt_id p = id).
Proof.
  destruct s as [a q c d].
  destruct e; cbn; unfold processQueue, with_pending, with_drain, with_active, with_settings; cbn;
    try (destruct d; cbn; auto; fail).
  - intros Hl. left. destruct (String.eqb_spec id0 id) as [->|Hne].
    + rewrite lookup_delete_eq in Hl. discriminate.
    + rewrite lookup_delete_ne in Hl by congruence. exact Hl.
  - destruct d; cbn; auto. destruct (Z.leb _ _); cbn; auto. destruct q; cbn; auto.
  - destruct d; cbn; auto. intros Hl.
    destruct (String.eqb_spec (pt_id next) id) as [<-|Hne].
    + rewrite lookup_insert_eq in Hl. injection Hl as ->. right. auto.
    + rewrite lookup_insert_ne in Hl by exact Hne. left. exact Hl.
Qed.

Lemma step_spawning (s : state) (e : event) (p : PendingTask) :
  drain (step s e) = Spawning p -> drain s = Spawning p \/ taken s e = [p].
Proof.
  destruct s as [a q c d]. unfold taken.
  destruct e; cbn; unfold processQueue, loop_head, with_pending, with_drain, with_active, with_settings; cbn;
    destruct d; cbn; auto; try (destruct q; cbn; discriminate);
    try (destruct (_ ++ _)%list; discriminate).
  - destruct (Z.leb _ _); cbn; [discriminate|]. destruct q; cbn; [discriminate|].
    intros Hs; injection Hs as ->. auto.
Qed.

Lemma run_admitted (s : state) (evs : list event) :
  (forall id p, activeDownloads (run s evs) !! id = Some p ->
     activeDownloads s !! id = Some p \/
     ((drain s = Spawning p \/ In p (admissions s evs)) /\ pt_id p = id)) /\
  (forall p, drain (run s evs) = Spawning p ->
     drain s = Spawning p \/ In p (admissions s evs)).
Proof.
  revert s. induction evs as [|e es IH]; intros s; cbn [run admissions].
  - split; [intros id p Hl; left; exact Hl|intros p Hd; left; exact Hd].
  - destruct (IH (step s e)) as [IHa IHd].
    assert (Hsp : forall p, drain (step s e) = Spawning p \/ In p (admissions (step s e) es) ->
                    drain s = Spawning p \/ In p (taken s e ++ admissions (step s e) es)%list).
    { intros p [Hd|Hin].
      - destruct (step_spawning s e p Hd) as [H0|Ht]; [left; exact H0|].
        right. apply in_or_app. left. rewrite Ht. left. reflexivity.
      - right. apply in_or_app. right. exact Hin. }
    split.
    + intros id p Hl. destruct (IHa id p Hl) as [Hs|[Hin Hid]].
      * destruct (step_active s e id p Hs) as [H0|[Hd Hid]]; [left; exact H0|].
        right. split; [left; exact Hd|exact Hid].
      * right. split; [apply Hsp; exact Hin|exact Hid].
    + intros p Hd. apply Hsp. apply IHd. exact Hd.
Qed.


End P.
End QueueRunProofs.

Lemma queue_fifo_run `{StringToNumber} (s : Queue.state) (evs : list Queue.event) :
  (QueueRun.admissions s evs ++ Queue.pendingQueue (QueueRun.run s evs))%list =
  (Queue.pendingQueue s ++ QueueRun.started evs)%list.
Proof.
  revert s. induction evs as [|e es IH]; intros s; cbn.
  - rewrite app_nil_r. reflexivity.
  - rewrite <- app_assoc, IH, app_assoc, QueueRunProofs.step_pending, <- app_assoc.
    destruct e; reflexivity.
Qed.

(** X7: The pending queue is first in, first out while the app runs: over
    any run of the queue's events (before the user confirms quitting), the
    tasks the drain loop admits, followed by those still waiting, are the
    tasks waiting at the start followed by the tasks enqueued during the
    run, in order. If the user then confirms quitting, the waiting ones are
    not admitted: [cleanupPendingTasks] reports them failed, in the same
    order, and leaves the queue and [activeDownloads] empty. *)
Theorem queue_fifo `{StringToNumber} (s : Queue.state) (evs : list Queue.event) :
  ((QueueRun.admissions s evs ++ Queue.pendingQueue (QueueRun.run s evs))%list =
   (Queue.pendingQueue s ++ QueueRun.started evs)%list) /\
  ((QueueRun.admissions s evs ++ snd (Queue.cleanupPendingTasks (QueueRun.run s evs)))%list =
   (Queue.pendingQueue s ++ QueueRun.started evs)%list) /\
  Queue.pendingQueue (fst (Queue.cleanupPendingTasks (QueueRun.run s evs))) = [] /\
  Queue.activeDownloads (fst (Queue.cleanupPendingTasks (QueueRun.run s evs))) = ∅.
Proof.
  split; [exact (queue_fifo_run s evs)|].
  split; [exact (queue_fifo_run s evs)|split; reflexivity].
Qed.

(** X8: Over any run, a task in [activeDownloads] was active at the start
    or was admitted by the drain loop (being spawned at the start, or taken
    from the queue during the run), under its own id; the task being spawned
    at the end likewise. *)
Theorem active_only_admitted `{StringToNumber} (s : Queue.state) (evs : list Queue.event) :
  (forall id p, Queue.activeDownloads (QueueRun.run s evs) !! id = Some p ->
     Queue.activeDownloads s !! id = Some p \/
     ((Queue.drain s = Queue.Spawning p \/ In p (QueueRun.admissions s evs)) /\
      Queue.pt_id p = id)) /\
  (forall p, Queue.drain (QueueRun.run s evs) = Queue.Spawning p ->
     Queue.drain s = Queue.Spawning p \/ In p (QueueRun.admissions s evs)).
Proof. exact (QueueRunProofs.run_admitted s evs). Qed.

Lemma handleLine_step (task : DownloadTask) (raw : string) :
  let '(t', evs) := handleLine task raw in
  line_step_ok task t' /\ length evs <= 1 /\ Forall (fun e => event_id e = dt_id task) evs.
Proof.
  unfold handleLine, handleFailure, line_step_ok.
  destruct (String.eqb (JS.trim raw) "");
    [|destruct (JS.starts_with destination_marker (JS.trim raw));
      [cbn; destruct (falsy (dt_title task)) eqn:Ef
      |destruct (Regex.progressMatch (JS.trim raw));
       [|destruct (JS.starts_with "[Merger]" (JS.trim raw) || JS.starts_with "[ffmpeg]" (JS.trim raw))%bool;
         [|destruct (JS.starts_with "ERROR" (JS.trim raw))]]]].
  all: cbn; repeat split; try reflexivity; try (intros; congruence); try lia;
    try (left; reflexivity); try (right; left; reflexivity);
    try (right; right; left; reflexivity); try (right; right; right; reflexivity);
    try (solve [repeat constructor]).
Qed.

(** X12: Processing the download engine's output lines keeps the task's
    id, URL, directory and type, keeps a non-empty title, leaves the status
    unchanged or sets it to downloading, processing or failed, and emits at
    most one event per line, each for the task's id. *)
Theorem handleLines_keeps_task (task : DownloadTask) (lines : list string) :
  let '(t', evs) := handleLines task lines in
  line_step_ok task t' /\ length evs <= length lines /\
  Forall (fun e => event_id e = dt_id task) evs.
Proof.
  revert task. induction lines as [|l ls IH]; intros task; cbn.
  - unfold line_step_ok. repeat split; auto.
  - pose proof (handleLine_step task l) as Hs.
    destruct (handleLine task l) as [t1 ev1].
    specialize (IH t1). destruct (handleLines t1 ls) as [t2 ev2].
    destruct Hs as [[Hid1 [Hu1 [Hd1 [Hk1 [Ht1 Hst1]]]]] [Hl1 Hf1]].
    destruct IH as [[Hid2 [Hu2 [Hd2 [Hk2 [Ht2 Hst2]]]]] [Hl2 Hf2]].
    split; [|split].
    + unfold line_step_ok. split; [congruence|]. split; [congruence|]. split; [congruence|].
      split; [congruence|]. split.
      * intros Hf. rewrite Ht2, Ht1 by (rewrite ?Ht1; assumption). reflexivity.
      * destruct Hst2 as [->|Hst2]; [|right; exact Hst2]. exact Hst1.
    + rewrite length_app. lia.
    + apply Forall_app. split; [exact Hf1|]. rewrite <- Hid1. exact Hf2.
Qed.

(** ** [path.dirname] and the [download:open] handler *)

Lemma dirname_scan_bounds (p : string) :
  forall n i m e, (n <= i)%nat -> NodePath.dirname_scan p n i m = Some e -> (1 <= e <= i)%nat.
Proof.
  induction n as [|n IH]; intros i m e Hn Hs; cbn in Hs; [discriminate|].
  destruct (String.get i p) as [c|]; [|discriminate].
  destruct (JS.ascii_eqb c "/"); [destruct m|].
  - apply IH in Hs; lia.
  - injection Hs as <-. lia.
  - apply IH in Hs; lia.
Qed.

Lemma dirname_nonempty (p : string) : NodePath.dirname p <> "".
Proof.
  destruct p as [|c s]; cbn [NodePath.dirname]; [discriminate|].
  destruct (NodePath.dirname_scan _ _ _ _) as [e|] eqn:Hs.
  - apply dirname_scan_bounds in Hs; [|lia].
    destruct (JS.ascii_eqb c "/" && Nat.eqb e 1)%bool; [discriminate|].
    destruct e as [|e]; [lia|]. cbn. discriminate.
  - destruct (JS.ascii_eqb c "/"); discriminate.
Qed.

(** ** The title of [download:start] *)

Lemma pretty_N_go_no_slash (x : N) :
  forall s, no_slash s = true -> no_slash (pretty_N_go x s) = true.
Proof.
  induction (N.lt_wf_0 x) as [x _ IH]; intros s Hs.
  destruct (decide (x = 0)%N) as [->|Hx]; [rewrite pretty_N_go_0; exact Hs|].
  rewrite pretty_N_go_step by lia. apply IH; [apply N.div_lt; lia|].
  unfold no_slash in *. cbn [str_forallb]. rewrite Hs, andb_true_r.
  unfold pretty_N_char. repeat case_match; reflexivity.
Qed.

Lemma pretty_nat_no_slash (k : nat) : no_slash (pretty k) = true.
Proof.
  unfold pretty, pretty_nat, pretty, pretty_N.
  case_decide; [reflexivity|]. apply pretty_N_go_no_slash. reflexivity.
Qed.

Lemma no_slash_app (a b : string) : no_slash (a +:+ b) = (no_slash a && no_slash b)%bool.
Proof. unfold no_slash. apply str_forallb_app. Qed.

Lemma cand_base_no_slash (input : string) (k : nat) :
  no_slash (cand_base (sanitizeFilename input) k) = true /\
  cand_base (sanitizeFilename input) k <> "".
Proof.
  destruct (sanitizeFilename_no_slash input) as [Hs Hne].
  destruct k as [|k]; [split; assumption|].
  unfold cand_base, suffixed. rewrite !no_slash_app, Hs, pretty_nat_no_slash. split; [reflexivity|].
  destruct (sanitizeFilename input); [congruence|discriminate].
Qed.

Lemma append_cons (c : ascii) (a b : string) : String c a +:+ b = String c (a +:+ b).
Proof. reflexivity. Qed.

Lemma append_nil (b : string) : "" +:+ b = b.
Proof. reflexivity. Qed.

Lemma last_index_of_go_none (c : ascii) (s : string) :
  forall i acc, str_forallb (fun d => negb (JS.ascii_eqb d c)) s = true ->
  JS.last_index_of_go c s i acc = acc.
Proof.
  induction s as [|d s IH]; intros i acc Hs; [reflexivity|].
  cbn [str_forallb] in Hs. apply andb_prop in Hs as [Hd Hs].
  cbn. rewrite IH by exact Hs.
  unfold JS.ascii_eqb in *. destruct (ascii_dec c d) as [->|]; [|reflexivity].
  destruct (ascii_dec d d); [discriminate|congruence].
Qed.

Lemma last_index_of_go_app (c : ascii) (a b : string) :
  forall i acc, JS.last_index_of_go c (a +:+ b) i acc =
                JS.last_index_of_go c b (i + String.length a) (JS.last_index_of_go c a i acc).
Proof.
  induction a as [|d a IH]; intros i acc; cbn [String.append JS.last_index_of_go String.length].
  - rewrite Nat.add_0_r. reflexivity.
  - change (String d a +:+ b) with (String d (a +:+ b)). cbn [JS.last_index_of_go].
    rewrite IH. f_equal. lia.
Qed.

Lemma substring_full (b : string) :
  forall m, (String.length b <= m)%nat -> substring 0 m b = b.
Proof.
  induction b as [|c b IH]; intros m Hm; [destruct m; reflexivity|].
  cbn in Hm. destruct m as [|m]; [lia|]. cbn. f_equal. apply IH. lia.
Qed.

Lemma substring_app_r (a b : string) :
  forall m, (String.length b <= m)%nat -> substring (String.length a) m (a +:+ b) = b.
Proof.
  induction a as [|c a IH]; intros m Hm; rewrite ?append_nil, ?append_cons; cbn [String.length];
    [apply substring_full, Hm|].
  destruct m as [|m]; [|apply IH; exact Hm].
  destruct b; [|cbn in Hm; lia]. apply (IH 0); exact Hm.
Qed.

Lemma string_app_assoc (a b c : string) : (a +:+ b) +:+ c = a +:+ (b +:+ c).
Proof. induction a as [|d a IH]; rewrite ?append_nil, ?append_cons; [reflexivity|rewrite IH; reflexivity]. Qed.

Lemma append_nil_r (a : string) : a +:+ "" = a.
Proof. induction a as [|c a IH]; rewrite ?append_nil, ?append_cons; [reflexivity|rewrite IH; reflexivity]. Qed.

Lemma length_app (a b : string) :
  String.length (a +:+ b) = (String.length a + String.length b)%nat.
Proof.
  induction a as [|c a IH]; rewrite ?append_nil, ?append_cons; cbn [String.length];
    [reflexivity|rewrite IH; reflexivity].
Qed.

Lemma substring_app_l (a b : string) : substring 0 (String.length a) (a +:+ b) = a.
Proof.
  induction a as [|c a IH]; rewrite ?append_nil, ?append_cons; cbn [String.length];
    [destruct b; reflexivity|cbn [substring]; rewrite IH; reflexivity].
Qed.

Lemma base_part_join (directory name : string) :
  no_slash name = true -> NodePath.base_part (NodePath.join directory name) = name.
Proof.
  intros Hn. unfold NodePath.base_part, NodePath.join, JS.last_index_of.
  rewrite last_index_of_go_app. cbn [JS.last_index_of_go].
  assert (E : JS.ascii_eqb "/" "/" = true) by reflexivity. rewrite E.
  rewrite last_index_of_go_none.
  - change (String "/" name) with ("/" +:+ name). rewrite <- (string_app_assoc directory "/" name).
    rewrite Nat.add_0_l.
    pose proof (substring_app_r (directory +:+ "/") name) as Hs.
    rewrite length_app in Hs. cbn [String.length] in Hs. rewrite Nat.add_1_r in Hs.
    apply Hs. rewrite !length_app. cbn. lia.
  - unfold no_slash in Hn. clear E. induction name as [|d name IH]; [reflexivity|].
    cbn [str_forallb] in *. apply andb_prop in Hn as [Hd Hn]. rewrite (IH Hn), andb_true_r.
    exact Hd.
Qed.

Lemma rev_app_append (a b acc : string) :
  String.rev_app (a +:+ b) acc = String.rev_app b (String.rev_app a acc).
Proof. revert acc. induction a as [|c a IH]; intros acc; [reflexivity|apply IH]. Qed.

Lemma starts_with_rev_app (e : string) :
  forall acc acc', JS.starts_with acc acc' = true ->
  JS.starts_with (String.rev_app e acc) (String.rev_app e acc') = true.
Proof.
  induction e as [|c e IH]; intros acc acc' H; [exact H|]. cbn [String.rev_app].
  apply IH. cbn. unfold JS.ascii_eqb. destruct (ascii_dec c c); [exact H|congruence].
Qed.

Lemma ends_with_app (b e : string) : JS.ends_with e (b +:+ e) = true.
Proof.
  unfold JS.ends_with, String.rev. rewrite rev_app_append.
  apply starts_with_rev_app. reflexivity.
Qed.

Lemma basename_join_app (directory b e : string) :
  no_slash (b +:+ e) = true -> b <> "" ->
  NodePath.basename (NodePath.join directory (b +:+ e)) e = b.
Proof.
  intros Hn Hb. unfold NodePath.basename. rewrite base_part_join by exact Hn.
  destruct (String.eqb_spec e "") as [->|He].
  - cbn. rewrite append_nil_r. reflexivity.
  - rewrite ends_with_app.
    destruct (String.eqb_spec e (b +:+ e)) as [Heq|_].
    + exfalso. apply (f_equal String.length) in Heq. rewrite length_app in Heq.
      destruct b; [congruence|cbn in Heq; lia].
    + cbn. rewrite length_app, Nat.add_sub. apply substring_app_l.
Qed.

Lemma expected_ext_no_slash (d : DownloadType) (audioFormat : option string) :
  no_slash (expected_ext d audioFormat) = true.
Proof.
  destruct d; cbn; [reflexivity|].
  destruct audioFormat as [f|]; [|reflexivity]. destruct (String.eqb f "m4a"); reflexivity.
Qed.

(** X13: Whatever its input, [sanitizeFilename] returns a non-empty name
    of at most 120 UTF-16 code units, without any code unit of its illegal
    class ([is_illegal]: backslash, slash, colon, star, question mark,
    double quote, less-than, greater-than, bar), whose only white space is
    the plain space, without two white-space code units in a row, and not
    starting with white space. *)
Theorem sanitizeFilename_shape (input : string) :
  let r := Unicode.decode (sanitizeFilename input) in
  r <> [] /\ (length r <= 120)%nat /\
  Forall (fun c => is_illegal c = false) r /\
  Forall (fun c => Unicode.is_space c = true -> c = 32%Z) r /\
  no_adjacent_space r /\ head_not_space r.
Proof.
  cbn zeta. rewrite sanitizeFilename_decode.
  destruct (sanitize_units_shape _ (decode_range input)) as [Hne [Hlen [[A [B [_ D]]] Hh]]].
  repeat split; assumption.
Qed.

(** X14: [download:open] with a non-empty [filePath] stats that path and
    nothing else, then shows the file in its folder when the stat succeeds,
    and otherwise opens [path.dirname(filePath)], which is never empty: the
    payload's [directory] and the settings' download directory are then
    never used. *)
Theorem download_open_file_path {FS} `{FileSystem FS}
    (settingsDownloadDir directory : option string) (fp : string) (fs : FS) (log : list fs_op) :
  fp <> "" ->
  download_open settingsDownloadDir (Some fp) directory (fs, log) =
    ((fs, (log ++ [OpStat fp])%list),
     Ret (Some (match fs_stat fs fp with
                | inl _ => ShowItemInFolder fp
                | inr _ => OpenPath (NodePath.dirname fp)
                end))) /\
  NodePath.dirname fp <> "".
Proof.
  intros Hfp. split; [|apply dirname_nonempty].
  unfold download_open. destruct (String.eqb_spec fp "") as [->|_]; [congruence|].
  unfold io_bind, io_try, io_stat. destruct (fs_stat fs fp) as [st|e]; [reflexivity|].
  destruct (String.eqb_spec (NodePath.dirname fp) "") as [He|_];
    [exfalso; exact (dirname_nonempty fp He)|reflexivity].
Qed.

Lemma download_open_file_path_witness :
  NodePath.dirname "/d/gone.mp4" <> "".
Proof.
  destruct (@download_open_file_path MemFS.t MemFS.fs (Some "/s") (Some "/x") "/d/gone.mp4"
              [] [] ltac:(discriminate)) as [_ H].
  exact H.
Defined.

(** X15: Without [force], [download:start] only reads the file system to
    pick the output path; the path is free ([stat] fails with [ENOENT]) and
    is [downloadDir/<title><ext>] with the matching [%(ext)s] template, where
    the initial title it gives the task is the sanitised requested title,
    with a numeric suffix [(k)] when [k > 0] candidates were taken. *)
Theorem start_output_path_title {FS} `{FileSystem FS} (fuel : nat) (now : Z)
    (deriveTitleFromUrl : string -> string) (url downloadDir : string)
    (downloadType audioFormat : option string)
    (existingFilePath existingTitle title : option string)
    (fs : FS) (log : list fs_op) fs' log' (tpl abs t : string) :
  start_output_path fuel now deriveTitleFromUrl url downloadDir downloadType audioFormat false
    existingFilePath existingTitle title (fs, log) = ((fs', log'), Ret ((tpl, abs), t)) ->
  let ext := expected_ext (payload_download_type downloadType) audioFormat in
  let initialTitle :=
    match title with
    | Some x => x
    | None => match existingTitle with Some x => x | None => deriveTitleFromUrl url end
    end in
  fs' = fs /\ stat_enoent fs abs = true /\
  abs = NodePath.join downloadDir (t +:+ ext) /\
  tpl = NodePath.join downloadDir (t +:+ ".%(ext)s") /\
  exists k, t = cand_base (sanitizeFilename initialTitle) k.
Proof.
  revert fs' log' tpl abs t. unfold start_output_path, io_bind. cbv zeta.
  intros fs' log' tpl abs t.
  destruct (ensureUniqueOutputPath _ _ _ _ _ _ _) as [[fs1 log1] o] eqn:Eu.
  destruct (unique_loop_safe fs downloadDir _ _ fuel 0 log fs1 log1 o Eu) as [-> [_ Ho]].
  destruct o as [r|e]; [|intros Hr; discriminate].
  destruct Ho as [Hfree [k ->]]. unfold io_ret. intros Hr. injection Hr as <- <- <- <- <-.
  cbn [fst snd unique_candidate] in *.
  destruct (cand_base_no_slash
              match title with
              | Some x => x
              | None => match existingTitle with Some x => x | None => deriveTitleFromUrl url end
              end k) as [Hns Hne].
  rewrite basename_join_app;
    [|rewrite no_slash_app, Hns, expected_ext_no_slash; reflexivity|exact Hne].
  repeat split; [exact Hfree|]. exists k. reflexivity.
Qed.

Lemma start_output_path_title_witness :
  stat_enoent [MemFS.file "/d/Song.mp3" 1] "/d/Song(1).mp3" = true.
Proof.
  destruct (@start_output_path_title MemFS.t MemFS.fs 10 0 (fun _ => "x") "https://e.com/v" "/d"
              (Some "audio") None None None (Some "Song")
              [MemFS.file "/d/Song.mp3" 1] [] [MemFS.file "/d/Song.mp3" 1]
              [OpStat "/d/Song.mp3"; OpStat "/d/Song(1).mp3"]
              "/d/Song(1).%(ext)s" "/d/Song(1).mp3" "Song(1)" ltac:(vm_compute; reflexivity))
    as [_ [H _]].
  exact H.
Defined.

Lemma find_split {A} (p : A -> bool) (r : list A) (x : A) :
  find p r = Some x ->
  exists a b, r = (a ++ x :: b)%list /\ p x = true /\ (forall y, In y a -> p y = false).
Proof.
  induction r as [|z r IH]; cbn; [discriminate|].
  destruct (p z) eqn:Ez.
  - intros Hx; injection Hx as <-. exists [], r. split; [reflexivity|]. split; [exact Ez|]. intros y [].
  - intros Hx. destruct (IH Hx) as [a [b [-> [Hp Ha]]]].
    exists (z :: a), b. split; [reflexivity|]. split; [exact Hp|].
    intros y [<-|Hy]; [exact Ez|exact (Ha y Hy)].
Qed.

(** X16: Without [info.thumbnail], [selectThumbnail] returns the URL of the
    last entry of [info.thumbnails] whose URL is non-empty, and [undefined]
    exactly when no entry has a non-empty URL. *)
Theorem selectThumbnail_last (thumbnails : option (list YtDlpThumbnail)) :
  let l := match thumbnails with Some l => l | None => [] end in
  (selectThumbnail None thumbnails = None <->
     forall item, In item l -> str_truthy (yt_url item) = false) /\
  (forall u, selectThumbnail None thumbnails = Some u ->
     exists pre item post, l = (pre ++ item :: post)%list /\ yt_url item = Some u /\ u <> "" /\
       forall item', In item' post -> str_truthy (yt_url item') = false).
Proof.
  cbn zeta. unfold selectThumbnail.
  set (l := match thumbnails with Some l => l | None => [] end).
  destruct (find (fun item => str_truthy (yt_url item)) (rev l)) as [x|] eqn:Ef.
  - destruct (find_split _ _ _ Ef) as [a [b [Hr [Hx Ha]]]].
    assert (Hl : l = (rev b ++ x :: rev a)%list).
    { rewrite <- (rev_involutive l), Hr, rev_app_distr. cbn. rewrite <- app_assoc. reflexivity. }
    split.
    + split; [intros Hn; rewrite Hn in Hx; discriminate|].
      intros Hall. exfalso. rewrite (Hall x) in Hx; [discriminate|].
      rewrite Hl. apply in_or_app. right. left. reflexivity.
    + intros u Hu. exists (rev b), x, (rev a). split; [exact Hl|]. split; [exact Hu|].
      split; [rewrite Hu in Hx; cbn in Hx; intros ->; discriminate|].
      intros y Hy. apply Ha. apply in_rev, Hy.
  - split; [|intros u Hu; discriminate].
    split; [intros _|intros _; reflexivity].
    intros item Hi. destruct (str_truthy (yt_url item)) eqn:E; [|reflexivity].
    exfalso. apply in_rev in Hi.
    pose proof (find_none _ _ Ef item Hi) as Hc. cbn beta in Hc. congruence.
Qed.
